(** * CollabEdit: a shallow embedding of the synchronisation core

    The development follows the TypeScript sources file by file:
    - [JsMap]         the insertion-ordered [Map] of the JavaScript runtime,
    - [JsNumber]      addition on the doubles that hold integers,
    - [JSON]          [JSON.stringify] and [JSON.parse] on the values that
                      protocol messages are made of,
    - [Protocol]      src/protocol.ts (data model and wire messages),
    - [FileSyncM]     src/fileSync.ts (manifest diff, suppression, initial sync),
    - [DocumentSyncM] src/documentSync.ts (remote edit application),
    - [Client]        src/client.ts (reconnect policy),
    - [Server]        src/server.ts (host side registry, heartbeat sweep),
    - [Utils]         src/utils.ts (ignore patterns, binary detection, rate
                      limiters, directory walk),
    - [ManifestScan]  src/fileSync.ts (reading the workspace) and the host's
                      answer to a file request,
    - [FileSyncRun]   src/fileSync.ts (the engine under sequences of calls),
    - [ServerView]    src/server.ts (what each socket is sent),
    - [ClientSession] src/client.ts (address and incoming messages),
    - [DocumentSyncLocal] src/documentSync.ts (local changes),
    - [FileWatcherM]  src/fileWatcher.ts and the file-change listeners of
                      src/extension.ts.

    JavaScript strings are modelled as [string], JavaScript integers as [Z]
    (the version counter of src/documentSync.ts, which a peer's message can
    set to any number, is incremented as a double),
    a [Set<string>] as [gset string], a [Map<string, number>] whose order is
    never observed as [gmap string Z], and a [Map] whose iteration order is
    observed as an insertion-ordered association list ([JsMap.t]).

    Objects with mutable fields become records threaded through explicit
    worlds.  A world also carries what the object does to its surroundings
    (sockets, file system, timers) as a log of effects, and, where timers
    matter, a clock and the list of pending timers.  Event handlers run to
    completion; an [await] on the file system or on the editor is a point
    where the clock advances and due timers fire.  What the code takes from Node and from the
    editor (path functions, file reads, digests, text encodings, the editor's
    buffers) enters as section variables.

    The second part of the file states and proves the properties. *)

From stdpp Require Import gmap strings.
From Stdlib Require Import ZArith Ascii Bool Lia List.
From Stdlib Require DecimalPos DecimalZ.
Import ListNotations.
Local Open Scope string_scope.
Local Open Scope Z_scope.
Local Open Scope list_scope.

(* ===================================================================== *)
(** ** The JavaScript [Map]: keyed, insertion ordered *)
(* ===================================================================== *)

Module JsMap.

Section Ops.
Context {V : Type}.

(** Entries in insertion order; keys are pairwise distinct in every map
    built with [set] from [empty]. *)
Definition t : Type := list (string * V).

Definition empty : t := [].

(** [m.set(k, v)]: an existing key keeps its position and gets the new
    value, a new key is appended. *)
Fixpoint set (k : string) (v : V) (m : t) : t :=
    match m with
    | [] => [(k, v)]
    | (k', v') :: m' =>
        if String.eqb k k' then (k', v) :: m' else (k', v') :: set k v m'
    end.

(** [m.get(k)], with [None] for [undefined]. *)
Fixpoint get (k : string) (m : t) : option V :=
    match m with
    | [] => None
    | (k', v') :: m' => if String.eqb k k' then Some v' else get k m'
    end.

(** [m.has(k)]. *)
Definition has (k : string) (m : t) : bool :=
    match get k m with Some _ => true | None => false end.

(** [m.delete(k)]. *)
Fixpoint delete (k : string) (m : t) : t :=
    match m with
    | [] => []
    | (k', v') :: m' =>
        if String.eqb k k' then m' else (k', v') :: delete k m'
    end.

(** [new Map(iterable)]: the pairs are [set] one after the other. *)
Definition of_entries (l : list (string * V)) : t :=
    fold_left (fun m kv => set (fst kv) (snd kv) m) l empty.

(** The loop inside [new Map(iterable)], started from any map. *)
Definition set_all (l : list (string * V)) (m0 : t) : t :=
    fold_left (fun m kv => set (fst kv) (snd kv) m) l m0.

Definition entries (m : t) : list (string * V) := m.
Definition keys (m : t) : list string := List.map fst m.
Definition values (m : t) : list V := List.map snd m.
End Ops.

Arguments t : clear implicits.

End JsMap.

(** [arr.slice(i, j)] for [0 <= i <= j]; an end past the array is clamped. *)
Definition slice {A : Type} (arr : list A) (i j : nat) : list A :=
  firstn (j - i) (skipn i arr).

(** [arr.push(x)]. *)
Definition push {A : Type} (arr : list A) (x : A) : list A := arr ++ [x].

(* ===================================================================== *)
(** ** JavaScript numbers that hold integers *)
(* ===================================================================== *)

(** A JavaScript number is an IEEE 754 double: a 53-bit significand and a
    power of two.  Every integer of magnitude up to [2^53] is a double; the
    result of an addition is the double nearest to the exact sum, a tie going
    to the even significand.  The numbers met here hold integers (far below
    the point where a double overflows). *)
Module JsNumber.

(** The double nearest to the natural number [m]. *)
Definition round_magnitude (m : Z) : Z :=
  if m <? 2^53 then m
  else
    let e := Z.log2 m - 52 in
    let q := Z.shiftr m e in
    let r := m - Z.shiftl q e in
    let half := Z.shiftl 1 (e - 1) in
    let q := if r <? half then q
             else if half <? r then q + 1
             else if Z.even q then q else q + 1 in
    Z.shiftl q e.

(** The double nearest to the integer [n]. *)
Definition round (n : Z) : Z := Z.sgn n * round_magnitude (Z.abs n).

(** [a + b]. *)
Definition add (a b : Z) : Z := round (a + b).

(** [Number.MAX_SAFE_INTEGER + 1]: from here on [x + 1] is no longer [x]'s
    successor. *)
Definition limit : Z := 2^53.

End JsNumber.

(* ===================================================================== *)
(** ** The [JSON] object of the runtime *)
(* ===================================================================== *)

(** [JSON.stringify] and [JSON.parse] on the values that wire messages are
    made of.  A number is an integer (every numeric field of the protocol is
    a count or an index); a string is a [string] with one character per
    UTF-16 code unit below 256; an object is the list of its properties in
    creation order.  The parser follows the JSON grammar; an integer literal
    is read as the double nearest to it; a number with a fraction or an
    exponent and a [\u] escape above 255 have no value in this model and stop
    it. *)
Module JSON.

Unset Elimination Schemes.
Inductive value : Type :=
| Null
| Bool (b : bool)
| Number (n : Z)
| Str (s : string)
| Array (items : list value)
| Object (properties : list (string * value)).
Set Elimination Schemes.

(** Induction on values, through the lists inside them. *)

Section ValueInduction.
Variable P : value -> Prop.
Hypothesis HNull : P Null.
Hypothesis HBool : forall b, P (Bool b).
Hypothesis HNumber : forall n, P (Number n).
Hypothesis HStr : forall s, P (Str s).
Hypothesis HArray : forall items, Forall P items -> P (Array items).
Hypothesis HObject :
  forall properties, Forall (fun p => P (snd p)) properties -> P (Object properties).

Fixpoint value_nested_ind (v : value) : P v :=
  match v with
  | Null => HNull
  | Bool b => HBool b
  | Number n => HNumber n
  | Str s => HStr s
  | Array items =>
      HArray items
        ((fix all (l : list value) : Forall P l :=
            match l with
            | [] => @List.Forall_nil _ P
            | x :: l' => @List.Forall_cons _ P x l' (value_nested_ind x) (all l')
            end) items)
  | Object properties =>
      HObject properties
        ((fix all (l : list (string * value)) : Forall (fun p => P (snd p)) l :=
            match l with
            | [] => @List.Forall_nil _ _
            | p :: l' =>
                @List.Forall_cons _ (fun p => P (snd p)) p l'
                                  (value_nested_ind (snd p)) (all l')
            end) properties)
  end.
End ValueInduction.

Definition chars : Type := list ascii.

(** *** [JSON.stringify] *)

Fixpoint digits (d : Decimal.uint) : chars :=
  match d with
  | Decimal.Nil => []
  | Decimal.D0 d' => "0"%char :: digits d'
  | Decimal.D1 d' => "1"%char :: digits d'
  | Decimal.D2 d' => "2"%char :: digits d'
  | Decimal.D3 d' => "3"%char :: digits d'
  | Decimal.D4 d' => "4"%char :: digits d'
  | Decimal.D5 d' => "5"%char :: digits d'
  | Decimal.D6 d' => "6"%char :: digits d'
  | Decimal.D7 d' => "7"%char :: digits d'
  | Decimal.D8 d' => "8"%char :: digits d'
  | Decimal.D9 d' => "9"%char :: digits d'
  end.

(** [Number::toString] of an integer: decimal digits, a minus sign first for
    a negative one. *)
Definition number_text (n : Z) : chars :=
  match Z.to_int n with
  | Decimal.Pos d => digits d
  | Decimal.Neg d => "-"%char :: digits d
  end.

Definition hex_digit (n : N) : ascii :=
  if (n <? 10)%N then ascii_of_N (48 + n) else ascii_of_N (87 + n).

(** [QuoteJSONString], one code unit: the two-character escapes, [\u00xx]
    for the other control characters, the character itself otherwise. *)
Definition escape (c : ascii) : chars :=
  let n := N_of_ascii c in
  if (n =? 8)%N then ["\"; "b"]%char
  else if (n =? 9)%N then ["\"; "t"]%char
  else if (n =? 10)%N then ["\"; "n"]%char
  else if (n =? 12)%N then ["\"; "f"]%char
  else if (n =? 13)%N then ["\"; "r"]%char
  else if (n =? 34)%N then ["\"; c]%char
  else if (n =? 92)%N then ["\"; "\"]%char
  else if (n <? 32)%N
       then ["\"; "u"; "0"; "0"; hex_digit (n / 16); hex_digit (n mod 16)]%char
  else [c].

Definition quote_char : ascii := ascii_of_N 34.

Definition quote (s : string) : chars :=
  quote_char :: flat_map escape (String.list_ascii_of_string s) ++ [quote_char].

(** Elements joined by commas. *)
Fixpoint join (parts : list chars) : chars :=
  match parts with
  | [] => []
  | [p] => p
  | p :: rest => p ++ ","%char :: join rest
  end.

(** [SerializeJSONProperty] without indentation. *)
Fixpoint text (v : value) : chars :=
  match v with
  | Null => String.list_ascii_of_string "null"
  | Bool true => String.list_ascii_of_string "true"
  | Bool false => String.list_ascii_of_string "false"
  | Number n => number_text n
  | Str s => quote s
  | Array items => "["%char :: join (List.map text items) ++ ["]"%char]
  | Object properties =>
      "{"%char ::
      join (List.map (fun p => quote (fst p) ++ ":"%char :: text (snd p)) properties)
      ++ ["}"%char]
  end.

Definition stringify (v : value) : string := String.string_of_list_ascii (text v).

(** *** [JSON.parse] *)

Definition is_ws (c : ascii) : bool :=
  let n := N_of_ascii c in
  (n =? 9)%N || (n =? 10)%N || (n =? 13)%N || (n =? 32)%N.

Definition is_digit (c : ascii) : bool :=
  let n := N_of_ascii c in (48 <=? n)%N && (n <=? 57)%N.

Fixpoint skip_ws (s : chars) : chars :=
  match s with
  | c :: s' => if is_ws c then skip_ws s' else s
  | [] => []
  end.

(** The rest of [s] after the literal [lit], if [s] starts with it. *)
Fixpoint expect (lit s : chars) : option chars :=
  match lit, s with
  | [], _ => Some s
  | l :: lit', c :: s' => if Ascii.eqb l c then expect lit' s' else None
  | _ :: _, [] => None
  end.

Definition hex_value (c : ascii) : option N :=
  let n := N_of_ascii c in
  if (48 <=? n)%N && (n <=? 57)%N then Some (n - 48)%N
  else if (97 <=? n)%N && (n <=? 102)%N then Some (n - 87)%N
  else if (65 <=? n)%N && (n <=? 70)%N then Some (n - 55)%N
  else None.

(** The code unit of a [u] escape with the four hexadecimal digits [a b c d]. *)
Definition unicode_escape (a b c d : ascii) : option ascii :=
  match hex_value a, hex_value b, hex_value c, hex_value d with
  | Some x, Some y, Some z, Some t =>
      let n := (((x * 16 + y) * 16 + z) * 16 + t)%N in
      if (n <? 256)%N then Some (ascii_of_N n) else None
  | _, _, _, _ => None
  end.

(** The characters of a string literal after its opening quote, up to the
    closing quote. *)
Fixpoint string_body (s : chars) : option (list ascii * chars) :=
  match s with
  | [] => None
  | c :: s' =>
      if Ascii.eqb c quote_char then Some ([], s')
      else if Ascii.eqb c "\"%char then
        match s' with
        | e :: s'' =>
            let simple (x : ascii) :=
              match string_body s'' with
              | Some (body, rest) => Some (x :: body, rest)
              | None => None
              end in
            if Ascii.eqb e quote_char then simple quote_char
            else if Ascii.eqb e "\"%char then simple "\"%char
            else if Ascii.eqb e "/"%char then simple "/"%char
            else if Ascii.eqb e "b"%char then simple (ascii_of_N 8)
            else if Ascii.eqb e "f"%char then simple (ascii_of_N 12)
            else if Ascii.eqb e "n"%char then simple (ascii_of_N 10)
            else if Ascii.eqb e "r"%char then simple (ascii_of_N 13)
            else if Ascii.eqb e "t"%char then simple (ascii_of_N 9)
            else if Ascii.eqb e "u"%char then
              match s'' with
              | h1 :: h2 :: h3 :: h4 :: s''' =>
                  match unicode_escape h1 h2 h3 h4, string_body s''' with
                  | Some x, Some (body, rest) => Some (x :: body, rest)
                  | _, _ => None
                  end
              | _ => None
              end
            else None
        | [] => None
        end
      else if (N_of_ascii c <? 32)%N then None
      else
        match string_body s' with
        | Some (body, rest) => Some (c :: body, rest)
        | None => None
        end
  end.

Definition string_literal (s : chars) : option (string * chars) :=
  match s with
  | c :: s' =>
      if Ascii.eqb c quote_char then
        match string_body s' with
        | Some (body, rest) => Some (String.string_of_list_ascii body, rest)
        | None => None
        end
      else None
  | [] => None
  end.

Definition digit_of (c : ascii) (d : Decimal.uint) : Decimal.uint :=
  let n := N_of_ascii c in
  if (n =? 48)%N then Decimal.D0 d
  else if (n =? 49)%N then Decimal.D1 d
  else if (n =? 50)%N then Decimal.D2 d
  else if (n =? 51)%N then Decimal.D3 d
  else if (n =? 52)%N then Decimal.D4 d
  else if (n =? 53)%N then Decimal.D5 d
  else if (n =? 54)%N then Decimal.D6 d
  else if (n =? 55)%N then Decimal.D7 d
  else if (n =? 56)%N then Decimal.D8 d
  else Decimal.D9 d.

(** The longest run of digits at the head of [s]. *)
Fixpoint read_digits (s : chars) : Decimal.uint * chars :=
  match s with
  | c :: s' =>
      if is_digit c then
        let (d, rest) := read_digits s' in (digit_of c d, rest)
      else (Decimal.Nil, s)
  | [] => (Decimal.Nil, [])
  end.

(** Whether a fraction or an exponent follows an integer part. *)
Definition more_number (s : chars) : bool :=
  match s with
  | c :: _ => Ascii.eqb c "."%char || Ascii.eqb c "e"%char || Ascii.eqb c "E"%char
  | [] => false
  end.

(** A number literal: an optional minus sign, then [0] or a digit from 1 to 9
    followed by digits; its value is the double nearest to the integer
    written. *)
Definition number_literal (s : chars) : option (Z * chars) :=
  let (negative, s1) :=
    match s with
    | c :: s' => if Ascii.eqb c "-"%char then (true, s') else (false, s)
    | [] => (false, s)
    end in
  match s1 with
  | c :: s2 =>
      if is_digit c then
        let (d, rest) :=
          if Ascii.eqb c "0"%char then (Decimal.D0 Decimal.Nil, s2)
          else read_digits s1 in
        if more_number rest then None
        else Some (JsNumber.round
                     (Z.of_int (if negative then Decimal.Neg d else Decimal.Pos d)),
                   rest)
      else None
  | [] => None
  end.

(** A value, the elements of an array after its first bracket, and the
    members of an object after its first brace.  Every call takes one unit of
    [fuel]. *)
Fixpoint parse_value (fuel : nat) (s : chars) : option (value * chars) :=
  match fuel with
  | O => None
  | S fuel' =>
      match skip_ws s with
      | [] => None
      | c :: s' =>
          if Ascii.eqb c "n"%char then
            match expect (String.list_ascii_of_string "null") (c :: s') with
            | Some rest => Some (Null, rest)
            | None => None
            end
          else if Ascii.eqb c "t"%char then
            match expect (String.list_ascii_of_string "true") (c :: s') with
            | Some rest => Some (Bool true, rest)
            | None => None
            end
          else if Ascii.eqb c "f"%char then
            match expect (String.list_ascii_of_string "false") (c :: s') with
            | Some rest => Some (Bool false, rest)
            | None => None
            end
          else if Ascii.eqb c quote_char then
            match string_literal (c :: s') with
            | Some (str, rest) => Some (Str str, rest)
            | None => None
            end
          else if Ascii.eqb c "["%char then
            match skip_ws s' with
            | c' :: rest =>
                if Ascii.eqb c' "]"%char then Some (Array [], rest)
                else
                  match parse_elements fuel' s' with
                  | Some (items, rest') => Some (Array items, rest')
                  | None => None
                  end
            | [] => None
            end
          else if Ascii.eqb c "{"%char then
            match skip_ws s' with
            | c' :: rest =>
                if Ascii.eqb c' "}"%char then Some (Object [], rest)
                else
                  match parse_members fuel' s' with
                  | Some (members, rest') => Some (Object (JsMap.of_entries members), rest')
                  | None => None
                  end
            | [] => None
            end
          else
            match number_literal (c :: s') with
            | Some (n, rest) => Some (Number n, rest)
            | None => None
            end
      end
  end
with parse_elements (fuel : nat) (s : chars) : option (list value * chars) :=
  match fuel with
  | O => None
  | S fuel' =>
      match parse_value fuel' s with
      | Some (v, rest) =>
          match skip_ws rest with
          | c :: rest' =>
              if Ascii.eqb c ","%char then
                match parse_elements fuel' rest' with
                | Some (vs, rest'') => Some (v :: vs, rest'')
                | None => None
                end
              else if Ascii.eqb c "]"%char then Some ([v], rest')
              else None
          | [] => None
          end
      | None => None
      end
  end
with parse_members (fuel : nat) (s : chars) : option (list (string * value) * chars) :=
  match fuel with
  | O => None
  | S fuel' =>
      match string_literal (skip_ws s) with
      | Some (key, rest) =>
          match skip_ws rest with
          | c :: rest' =>
              if Ascii.eqb c ":"%char then
                match parse_value fuel' rest' with
                | Some (v, rest'') =>
                    match skip_ws rest'' with
                    | c' :: rest''' =>
                        if Ascii.eqb c' ","%char then
                          match parse_members fuel' rest''' with
                          | Some (ms, rest4) => Some ((key, v) :: ms, rest4)
                          | None => None
                          end
                        else if Ascii.eqb c' "}"%char then Some ([(key, v)], rest''')
                        else None
                    | [] => None
                    end
                | None => None
                end
              else None
          | [] => None
          end
      | None => None
      end
  end.

(** [JSON.parse(text)]: one value, and nothing but white space after it.
    [None] stands for the [SyntaxError].  No call chain is longer than the
    text, so [S (length text)] units of fuel never run out on a valid text. *)
Definition parse (data : string) : option value :=
  let s := String.list_ascii_of_string data in
  match parse_value (S (List.length s)) s with
  | Some (v, rest) => match skip_ws rest with [] => Some v | _ :: _ => None end
  | None => None
  end.

(** What may follow a number: nothing that would continue it. *)
Definition ends_number (s : chars) : bool :=
  match s with
  | c :: _ => negb (is_digit c) && negb (more_number s)
  | [] => true
  end.

(** *** The values this model is faithful on *)

(** [Number.isSafeInteger(n)]. *)
Definition safe_integer (n : Z) : bool :=
  (- (2 ^ 53 - 1) <=? n) && (n <=? 2 ^ 53 - 1).

(** Every number in the value is a safe integer. *)
Fixpoint safe_numbers (v : value) : bool :=
  match v with
  | Null | Bool _ | Str _ => true
  | Number n => safe_integer n
  | Array items => forallb safe_numbers items
  | Object properties => forallb (fun p => safe_numbers (snd p)) properties
  end.

Fixpoint distinct (keys : list string) : bool :=
  match keys with
  | [] => true
  | k :: keys' => negb (existsb (String.eqb k) keys') && distinct keys'
  end.

(** A property name that is not an array index (those are enumerated first,
    whatever the creation order). *)
Definition plain_key (k : string) : bool :=
  match k with
  | String c _ => negb (is_digit c)
  | EmptyString => true
  end.

(** The properties of every object in the value have pairwise distinct,
    plain names. *)
Fixpoint plain_objects (v : value) : bool :=
  match v with
  | Null | Bool _ | Number _ | Str _ => true
  | Array items => forallb plain_objects items
  | Object properties =>
      distinct (List.map fst properties) &&
      forallb (fun p => plain_key (fst p) && plain_objects (snd p)) properties
  end.

(** Units of fuel that parsing the text of a value takes at most. *)
Fixpoint cost (v : value) : nat :=
  match v with
  | Null | Bool _ | Number _ | Str _ => 1
  | Array items => S (list_sum (List.map (fun item => S (cost item)) items))
  | Object properties =>
      S (list_sum (List.map (fun p => S (cost (snd p))) properties))
  end.

(** What the round trip of one value says: with enough fuel, and followed by
    anything that does not continue a number, its text parses to it. *)
Definition reads_back (v : value) : Prop :=
  plain_objects v = true ->
  safe_numbers v = true ->
  forall fuel rest,
    (cost v <= fuel)%nat ->
    ends_number rest = true ->
    parse_value fuel (text v ++ rest) = Some (v, rest).

End JSON.

(* ===================================================================== *)
(** ** src/protocol.ts: data model *)
(* ===================================================================== *)

Module Protocol.

(** [USER_COLORS]: the palette. *)
Definition USER_COLORS : list string :=
  [ "#FF6B6B"; "#4ECDC4"; "#45B7D1"; "#96CEB4";
    "#FFEAA7"; "#DDA0DD"; "#98D8C8"; "#F7DC6F";
    "#BB8FCE"; "#85C1E9"; "#F0B27A"; "#82E0AA" ]%string.

(** [CursorPosition]. *)
Record CursorPosition : Type := mkCursorPosition {
  line : Z;
  character : Z;
}.

(** [SelectionRange]. *)
Record SelectionRange : Type := mkSelectionRange {
  startLine : Z;
  startCharacter : Z;
  endLine : Z;
  endCharacter : Z;
}.

(** [UserInfo]; [null] is [None]. *)
Record UserInfo : Type := mkUserInfo {
  userId : string;
  username : string;
  color : string;
  activeFile : option string;
  cursor : option CursorPosition;
  selections : list SelectionRange;
}.

(** [FileInfo]: one manifest entry. *)
Record FileInfo : Type := mkFileInfo {
  path : string;
  hash : string;
  size : Z;
}.

(** [TextChange]; its range fields share their names with [SelectionRange],
    so the record lives in a module of its own. *)
Module TextChange.
Record t : Type := mk {
  rangeOffset : Z;
  rangeLength : Z;
  text : string;
  startLine : Z;
  startCharacter : Z;
  endLine : Z;
  endCharacter : Z;
}.
End TextChange.

(** The ['utf8' | 'base64'] tag of file contents. *)
Inductive Encoding : Type := utf8 | base64.

(** Message interfaces that the modelled functions take as arguments.  Each
    lives in a module of its own, so that [FileContentMessage.path msg] reads
    as [msg.path]; the constant [type] field is the constructor of
    [CollabMessage] below. *)
Module FileManifestMessage.
Record t : Type := mk { files : list FileInfo }.
End FileManifestMessage.

Module FileRequestMessage.
Record t : Type := mk { paths : list string }.
End FileRequestMessage.

Module FileContentMessage.
Record t : Type := mk {
  path : string;
  content : string;
  encoding : Encoding;
}.
End FileContentMessage.

Module DocEditMessage.
Record t : Type := mk {
  path : string;
  changes : list TextChange.t;
  version : Z;
  userId : string;
}.
End DocEditMessage.

(** [CollabMessage]: the tagged union of wire messages, one constructor per
    message interface. *)
Inductive CollabMessage : Type :=
| Join (userId username : string)
| JoinAck (userId color : string) (users : list UserInfo)
| UserJoined (user : UserInfo)
| UserLeft (userId : string)
| UserList (users : list UserInfo)
| Heartbeat
| HeartbeatAck
| FileManifest (msg : FileManifestMessage.t)
| FileManifestRequest
| FileRequest (msg : FileRequestMessage.t)
| FileContent (msg : FileContentMessage.t)
| FileCreate (path content : string) (encoding : Encoding) (userId : string)
| FileDelete (path userId : string)
| FileRename (oldPath newPath userId : string)
| FileSave (path userId : string)
| SyncComplete
| DocEdit (msg : DocEditMessage.t)
| DocFullContent (path content : string) (version : Z)
| CursorUpdate (userId path : string) (cursor : CursorPosition)
               (selections : list SelectionRange)
| ActiveFileChange (userId : string) (path : option string)
| Error (message : string).

(** *** Messages as the objects they are in the running program

    Properties are listed in the order in which the code's object literals
    and interfaces list them; [null] is [JSON.Null]. *)

Definition optional {A : Type} (f : A -> JSON.value) (o : option A) : JSON.value :=
  match o with
  | Some a => f a
  | None => JSON.Null
  end.

Definition CursorPosition_value (c : CursorPosition) : JSON.value :=
  JSON.Object [("line", JSON.Number (line c)); ("character", JSON.Number (character c))]%string.

Definition SelectionRange_value (r : SelectionRange) : JSON.value :=
  JSON.Object [("startLine", JSON.Number (startLine r));
               ("startCharacter", JSON.Number (startCharacter r));
               ("endLine", JSON.Number (endLine r));
               ("endCharacter", JSON.Number (endCharacter r))]%string.

Definition UserInfo_value (u : UserInfo) : JSON.value :=
  JSON.Object [("userId", JSON.Str (userId u));
               ("username", JSON.Str (username u));
               ("color", JSON.Str (color u));
               ("activeFile", optional JSON.Str (activeFile u));
               ("cursor", optional CursorPosition_value (cursor u));
               ("selections", JSON.Array (List.map SelectionRange_value (selections u)))]%string.

Definition FileInfo_value (f : FileInfo) : JSON.value :=
  JSON.Object [("path", JSON.Str (path f)); ("hash", JSON.Str (hash f));
               ("size", JSON.Number (size f))]%string.

Definition TextChange_value (c : TextChange.t) : JSON.value :=
  JSON.Object [("rangeOffset", JSON.Number (TextChange.rangeOffset c));
               ("rangeLength", JSON.Number (TextChange.rangeLength c));
               ("text", JSON.Str (TextChange.text c));
               ("startLine", JSON.Number (TextChange.startLine c));
               ("startCharacter", JSON.Number (TextChange.startCharacter c));
               ("endLine", JSON.Number (TextChange.endLine c));
               ("endCharacter", JSON.Number (TextChange.endCharacter c))]%string.

Definition Encoding_value (e : Encoding) : JSON.value :=
  match e with
  | utf8 => JSON.Str "utf8"
  | base64 => JSON.Str "base64"
  end.

(** The value of the [MessageType] of a message. *)
Definition typeOf (msg : CollabMessage) : string :=
  match msg with
  | Join _ _ => "join"
  | JoinAck _ _ _ => "join_ack"
  | UserJoined _ => "user_joined"
  | UserLeft _ => "user_left"
  | UserList _ => "user_list"
  | Heartbeat => "heartbeat"
  | HeartbeatAck => "heartbeat_ack"
  | FileManifest _ => "file_manifest"
  | FileManifestRequest => "file_manifest_request"
  | FileRequest _ => "file_request"
  | FileContent _ => "file_content"
  | FileCreate _ _ _ _ => "file_create"
  | FileDelete _ _ => "file_delete"
  | FileRename _ _ _ => "file_rename"
  | FileSave _ _ => "file_save"
  | SyncComplete => "sync_complete"
  | DocEdit _ => "doc_edit"
  | DocFullContent _ _ _ => "doc_full_content"
  | CursorUpdate _ _ _ _ => "cursor_update"
  | ActiveFileChange _ _ => "active_file_change"
  | Error _ => "error"
  end.

(** The properties of a message after its [type]. *)
Definition payload (msg : CollabMessage) : list (string * JSON.value) :=
  match msg with
  | Join userId' username' =>
      [("userId", JSON.Str userId'); ("username", JSON.Str username')]
  | JoinAck userId' color' users =>
      [("userId", JSON.Str userId'); ("color", JSON.Str color');
       ("users", JSON.Array (List.map UserInfo_value users))]
  | UserJoined user => [("user", UserInfo_value user)]
  | UserLeft userId' => [("userId", JSON.Str userId')]
  | UserList users => [("users", JSON.Array (List.map UserInfo_value users))]
  | Heartbeat | HeartbeatAck | FileManifestRequest | SyncComplete => []
  | FileManifest m =>
      [("files", JSON.Array (List.map FileInfo_value (FileManifestMessage.files m)))]
  | FileRequest m =>
      [("paths", JSON.Array (List.map JSON.Str (FileRequestMessage.paths m)))]
  | FileContent m =>
      [("path", JSON.Str (FileContentMessage.path m));
       ("content", JSON.Str (FileContentMessage.content m));
       ("encoding", Encoding_value (FileContentMessage.encoding m))]
  | FileCreate path' content encoding userId' =>
      [("path", JSON.Str path'); ("content", JSON.Str content);
       ("encoding", Encoding_value encoding); ("userId", JSON.Str userId')]
  | FileDelete path' userId' =>
      [("path", JSON.Str path'); ("userId", JSON.Str userId')]
  | FileRename oldPath newPath userId' =>
      [("oldPath", JSON.Str oldPath); ("newPath", JSON.Str newPath);
       ("userId", JSON.Str userId')]
  | FileSave path' userId' =>
      [("path", JSON.Str path'); ("userId", JSON.Str userId')]
  | DocEdit m =>
      [("path", JSON.Str (DocEditMessage.path m));
       ("changes", JSON.Array (List.map TextChange_value (DocEditMessage.changes m)));
       ("version", JSON.Number (DocEditMessage.version m));
       ("userId", JSON.Str (DocEditMessage.userId m))]
  | DocFullContent path' content version =>
      [("path", JSON.Str path'); ("content", JSON.Str content);
       ("version", JSON.Number version)]
  | CursorUpdate userId' path' cursor' selections' =>
      [("userId", JSON.Str userId'); ("path", JSON.Str path');
       ("cursor", CursorPosition_value cursor');
       ("selections", JSON.Array (List.map SelectionRange_value selections'))]
  | ActiveFileChange userId' path' =>
      [("userId", JSON.Str userId'); ("path", optional JSON.Str path')]
  | Error message => [("message", JSON.Str message)]
  end%string.

(** The message object: its [type], then its payload. *)
Definition toValue (msg : CollabMessage) : JSON.value :=
  JSON.Object (("type"%string, JSON.Str (typeOf msg)) :: payload msg).

(** A well-formed wire message: every numeric field is a safe integer, the
    JavaScript numbers that [Z] stands for exactly. *)
Definition well_formed (msg : CollabMessage) : Prop :=
  JSON.safe_numbers (toValue msg) = true.

(** [serializeMessage(msg)]. *)
Definition serializeMessage (msg : CollabMessage) : string :=
  JSON.stringify (toValue msg).

(** [deserializeMessage(data)]: the parsed value, cast to [CollabMessage]
    unchecked; [None] is the [null] of the [catch] branch. *)
Definition deserializeMessage (data : string) : option JSON.value :=
  JSON.parse data.

End Protocol.

(* ===================================================================== *)
(** ** src/fileSync.ts *)
(* ===================================================================== *)

Module FileSyncM.
Import Protocol.

(** Result of [compareManifest]. *)
Record ManifestDiff : Type := mkManifestDiff {
  toDownload : list string;
  toDelete : list string;
}.

(** [compareManifest(remoteManifest)].  The local manifest is what
    [generateManifest()] read from the workspace at the time of the call; it
    is passed in as [localManifest]. *)
Definition compareManifest (localManifest remoteManifest : list FileInfo)
  : ManifestDiff :=
  let localMap := JsMap.of_entries (List.map (fun f => (path f, f)) localManifest) in
  let remoteMap := JsMap.of_entries (List.map (fun f => (path f, f)) remoteManifest) in
  let toDownload :=
    fold_left
      (fun acc (e : string * FileInfo) =>
         let (p, remoteFile) := e in
         match JsMap.get p localMap with
         | None => push acc p
         | Some localFile =>
             if negb (String.eqb (hash localFile) (hash remoteFile))
             then push acc p else acc
         end)
      (JsMap.entries remoteMap) [] in
  let toDelete :=
    fold_left
      (fun acc p => if negb (JsMap.has p remoteMap) then push acc p else acc)
      (JsMap.keys localMap) [] in
  {| toDownload := toDownload; toDelete := toDelete |}.

(** [new Map(manifest.map(f => [f.path, f]))]. *)
Definition manifestMap (m : list FileInfo) : JsMap.t FileInfo :=
  JsMap.of_entries (List.map (fun f => (path f, f)) m).

(** The entry a manifest holds for a path: when a path is listed more than
    once, the [Map] built from the manifest keeps the last entry. *)
Definition manifest_entry (p : string) (m : list FileInfo) : option FileInfo :=
  List.find (fun f => String.eqb p (path f)) (rev m).


(** *** The engine's state and its surroundings *)

(** A closure handed to the engine by its caller (the [onComplete] argument of
    [startInitialSync]); only its identity matters here. *)
Definition Callback : Type := nat.

(** What [safeWriteFile] is given: a string, or [Buffer.from(content, 'base64')]. *)
Inductive FileData : Type :=
| TextData (content : string)
| Base64Buffer (content : string).

(** Calls into [fs.promises] that change the file tree. *)
Inductive FsCall : Type :=
| Mkdir (dir : string)
| WriteFile (absolutePath : string) (data : FileData)
| Unlink (absolutePath : string)
| Rename (oldAbsolute newAbsolute : string).

(** What the engine does to its collaborators, in program order.  A
    file-system call is recorded together with the suppression set at the
    moment the call is issued. *)
Inductive Effect : Type :=
| Fs (call : FsCall) (suppressedThen : gset string)
| RequestFiles (msg : FileRequestMessage.t)
| OnComplete (cb : Callback)
| WithProgress (total : nat).

(** The fields of [FileSync]. *)
Record FileSync : Type := mkFileSync {
  workspaceRoot : string;
  suppressedPaths : gset string;
  pendingFiles : gset string;
  syncCompleteCallback : option Callback;
}.

(** The engine inside its event loop: the clock in milliseconds, the pending
    [setTimeout] callbacks of [suppressPath] (due time and the path whose
    suppression the callback removes), and the effects so far. *)
Record World : Type := mkWorld {
  self : FileSync;
  clock : Z;
  timers : list (Z * string);
  effects : list Effect;
}.

Definition set_suppressedPaths (s : gset string) (w : World) : World :=
  {| self := {| workspaceRoot := workspaceRoot (self w);
                suppressedPaths := s;
                pendingFiles := pendingFiles (self w);
                syncCompleteCallback := syncCompleteCallback (self w) |};
     clock := clock w; timers := timers w; effects := effects w |}.

Definition set_pendingFiles (s : gset string) (w : World) : World :=
  {| self := {| workspaceRoot := workspaceRoot (self w);
                suppressedPaths := suppressedPaths (self w);
                pendingFiles := s;
                syncCompleteCallback := syncCompleteCallback (self w) |};
     clock := clock w; timers := timers w; effects := effects w |}.

Definition set_syncCompleteCallback (cb : option Callback) (w : World) : World :=
  {| self := {| workspaceRoot := workspaceRoot (self w);
                suppressedPaths := suppressedPaths (self w);
                pendingFiles := pendingFiles (self w);
                syncCompleteCallback := cb |};
     clock := clock w; timers := timers w; effects := effects w |}.

Definition set_clock (t : Z) (w : World) : World :=
  {| self := self w; clock := t; timers := timers w; effects := effects w |}.

Definition set_timers (ts : list (Z * string)) (w : World) : World :=
  {| self := self w; clock := clock w; timers := ts; effects := effects w |}.

(** Record one effect. *)
Definition emit (e : Effect) (w : World) : World :=
  {| self := self w; clock := clock w; timers := timers w;
     effects := push (effects w) e |}.

(** [new FileSync(workspaceRoot)] at time [t0]. *)
Definition newFileSync (root : string) (t0 : Z) : World :=
  {| self := {| workspaceRoot := root; suppressedPaths := ∅;
                pendingFiles := ∅; syncCompleteCallback := None |};
     clock := t0; timers := []; effects := [] |}.

(** *** Suppression *)

(** [isSuppressed(relativePath)]. *)
Definition isSuppressed (relativePath : string) (w : World) : bool :=
  bool_decide (relativePath ∈ suppressedPaths (self w)).

(** [setTimeout(callback, delay)] for the callback of [suppressPath]. *)
Definition setTimeout (relativePath : string) (delay : Z) (w : World) : World :=
  set_timers (push (timers w) (clock w + delay, relativePath)) w.

(** [suppressPath(relativePath)]. *)
Definition suppressPath (relativePath : string) (w : World) : World :=
  let w := set_suppressedPaths ({[relativePath]} ∪ suppressedPaths (self w)) w in
  setTimeout relativePath 3000 w.

(** The timer callback of [suppressPath]: [suppressedPaths.delete(relativePath)]. *)
Definition fire (w : World) (timer : Z * string) : World :=
  set_suppressedPaths (suppressedPaths (self w) ∖ {[snd timer]}) w.

(** The event loop lets the clock reach [t]: every timer due by then runs
    (the callbacks only delete from a set, so their order is immaterial) and
    leaves the timer list. *)
Definition advance (t : Z) (w : World) : World :=
  let due := List.filter (fun timer => fst timer <=? t) (timers w) in
  let later := List.filter (fun timer => negb (fst timer <=? t)) (timers w) in
  set_clock (Z.max (clock w) t) (set_timers later (fold_left fire due w)).

(** *** File operations *)

Section Node.
(** Node's [path.join] and [path.dirname], and the time the file system takes
    to settle a call (an [await] on the call lets the event loop run for that
    long). *)
Variable path_join : string -> string -> string.
Variable path_dirname : string -> string.
Variable fs_latency : FsCall -> Z.

(** [toAbsolutePath(relativePath, workspaceRoot)] (utils). *)
Definition toAbsolutePath (relativePath workspaceRoot : string) : string :=
  path_join workspaceRoot relativePath.

(** [await fs.promises.<call>(...)]: the call is issued now, the caller
    resumes once it has settled. *)
Definition await_fs (call : FsCall) (w : World) : World :=
  let w := emit (Fs call (suppressedPaths (self w))) w in
  advance (clock w + fs_latency call) w.

(** [ensureDir(dirPath)] (utils); a failing [mkdir] is swallowed. *)
Definition ensureDir (dirPath : string) (w : World) : World :=
  await_fs (Mkdir dirPath) w.

(** [safeWriteFile(filePath, content)] (utils). *)
Definition safeWriteFile (filePath : string) (content : FileData) (w : World) : World :=
  let w := ensureDir (path_dirname filePath) w in
  await_fs (WriteFile filePath content) w.

(** [safeDeleteFile(filePath)] (utils); a failing [unlink] is swallowed. *)
Definition safeDeleteFile (filePath : string) (w : World) : World :=
  await_fs (Unlink filePath) w.

(** The two branches on [encoding] that choose what is written. *)
Definition fileData (content : string) (encoding : Encoding) : FileData :=
  match encoding with
  | base64 => Base64Buffer content
  | utf8 => TextData content
  end.

(** [writeReceivedFile(msg)].  [writeOk] says whether [fs.promises.writeFile]
    resolved; when it rejects, [safeWriteFile] rethrows and the rest of the
    function does not run. *)
Definition writeReceivedFile (msg : FileContentMessage.t) (writeOk : bool)
           (w : World) : World :=
  let absolutePath :=
    toAbsolutePath (FileContentMessage.path msg) (workspaceRoot (self w)) in
  let w := suppressPath (FileContentMessage.path msg) w in
  let w := safeWriteFile absolutePath
             (fileData (FileContentMessage.content msg)
                       (FileContentMessage.encoding msg)) w in
  if writeOk then
    let w := set_pendingFiles
               (pendingFiles (self w) ∖ {[FileContentMessage.path msg]}) w in
    if Nat.eqb (base.size (pendingFiles (self w))) 0 then
      match syncCompleteCallback (self w) with
      | Some cb => set_syncCompleteCallback None (emit (OnComplete cb) w)
      | None => w
      end
    else w
  else w.

(** [createFile(relativePath, content, encoding)]. *)
Definition createFile (relativePath content : string) (encoding : Encoding)
           (w : World) : World :=
  let absolutePath := toAbsolutePath relativePath (workspaceRoot (self w)) in
  let w := suppressPath relativePath w in
  safeWriteFile absolutePath (fileData content encoding) w.

(** [deleteFile(relativePath)]. *)
Definition deleteFile (relativePath : string) (w : World) : World :=
  let absolutePath := toAbsolutePath relativePath (workspaceRoot (self w)) in
  let w := suppressPath relativePath w in
  safeDeleteFile absolutePath w.

(** [renameFile(oldPath, newPath)].  [mkdirOk] says whether [mkdir] resolved;
    when it rejects, the [catch] block is entered and [rename] is not called. *)
Definition renameFile (oldPath newPath : string) (mkdirOk : bool)
           (w : World) : World :=
  let oldAbsolute := toAbsolutePath oldPath (workspaceRoot (self w)) in
  let newAbsolute := toAbsolutePath newPath (workspaceRoot (self w)) in
  let w := suppressPath oldPath w in
  let w := suppressPath newPath w in
  let dir := path_dirname newAbsolute in
  let w := await_fs (Mkdir dir) w in
  if mkdirOk then await_fs (Rename oldAbsolute newAbsolute) w else w.

(** The request loop of [startInitialSync]:
    [for (let i = 0; i < toDownload.length; i += batchSize)], each round
    sending [toDownload.slice(i, i + batchSize)].  [fuel] bounds the number of
    loop tests. *)
Fixpoint requestLoop (fuel : nat) (toDownload : list string) (batchSize i : nat)
         (w : World) : World :=
  match fuel with
  | O => w
  | S fuel' =>
      if (i <? List.length toDownload)%nat then
        let batch := slice toDownload i (i + batchSize) in
        requestLoop fuel' toDownload batchSize (i + batchSize)
                    (emit (RequestFiles {| FileRequestMessage.paths := batch |}) w)
      else w
  end.

(** [startInitialSync(manifest, requestFiles, onComplete)].  [localManifest]
    is what [generateManifest()] returns inside [compareManifest]; a call of
    [requestFiles] is the effect [RequestFiles].  The loop needs one test per
    batch and a last one, so [S (length toDownload)] tests are enough. *)
Definition startInitialSync (localManifest : list FileInfo)
           (manifest : FileManifestMessage.t) (onComplete : Callback)
           (w : World) : World :=
  let d := compareManifest localManifest (FileManifestMessage.files manifest) in
  let w := fold_left (fun w filePath => deleteFile filePath w) (toDelete d) w in
  if Nat.eqb (List.length (toDownload d)) 0 then emit (OnComplete onComplete) w
  else
    let w := set_pendingFiles (list_to_set (toDownload d)) w in
    let w := set_syncCompleteCallback (Some onComplete) w in
    let batchSize := 10%nat in
    let w := requestLoop (S (List.length (toDownload d))) (toDownload d) batchSize 0 w in
    emit (WithProgress (List.length (toDownload d))) w.

End Node.


(** Between [before] and [after] at least one file-system call was issued, and
    when the first of them was issued every path of [paths] was suppressed. *)
Definition mutation_begins_suppressed (paths : list string)
           (before after : World) : Prop :=
  exists call suppressedThen rest,
    effects after = effects before ++ Fs call suppressedThen :: rest /\
    Forall (fun p => p ∈ suppressedThen) paths.



(** No timer of [w] would remove the suppression of [p]. *)
Definition no_timer_for (p : string) (w : World) : Prop :=
  Forall (fun timer => snd timer <> p) (timers w).

(** The completion callbacks invoked in a run of effects, in order. *)
Definition completions (es : list Effect) : list Callback :=
  flat_map (fun e => match e with OnComplete cb => [cb] | _ => [] end) es.

(** [e] is the [unlink] of [relativePath], issued while it was suppressed. *)
Definition deletes (path_join : string -> string -> string) (root : string)
           (relativePath : string) (e : Effect) : Prop :=
  exists suppressedThen,
    e = Fs (Unlink (toAbsolutePath path_join relativePath root)) suppressedThen /\
    relativePath ∈ suppressedThen.

(** The [fileContent] handler run on each arriving message in turn; every
    message comes with the outcome of its write. *)
Definition receiveAll (path_join : string -> string -> string)
           (path_dirname : string -> string) (fs_latency : FsCall -> Z)
           (received : list (FileContentMessage.t * bool)) (w : World) : World :=
  fold_left
    (fun w r => writeReceivedFile path_join path_dirname fs_latency (fst r) (snd r) w)
    received w.

(** The paths among [received] whose write succeeded. *)
Definition written (received : list (FileContentMessage.t * bool)) : gset string :=
  list_to_set
    (List.map (fun r => FileContentMessage.path (fst r)) (List.filter snd received)).


(** The state of a sync whose completion callback is [cb], seen from the
    effects [es0] present when the requests had been sent. *)
Inductive sync_state (cb : Callback) (es0 : list Effect) (w : World) : Prop :=
| Waiting later :
    syncCompleteCallback (self w) = Some cb ->
    pendingFiles (self w) <> ∅ ->
    effects w = es0 ++ later ->
    completions later = [] ->
    sync_state cb es0 w
| Completed later :
    syncCompleteCallback (self w) = None ->
    pendingFiles (self w) = ∅ ->
    effects w = es0 ++ later ->
    completions later = [cb] ->
    sync_state cb es0 w.


End FileSyncM.


(* ===================================================================== *)
(** ** src/documentSync.ts *)
(* ===================================================================== *)

Module DocumentSyncM.
Import Protocol.

(** A [vscode.Range] built from two [vscode.Position]s. *)
Record Range : Type := mkRange {
  range_startLine : Z;
  range_startCharacter : Z;
  range_endLine : Z;
  range_endCharacter : Z;
}.

(** The fields of [DocumentSync] that the synchroniser reads and writes. *)
Record DocumentSync : Type := mkDocumentSync {
  workspaceRoot : string;
  documentVersions : gmap string Z;
  applyingRemoteEdit : bool;
  userId : string;
}.

Section Editor.
(** The editing surface is a collaborator: [Editor] is the state of its text
    buffers, [openTextDocument] finds or opens a document ([None]: the promise
    rejects), [applyEdit] applies the replacements of a [WorkspaceEdit] to the
    document ([None]: the call throws).  Both return promises:
    [open_latency] and [edit_latency] are the times they take to settle (an
    [await] on them lets the event loop run for that long). *)
Variable Editor : Type.
Variable path_join : string -> string -> string.
Variable openTextDocument : Editor -> string -> option Editor.
Variable applyEdit : Editor -> string -> list (Range * string) -> option Editor.
Variable open_latency : string -> Z.
Variable edit_latency : string -> list (Range * string) -> Z.

(** The synchroniser in its surroundings: the editor's buffers, the clock in
    milliseconds and the due times of the pending [setTimeout] callbacks that
    reset [applyingRemoteEdit]. *)
Record World : Type := mkWorld {
  self : DocumentSync;
  editor : Editor;
  clock : Z;
  timers : list Z;
}.

Definition set_applyingRemoteEdit (b : bool) (w : World) : World :=
  {| self := {| workspaceRoot := workspaceRoot (self w);
                documentVersions := documentVersions (self w);
                applyingRemoteEdit := b;
                userId := userId (self w) |};
     editor := editor w; clock := clock w; timers := timers w |}.

Definition set_documentVersions (m : gmap string Z) (w : World) : World :=
  {| self := {| workspaceRoot := workspaceRoot (self w);
                documentVersions := m;
                applyingRemoteEdit := applyingRemoteEdit (self w);
                userId := userId (self w) |};
     editor := editor w; clock := clock w; timers := timers w |}.

Definition set_editor (e : Editor) (w : World) : World :=
  {| self := self w; editor := e; clock := clock w; timers := timers w |}.

(** [setTimeout(() => { this.applyingRemoteEdit = false; }, delay)]. *)
Definition setTimeout (delay : Z) (w : World) : World :=
  {| self := self w; editor := editor w; clock := clock w;
     timers := push (timers w) (clock w + delay) |}.

(** The event loop lets the clock reach [t]: every timer due by then runs
    [this.applyingRemoteEdit = false] and leaves the timer list. *)
Definition advance (t : Z) (w : World) : World :=
  let due := List.filter (fun d => d <=? t) (timers w) in
  let later := List.filter (fun d => negb (d <=? t)) (timers w) in
  let w := match due with
           | [] => w
           | _ :: _ => set_applyingRemoteEdit false w
           end in
  {| self := self w; editor := editor w; clock := Z.max (clock w) t; timers := later |}.

(** [await] on a promise of the editor that settles after [latency]
    milliseconds: the caller resumes then. *)
Definition await (latency : Z) (w : World) : World :=
  advance (clock w + latency) w.

(** [applyRemoteEdit(msg)].  The flag is raised once the document has opened;
    the timer that lowers it is set in the [finally] block, once [applyEdit]
    has settled. *)
Definition applyRemoteEdit (msg : DocEditMessage.t) (w : World) : World :=
  if String.eqb (DocEditMessage.userId msg) (userId (self w)) then w
  else
    let absolutePath := path_join (workspaceRoot (self w)) (DocEditMessage.path msg) in
    let opening := openTextDocument (editor w) absolutePath in
    let w := await (open_latency absolutePath) w in
    match opening with
    | None => w
    | Some opened =>
        let w := set_editor opened w in
        let w := set_applyingRemoteEdit true w in
        let edit :=
          List.map
            (fun change =>
               (mkRange (TextChange.startLine change) (TextChange.startCharacter change)
                        (TextChange.endLine change) (TextChange.endCharacter change),
                TextChange.text change))
            (DocEditMessage.changes msg) in
        let applying := applyEdit (editor w) absolutePath edit in
        let w := await (edit_latency absolutePath edit) w in
        let w :=
          match applying with
          | Some edited =>
              let w := set_editor edited w in
              set_documentVersions
                (<[DocEditMessage.path msg := DocEditMessage.version msg]>
                   (documentVersions (self w))) w
          | None => w
          end in
        setTimeout 50 w
    end.

(** [getVersion(relativePath)]. *)
Definition getVersion (relativePath : string) (w : World) : Z :=
  match documentVersions (self w) !! relativePath with
  | Some v => v
  | None => 0
  end.

End Editor.

Arguments self {Editor} _.
Arguments editor {Editor} _.
Arguments clock {Editor} _.
Arguments timers {Editor} _.
Arguments advance {Editor} _ _.
Arguments await {Editor} _ _.

End DocumentSyncM.

(* ===================================================================== *)
(** ** src/client.ts: the reconnect policy of [CollabClient] *)
(* ===================================================================== *)

Module Client.

(** What the client does to its surroundings. *)
Inductive Effect : Type :=
| NewWebSocket                    (* [connect()] creates a socket *)
| SendJoin                        (* [this.send({type: Join, ...})] *)
| StartHeartbeat
| StopHeartbeat
| EmitDisconnected
| SetReconnectTimeout (delay : Z) (* [setTimeout(..., delay)] in [scheduleReconnect] *)
| ClearReconnectTimeout
| CloseWebSocket.

(** The fields of [CollabClient] that the connection life cycle touches. *)
Record CollabClient : Type := mkCollabClient {
  ws : bool;               (* [ws !== null] *)
  connected : bool;
  shouldReconnect : bool;
  reconnectAttempts : Z;
  reconnectTimer : bool;   (* [reconnectTimer !== null] *)
  effects : list Effect;
}.

(** [private maxReconnectAttempts: number = 10]; never assigned again. *)
Definition maxReconnectAttempts : Z := 10.

(** [new CollabClient(url, username)]. *)
Definition newCollabClient : CollabClient :=
  {| ws := false; connected := false; shouldReconnect := true; reconnectAttempts := 0;
     reconnectTimer := false; effects := [] |}.

Definition emit (e : Effect) (c : CollabClient) : CollabClient :=
  {| ws := ws c; connected := connected c; shouldReconnect := shouldReconnect c;
     reconnectAttempts := reconnectAttempts c; reconnectTimer := reconnectTimer c;
     effects := push (effects c) e |}.

(** [connect()]: a new socket is created and the handlers below are attached. *)
Definition connect (c : CollabClient) : CollabClient :=
  emit NewWebSocket
       {| ws := true; connected := connected c; shouldReconnect := shouldReconnect c;
          reconnectAttempts := reconnectAttempts c; reconnectTimer := reconnectTimer c;
          effects := effects c |}.

(** The ['open'] handler. *)
Definition on_open (c : CollabClient) : CollabClient :=
  let c := {| ws := ws c; connected := true; shouldReconnect := shouldReconnect c;
              reconnectAttempts := 0; reconnectTimer := reconnectTimer c;
              effects := effects c |} in
  emit StartHeartbeat (emit SendJoin c).

(** [scheduleReconnect()]. *)
Definition scheduleReconnect (c : CollabClient) : CollabClient :=
  let attempts := reconnectAttempts c + 1 in
  let delay := Z.min (1000 * 2 ^ attempts) 30000 in
  emit (SetReconnectTimeout delay)
       {| ws := ws c; connected := connected c; shouldReconnect := shouldReconnect c;
          reconnectAttempts := attempts; reconnectTimer := true;
          effects := effects c |}.

(** The ['close'] handler. *)
Definition on_close (c : CollabClient) : CollabClient :=
  let c := {| ws := ws c; connected := false; shouldReconnect := shouldReconnect c;
              reconnectAttempts := reconnectAttempts c;
              reconnectTimer := reconnectTimer c; effects := effects c |} in
  let c := emit EmitDisconnected (emit StopHeartbeat c) in
  if shouldReconnect c && (reconnectAttempts c <? maxReconnectAttempts)
  then scheduleReconnect c
  else c.

(** The callback of the reconnect timer: [await this.connect()]. *)
Definition on_reconnect_timer (c : CollabClient) : CollabClient := connect c.

(** [disconnect()]. *)
Definition disconnect (c : CollabClient) : CollabClient :=
  let c := if reconnectTimer c then emit ClearReconnectTimeout c else c in
  let c := emit StopHeartbeat c in
  let c := if ws c then emit CloseWebSocket c else c in
  emit EmitDisconnected
       {| ws := false; connected := false; shouldReconnect := false;
          reconnectAttempts := reconnectAttempts c; reconnectTimer := false;
          effects := effects c |}.

(** What can happen to a client. *)
Inductive Event : Type :=
| Open            (* the socket opened *)
| Close           (* the socket closed, or the attempt failed *)
| ReconnectTimer  (* the reconnect timer fired *)
| Disconnect.     (* the user disconnected *)

Definition step (c : CollabClient) (e : Event) : CollabClient :=
  match e with
  | Open => on_open c
  | Close => on_close c
  | ReconnectTimer => on_reconnect_timer c
  | Disconnect => disconnect c
  end.

Definition run (events : list Event) (c : CollabClient) : CollabClient :=
  fold_left step events c.

(** The delays of the reconnect timers set in a run of effects, in order. *)
Definition reconnectDelays (es : list Effect) : list Z :=
  flat_map (fun e => match e with SetReconnectTimeout d => [d] | _ => [] end) es.

End Client.


(* ===================================================================== *)
(** ** src/server.ts: the host *)
(* ===================================================================== *)

Module Server.
Import Protocol.

(** A [WebSocket] object, by identity, and its [readyState]. *)
Definition WebSocket : Type := nat.

Inductive ReadyState : Type := CONNECTING | OPEN | CLOSING | CLOSED.

Definition isOpen (s : ReadyState) : bool :=
  match s with OPEN => true | _ => false end.

(** [ClientConnection]. *)
Record ClientConnection : Type := mkClientConnection {
  ws : WebSocket;
  user : UserInfo;
  isAlive : bool;
}.

(** What the server's [emit] hands to the host's listeners. *)
Inductive HostEvent : Type :=
| userJoined (user : UserInfo)
| userLeft (user : UserInfo)
| usersChanged (users : list UserInfo)
| forwarded (name : string) (msg : CollabMessage)
| fileManifestRequest (clientId : string)
| fileRequest (clientId : string) (paths : list string).

(** What the server does to its surroundings, in program order. *)
Inductive Effect : Type :=
| Send (socket : WebSocket) (msg : CollabMessage)  (* [ws.send(serializeMessage(msg))] *)
| Ping (socket : WebSocket)
| Terminate (socket : WebSocket)
| Emit (event : HostEvent).

(** The fields of [CollabServer] behind the registry. *)
Record CollabServer : Type := mkCollabServer {
  clients : JsMap.t ClientConnection;
  colorIndex : nat;
  hostUser : UserInfo;
}.

(** The server among its sockets: the [readyState] of every socket, the
    [clientId] variable in the closure of every connection's handlers, and the
    effects so far. *)
Record World : Type := mkWorld {
  self : CollabServer;
  readyState : WebSocket -> ReadyState;
  clientIdOf : WebSocket -> option string;
  effects : list Effect;
}.

Definition set_clients (m : JsMap.t ClientConnection) (w : World) : World :=
  {| self := {| clients := m; colorIndex := colorIndex (self w);
                hostUser := hostUser (self w) |};
     readyState := readyState w; clientIdOf := clientIdOf w; effects := effects w |}.

Definition set_colorIndex (i : nat) (w : World) : World :=
  {| self := {| clients := clients (self w); colorIndex := i;
                hostUser := hostUser (self w) |};
     readyState := readyState w; clientIdOf := clientIdOf w; effects := effects w |}.

Definition set_readyState (socket : WebSocket) (s : ReadyState) (w : World) : World :=
  {| self := self w;
     readyState := fun socket' => if Nat.eqb socket' socket then s else readyState w socket';
     clientIdOf := clientIdOf w; effects := effects w |}.

Definition set_clientId (socket : WebSocket) (clientId : option string) (w : World)
  : World :=
  {| self := self w; readyState := readyState w;
     clientIdOf := fun socket' =>
                     if Nat.eqb socket' socket then clientId else clientIdOf w socket';
     effects := effects w |}.

Definition emit (e : Effect) (w : World) : World :=
  {| self := self w; readyState := readyState w; clientIdOf := clientIdOf w;
     effects := push (effects w) e |}.

(** [new CollabServer(port, username)], the host's id being [hostId]; no
    socket has connected yet. *)
Definition newCollabServer (hostId username : string) : World :=
  {| self := {| clients := JsMap.empty;
                colorIndex := 1;
                hostUser := {| userId := hostId; username := username;
                               color := nth 0 USER_COLORS ""%string;
                               activeFile := None; cursor := None;
                               selections := [] |} |};
     readyState := fun _ => CONNECTING;
     clientIdOf := fun _ => None;
     effects := [] |}.

(** [getAllUsers()]. *)
Definition getAllUsers (w : World) : list UserInfo :=
  fold_left (fun users client => push users (user client))
            (JsMap.values (clients (self w))) [hostUser (self w)].

(** [sendTo(userId, msg)]. *)
Definition sendTo (userId : string) (msg : CollabMessage) (w : World) : World :=
  match JsMap.get userId (clients (self w)) with
  | Some client =>
      if isOpen (readyState w (ws client)) then emit (Send (ws client) msg) w else w
  | None => w
  end.

(** [broadcast(msg)]. *)
Definition broadcast (msg : CollabMessage) (w : World) : World :=
  fold_left
    (fun w client =>
       if isOpen (readyState w (ws client)) then emit (Send (ws client) msg) w else w)
    (JsMap.values (clients (self w))) w.

(** [broadcastExcept(excludeUserId, msg)]. *)
Definition broadcastExcept (excludeUserId : string) (msg : CollabMessage) (w : World)
  : World :=
  fold_left
    (fun w (entry : string * ClientConnection) =>
       let (userId, client) := entry in
       if negb (String.eqb userId excludeUserId) && isOpen (readyState w (ws client))
       then emit (Send (ws client) msg) w else w)
    (JsMap.entries (clients (self w))) w.

(** [removeClient(clientId)]. *)
Definition removeClient (clientId : string) (w : World) : World :=
  match JsMap.get clientId (clients (self w)) with
  | Some client =>
      let w := set_clients (JsMap.delete clientId (clients (self w))) w in
      let w := broadcast (UserLeft clientId) w in
      let w := emit (Emit (userLeft (user client))) w in
      emit (Emit (usersChanged (getAllUsers w))) w
  | None => w
  end.

(** In-place updates of the [user] of a registered client. *)
Definition update_user (f : UserInfo -> UserInfo) (clientId : string) (w : World) : World :=
  match JsMap.get clientId (clients (self w)) with
  | Some client =>
      set_clients
        (JsMap.set clientId
           {| ws := ws client; user := f (user client); isAlive := isAlive client |}
           (clients (self w))) w
  | None => w
  end.

Definition set_isAlive (b : bool) (clientId : string) (w : World) : World :=
  match JsMap.get clientId (clients (self w)) with
  | Some client =>
      set_clients
        (JsMap.set clientId {| ws := ws client; user := user client; isAlive := b |}
                   (clients (self w))) w
  | None => w
  end.

(** The value of [clientId] as a condition: [null] and the empty string are
    falsy; otherwise the variable holds the string that is returned. *)
Definition truthy (clientId : option string) : option string :=
  match clientId with
  | Some s => if String.eqb s "" then None else Some s
  | None => None
  end.

(** [handleClientMessage(clientId, msg)]. *)
Definition handleClientMessage (clientId : option string) (msg : CollabMessage)
           (w : World) : World :=
  match truthy clientId with
  | None => w
  | Some clientId =>
      match msg with
      | CursorUpdate _ _ cursor' selections' =>
          let w :=
            update_user
              (fun u => {| userId := userId u; username := username u; color := color u;
                           activeFile := activeFile u; cursor := Some cursor';
                           selections := selections' |}) clientId w in
          let w := broadcastExcept clientId msg w in
          emit (Emit (forwarded "cursorUpdate" msg)) w
      | ActiveFileChange _ path' =>
          let w :=
            update_user
              (fun u => {| userId := userId u; username := username u; color := color u;
                           activeFile := path'; cursor := cursor u;
                           selections := selections u |}) clientId w in
          let w := broadcastExcept clientId msg w in
          let w := emit (Emit (forwarded "activeFileChange" msg)) w in
          emit (Emit (usersChanged (getAllUsers w))) w
      | DocEdit _ =>
          emit (Emit (forwarded "docEdit" msg)) (broadcastExcept clientId msg w)
      | FileCreate _ _ _ _ =>
          emit (Emit (forwarded "fileCreate" msg)) (broadcastExcept clientId msg w)
      | FileDelete _ _ =>
          emit (Emit (forwarded "fileDelete" msg)) (broadcastExcept clientId msg w)
      | FileRename _ _ _ =>
          emit (Emit (forwarded "fileRename" msg)) (broadcastExcept clientId msg w)
      | FileSave _ _ =>
          emit (Emit (forwarded "fileSave" msg)) (broadcastExcept clientId msg w)
      | FileManifestRequest => emit (Emit (fileManifestRequest clientId)) w
      | FileRequest request =>
          emit (Emit (fileRequest clientId (FileRequestMessage.paths request))) w
      | _ => broadcastExcept clientId msg w
      end
  end.

(** The ['message'] handler of [handleConnection(ws)], on the message that
    [deserializeMessage] returned for the frame. *)
Definition on_message (socket : WebSocket) (msg : CollabMessage) (w : World) : World :=
  match msg with
  | Join userId' username' =>
      let color' :=
        nth (colorIndex (self w) mod List.length USER_COLORS) USER_COLORS ""%string in
      let w := set_colorIndex (S (colorIndex (self w))) w in
      let user' := {| userId := userId'; username := username'; color := color';
                      activeFile := None; cursor := None; selections := [] |} in
      let w := set_clientId socket (Some userId') w in
      let w := set_clients
                 (JsMap.set userId' {| ws := socket; user := user'; isAlive := true |}
                            (clients (self w))) w in
      let w := sendTo userId' (JoinAck userId' color' (getAllUsers w)) w in
      let w := broadcastExcept userId' (UserJoined user') w in
      let w := emit (Emit (userJoined user')) w in
      emit (Emit (usersChanged (getAllUsers w))) w
  | Heartbeat =>
      match truthy (clientIdOf w socket) with
      | Some clientId =>
          if JsMap.has clientId (clients (self w)) then
            sendTo clientId HeartbeatAck (set_isAlive true clientId w)
          else w
      | None => w
      end
  | _ => handleClientMessage (clientIdOf w socket) msg w
  end.

(** [handleConnection(ws)] for a socket the server accepted: the socket is
    open and its handlers start with [clientId = null]. *)
Definition on_connection (socket : WebSocket) (w : World) : World :=
  set_clientId socket None (set_readyState socket OPEN w).

(** The ['close'] handler; the socket is [CLOSED] when it runs. *)
Definition on_close (socket : WebSocket) (w : World) : World :=
  let w := set_readyState socket CLOSED w in
  match truthy (clientIdOf w socket) with
  | Some clientId => removeClient clientId w
  | None => w
  end.

(** The ['error'] handler. *)
Definition on_error (socket : WebSocket) (w : World) : World :=
  match truthy (clientIdOf w socket) with
  | Some clientId => removeClient clientId w
  | None => w
  end.

(** [ws.terminate()]: a socket that is not closed yet is closing from now on
    (the sockets of registered clients are never [CONNECTING]). *)
Definition terminate (socket : WebSocket) (w : World) : World :=
  let w := emit (Terminate socket) w in
  match readyState w socket with
  | CLOSED => w
  | _ => set_readyState socket CLOSING w
  end.

(** One round of the loop in the heartbeat interval, for the entry of
    [userId].  The loop runs over the live [Map]: an entry deleted before its
    turn is not visited. *)
Definition sweep_step (w : World) (userId : string) : World :=
  match JsMap.get userId (clients (self w)) with
  | Some client =>
      if negb (isAlive client) then
        removeClient userId (terminate (ws client) w)
      else
        let w := set_isAlive false userId w in
        if isOpen (readyState w (ws client)) then emit (Ping (ws client)) w else w
  | None => w
  end.

(** The callback of [setInterval(..., 30000)] in [startHeartbeat]. *)
Definition sweep (w : World) : World :=
  fold_left sweep_step (JsMap.keys (clients (self w))) w.

(** What can happen to the host. *)
Inductive Event : Type :=
| Message (socket : WebSocket) (msg : CollabMessage)
| Connection (socket : WebSocket)
| SocketClose (socket : WebSocket)
| SocketError (socket : WebSocket)
| Sweep.

Definition step (w : World) (e : Event) : World :=
  match e with
  | Message socket msg => on_message socket msg w
  | Connection socket => on_connection socket w
  | SocketClose socket => on_close socket w
  | SocketError socket => on_error socket w
  | Sweep => sweep w
  end.

Definition run (events : list Event) (w : World) : World := fold_left step events w.


(** How many times a [UserLeft] for [userId] was sent on [socket]. *)
Definition userLeftSent (socket : WebSocket) (userId : string) (es : list Effect) : nat :=
  List.length
    (List.filter
       (fun e => match e with
                 | Send s (UserLeft u) => Nat.eqb s socket && String.eqb u userId
                 | _ => false
                 end) es).



(** The registry is a [Map]: no key occurs twice. *)
Definition registry_wf (w : World) : Prop := NoDup (JsMap.keys (clients (self w))).

(** No two registered clients share a socket. *)
Definition sockets_distinct (w : World) : Prop :=
  NoDup (List.map ws (JsMap.values (clients (self w)))).


(** The number of [Join] messages among the events. *)
Definition joins (events : list Event) : nat :=
  List.length
    (List.filter (fun e => match e with Message _ (Join _ _) => true | _ => false end)
                 events).

(** A host that two clients have joined, one on socket 1 and one on socket 2. *)
Definition two_clients : World :=
  run [Connection 1%nat; Message 1%nat (Join "a" "Ann");
       Connection 2%nat; Message 2%nat (Join "b" "Bob")]
      (newCollabServer "host" "Hana").

End Server.

(* ===================================================================== *)
(** ** src/utils.ts: ignore patterns, binary detection, rate limiters *)
(* ===================================================================== *)

Module Utils.

(** [IGNORE_PATTERNS]. *)
Definition IGNORE_PATTERNS : list string :=
  ["node_modules"; ".git"; ".vscode"; ".DS_Store"; "out"; "dist"; ".collab-edit";
   "__pycache__"; ".pytest_cache"; "*.pyc"; "thumbs.db"]%string.

(** The separators of the regular expression [/[/\\]/]: slash and backslash. *)
Definition is_separator (c : ascii) : bool :=
  Ascii.eqb c "/"%char || Ascii.eqb c "092"%char.

(** [s.split(/[/\\]/)]: the parts between separators, empty parts included;
    the empty string gives one empty part. *)
Fixpoint split (s : string) : list string :=
  match s with
  | EmptyString => [EmptyString]
  | String c s' =>
      if is_separator c then EmptyString :: split s'
      else match split s' with
           | part :: parts => String c part :: parts
           | [] => [String c EmptyString]
           end
  end.

(** [s.startsWith(prefix)]. *)
Definition startsWith (s prefix : string) : bool := String.prefix prefix s.

(** [s.slice(n)] for [0 <= n]. *)
Definition slice_from (n : nat) (s : string) : string :=
  String.substring n (String.length s - n) s.

(** [s.endsWith(suffix)]. *)
Definition endsWith (s suffix : string) : bool :=
  (String.length suffix <=? String.length s)%nat &&
  String.eqb (slice_from (String.length s - String.length suffix) s) suffix.

(** The body of the inner loop of [shouldIgnore]: does [part] match [pattern]? *)
Definition matches (part pattern : string) : bool :=
  if startsWith pattern "*" then
    let ext := slice_from 1 pattern in
    endsWith part ext
  else String.eqb part pattern.

(** [shouldIgnore(filePath)]: the two nested loops return [true] at the first
    part that matches a pattern. *)
Definition shouldIgnore (filePath : string) : bool :=
  let parts := split filePath in
  existsb (fun part => existsb (fun pattern => matches part pattern) IGNORE_PATTERNS)
          parts.

(** [isBinaryFile(buffer)]: the loop over [i = 0 .. length - 1] returns [true]
    at the first zero byte. *)
#[warnings="-abstract-large-number"]
Definition isBinaryFile (buffer : list Byte.byte) : bool :=
  let length := Nat.min (List.length buffer) 8192 in
  existsb (fun i => match nth_error buffer i with
                    | Some Byte.x00 => true
                    | _ => false
                    end)
          (seq 0 length).

(** *** [throttle(func, limit)] *)

(** Consecutive times of [times] are at least [gap] apart. *)
Fixpoint spaced (gap : Z) (times : list Z) : Prop :=
  match times with
  | [] => True
  | t1 :: rest =>
      match rest with
      | [] => True
      | t2 :: _ => t1 + gap <= t2
      end /\ spaced gap rest
  end.


Module Throttle.
Section Throttle.
(** [A] is what [func] is called with. *)
Variable A : Type.
Variable limit : Z.

(** The closure of the returned function in its event loop: the variable
    [inThrottle], the clock, the due times of the pending
    [setTimeout(() => (inThrottle = false), limit)] callbacks, and the calls
    of [func] so far, each with the time it was made at. *)
Record State : Type := mkState {
  inThrottle : bool;
  clock : Z;
  timers : list Z;
  calls : list (Z * A);
}.

(** [throttle(func, limit)] at time [t0]. *)
Definition init (t0 : Z) : State :=
  {| inThrottle := false; clock := t0; timers := []; calls := [] |}.

(** A call of the returned function. *)
Definition call (args : A) (s : State) : State :=
  if negb (inThrottle s) then
    {| inThrottle := true; clock := clock s;
       timers := push (timers s) (clock s + limit);
       calls := push (calls s) (clock s, args) |}
  else s.

(** The event loop lets the clock reach [t]: the timers due by then run. *)
Definition advance (t : Z) (s : State) : State :=
  let due := List.filter (fun d => d <=? t) (timers s) in
  let later := List.filter (fun d => negb (d <=? t)) (timers s) in
  {| inThrottle := match due with [] => inThrottle s | _ => false end;
     clock := Z.max (clock s) t; timers := later; calls := calls s |}.

Inductive Event : Type :=
| Call (args : A)
| Wait (ms : Z).   (* nothing calls the function for [ms] milliseconds *)

Definition step (s : State) (e : Event) : State :=
  match e with
  | Call args => call args s
  | Wait ms => advance (clock s + ms) s
  end.

Definition run (events : list Event) (s : State) : State := fold_left step events s.

(** What holds of the closure between events: while [inThrottle] is set, one
    timer is pending, the one of the last call; otherwise none is, and every
    call lies at least [limit] back. *)
Definition throttle_inv (s : State) : Prop :=
  spaced limit (List.map fst (calls s)) /\
  if inThrottle s then
    exists earlier t a,
      calls s = earlier ++ [(t, a)] /\ timers s = [t + limit] /\ t <= clock s /\
      Forall (fun c => fst c + limit <= t) earlier
  else
    timers s = [] /\ Forall (fun c => fst c + limit <= clock s) (calls s).

(** Every pending timer is due in the future. *)
Definition throttle_pending (s : State) : Prop :=
  Forall (fun d => clock s < d) (timers s).

End Throttle.

Arguments inThrottle {A} _.
Arguments clock {A} _.
Arguments timers {A} _.
Arguments calls {A} _.
Arguments init {A} _.
Arguments call {A} _ _ _.
Arguments advance {A} _ _.
Arguments Call {A} _.
Arguments Wait {A} _.
Arguments step {A} _ _ _.
Arguments run {A} _ _ _.
Arguments throttle_inv {A} _ _.
Arguments throttle_pending {A} _.

End Throttle.

(** *** [debounce(func, wait)] *)

Module Debounce.
Section Debounce.
Variable A : Type.
Variable wait : Z.

(** A pending [setTimeout(() => func(...args), wait)]: its handle, its due
    time and the arguments it will pass. *)
Record Timer : Type := mkTimer {
  handle : nat;
  due : Z;
  args : A;
}.

(** The closure of the returned function in its event loop: the variable
    [timeout] (a handle, once set), the next fresh handle, the clock, the
    pending timers and the arguments [func] was called with so far. *)
Record State : Type := mkState {
  timeout : option nat;
  next : nat;
  clock : Z;
  timers : list Timer;
  calls : list A;
}.

Definition init (t0 : Z) : State :=
  {| timeout := None; next := 0; clock := t0; timers := []; calls := [] |}.

(** [clearTimeout(h)]: a timer that already ran is no longer pending, and
    clearing it does nothing. *)
Definition clearTimeout (h : nat) (ts : list Timer) : list Timer :=
  List.filter (fun t => negb (Nat.eqb (handle t) h)) ts.

(** A call of the returned function. *)
Definition call (a : A) (s : State) : State :=
  let ts := match timeout s with
            | Some h => clearTimeout h (timers s)
            | None => timers s
            end in
  {| timeout := Some (next s); next := S (next s); clock := clock s;
     timers := push ts {| handle := next s; due := clock s + wait; args := a |};
     calls := calls s |}.

(** The event loop lets the clock reach [t]: the timers due by then run, in
    the order they were set. *)
Definition advance (t : Z) (s : State) : State :=
  let ready := List.filter (fun tm => due tm <=? t) (timers s) in
  let later := List.filter (fun tm => negb (due tm <=? t)) (timers s) in
  {| timeout := timeout s; next := next s; clock := Z.max (clock s) t;
     timers := later; calls := calls s ++ List.map args ready |}.

Inductive Event : Type :=
| Call (a : A)
| Wait (ms : Z).

Definition step (s : State) (e : Event) : State :=
  match e with
  | Call a => call a s
  | Wait ms => advance (clock s + ms) s
  end.

Definition run (events : list Event) (s : State) : State := fold_left step events s.

(** A burst: calls with the given arguments, each followed by a pause. *)
Definition burst (l : list (A * Z)) : list Event :=
  flat_map (fun c => [Call (fst c); Wait (snd c)]) l.

(** What holds of the closure inside a burst: [func] has not run, and the one
    timer that may be pending is the one [timeout] names. *)
Definition debounce_inv (s : State) : Prop :=
  calls s = [] /\
  (timers s = [] \/
   exists tm, timers s = [tm] /\ timeout s = Some (handle tm)).

End Debounce.

Arguments handle {A} _.
Arguments due {A} _.
Arguments args {A} _.
Arguments timeout {A} _.
Arguments next {A} _.
Arguments clock {A} _.
Arguments timers {A} _.
Arguments calls {A} _.
Arguments init {A} _.
Arguments clearTimeout {A} _ _.
Arguments call {A} _ _ _.
Arguments advance {A} _ _.
Arguments Call {A} _.
Arguments Wait {A} _.
Arguments step {A} _ _ _.
Arguments run {A} _ _ _.
Arguments burst {A} _.
Arguments debounce_inv {A} _.

End Debounce.

(** *** [getAllFiles(dir, workspaceRoot)] *)

(** What [readdir(dir, {withFileTypes: true})] reports, together with what
    the same call reports for each directory below ([None]: the call
    rejects). *)
Unset Elimination Schemes.
Inductive Dirent : Type :=
| File (name : string)
| Directory (name : string) (entries : option (list Dirent))
| Other (name : string).   (* neither [isDirectory()] nor [isFile()] *)
Set Elimination Schemes.

(** Induction on directory entries, through the lists inside them. *)
Section DirentInduction.
Variable P : Dirent -> Prop.
Hypothesis HFile : forall n, P (File n).
Hypothesis HUnread : forall n, P (Directory n None).
Hypothesis HDirectory : forall n entries, Forall P entries -> P (Directory n (Some entries)).
Hypothesis HOther : forall n, P (Other n).

Fixpoint Dirent_nested_ind (entry : Dirent) : P entry :=
  match entry with
  | File n => HFile n
  | Directory n None => HUnread n
  | Directory n (Some entries) =>
      HDirectory n entries
        ((fix all (l : list Dirent) : Forall P l :=
            match l with
            | [] => @List.Forall_nil _ P
            | e :: l' => @List.Forall_cons _ P e l' (Dirent_nested_ind e) (all l')
            end) entries)
  | Other n => HOther n
  end.
End DirentInduction.

Definition name (entry : Dirent) : string :=
  match entry with
  | File n => n
  | Directory n _ => n
  | Other n => n
  end.

Section Walk.
(** Node's [path.join], and [toRelativePath] (utils), which is
    [path.relative] followed by a replacement of backslashes. *)
Variable path_join : string -> string -> string.
Variable toRelativePath : string -> string -> string.
Variable workspaceRoot : string.

(** One round of the loop of [walk(currentDir)], for [entry]. *)
Fixpoint walk_entry (currentDir : string) (entry : Dirent) (results : list string)
  : list string :=
  let fullPath := path_join currentDir (name entry) in
  let relativePath := toRelativePath fullPath workspaceRoot in
  if shouldIgnore relativePath then results
  else
    match entry with
    | Directory _ (Some entries) =>
        fold_left (fun results e => walk_entry fullPath e results) entries results
    | Directory _ None => results
    | File _ => push results relativePath
    | Other _ => results
    end.

(** [walk(currentDir)], [readdir(currentDir)] having settled with [entries]. *)
Definition walk (currentDir : string) (entries : option (list Dirent))
           (results : list string) : list string :=
  match entries with
  | None => results
  | Some entries =>
      fold_left (fun results e => walk_entry currentDir e results) entries results
  end.

(** [getAllFiles(dir, workspaceRoot)]. *)
Definition getAllFiles (dir : string) (entries : option (list Dirent)) : list string :=
  walk dir entries [].

End Walk.

End Utils.

(* ===================================================================== *)
(** ** src/fileSync.ts: reading the workspace *)
(* ===================================================================== *)

Module ManifestScan.
Import Protocol Utils.

Section Scan.
(** Node's [path.join]; [toRelativePath] and [computeHash] (utils), the
    latter an MD5 digest in hexadecimal; and the file system as it answers
    [readFile] and [stat] for an absolute path ([None]: the promise rejects). *)
Variable path_join : string -> string -> string.
Variable toRelativePath : string -> string -> string.
Variable computeHash : list Byte.byte -> string.
Variable readFile : string -> option (list Byte.byte).
Variable stat_size : string -> option Z.
(** [buffer.toString('base64')] and [buffer.toString('utf8')]. *)
Variable toString_base64 : list Byte.byte -> string.
Variable toString_utf8 : list Byte.byte -> string.

(** [generateManifest()] for the workspace [workspaceRoot], whose directory
    tree is [entries]. *)
Definition generateManifest (workspaceRoot : string) (entries : option (list Dirent))
  : list FileInfo :=
  let files := getAllFiles path_join toRelativePath workspaceRoot workspaceRoot entries in
  fold_left
    (fun manifest relativePath =>
       let absolutePath := FileSyncM.toAbsolutePath path_join relativePath workspaceRoot in
       match readFile absolutePath with
       | Some content =>
           match stat_size absolutePath with
           | Some size' =>
               push manifest {| path := relativePath; hash := computeHash content;
                                size := size' |}
           | None => manifest
           end
       | None => manifest
       end)
    files [].

(** [readFileForSend(relativePath)]; an empty buffer is an object, so only a
    failed read gives [null]. *)
Definition readFileForSend (workspaceRoot relativePath : string)
  : option FileContentMessage.t :=
  let absolutePath := FileSyncM.toAbsolutePath path_join relativePath workspaceRoot in
  match readFile absolutePath with
  | None => None
  | Some content =>
      let binary := isBinaryFile content in
      Some {| FileContentMessage.path := relativePath;
              FileContentMessage.content :=
                if binary then toString_base64 content else toString_utf8 content;
              FileContentMessage.encoding := if binary then base64 else utf8 |}
  end.

(** Does [readFile] settle with a buffer for [relativePath]? *)
Definition readable (workspaceRoot relativePath : string) : bool :=
  match readFile (FileSyncM.toAbsolutePath path_join relativePath workspaceRoot) with
  | Some _ => true
  | None => false
  end.

(** The host's ['fileRequest'] listener (src/extension.ts): the messages it
    hands to [sendTo], in order. *)
Definition serveFiles (workspaceRoot : string) (paths : list string)
  : list FileContentMessage.t :=
  fold_left
    (fun sent filePath =>
       match readFileForSend workspaceRoot filePath with
       | Some fileContent => push sent fileContent
       | None => sent
       end)
    paths [].

End Scan.

End ManifestScan.

(* ===================================================================== *)
(** ** src/fileSync.ts: the engine in use *)
(* ===================================================================== *)

Module FileSyncRun.
Import Protocol FileSyncM.

Section Run.
Variable path_join : string -> string -> string.
Variable path_dirname : string -> string.
Variable fs_latency : FsCall -> Z.

(** What a caller can do with a [FileSync], and time passing between calls. *)
Inductive Op : Type :=
| SuppressPath (relativePath : string)
| WriteReceivedFile (msg : FileContentMessage.t) (writeOk : bool)
| CreateFile (relativePath content : string) (encoding : Encoding)
| DeleteFile (relativePath : string)
| RenameFile (oldPath newPath : string) (mkdirOk : bool)
| StartInitialSync (localManifest : list FileInfo) (manifest : FileManifestMessage.t)
                   (onComplete : Callback)
| Elapse (ms : Z).

Definition apply (w : World) (op : Op) : World :=
  match op with
  | SuppressPath relativePath => suppressPath relativePath w
  | WriteReceivedFile msg writeOk =>
      writeReceivedFile path_join path_dirname fs_latency msg writeOk w
  | CreateFile relativePath content encoding =>
      createFile path_join path_dirname fs_latency relativePath content encoding w
  | DeleteFile relativePath => deleteFile path_join fs_latency relativePath w
  | RenameFile oldPath newPath mkdirOk =>
      renameFile path_join path_dirname fs_latency oldPath newPath mkdirOk w
  | StartInitialSync localManifest manifest onComplete =>
      startInitialSync path_join fs_latency localManifest manifest onComplete w
  | Elapse ms => advance (clock w + ms) w
  end.

Definition run (ops : list Op) (w : World) : World := fold_left apply ops w.

End Run.

(** Every suppressed path has a pending timer that will remove it, due
    within the next 3000 ms. *)
Definition timers_cover (w : World) : Prop :=
  forall p, p ∈ suppressedPaths (self w) ->
            exists due, In (due, p) (timers w) /\ due <= clock w + 3000.

(** The requests for files among the effects, in order. *)
Definition requests (es : list Effect) : list (list string) :=
  flat_map (fun e => match e with
                     | RequestFiles msg => [FileRequestMessage.paths msg]
                     | _ => []
                     end) es.

End FileSyncRun.

(* ===================================================================== *)
(** ** src/server.ts: what the sockets see *)
(* ===================================================================== *)

Module ServerView.
Import Protocol Server.

(** The frames handed to [ws.send], in order, each with its socket. *)
Definition sends (es : list Effect) : list (WebSocket * CollabMessage) :=
  flat_map (fun e => match e with Send socket msg => [(socket, msg)] | _ => [] end) es.

(** The frames sent on [socket], in order. *)
Definition inbox (socket : WebSocket) (es : list Effect) : list CollabMessage :=
  List.map snd (List.filter (fun f => Nat.eqb (fst f) socket) (sends es)).

(** The effects of [after] that [before] does not have yet. *)
Definition added (before after : World) : list Effect :=
  skipn (List.length (effects before)) (effects after).

(** The branches of [handleClientMessage] that call [broadcastExcept]: all
    but the two requests that only the host answers. *)
Definition relayed (msg : CollabMessage) : bool :=
  match msg with
  | FileManifestRequest => false
  | FileRequest _ => false
  | _ => true
  end.

(** The registered clients other than [clientId] whose socket is open, in
    registry order. *)
Definition others (clientId : string) (w : World) : list (string * ClientConnection) :=
  List.filter
    (fun entry => negb (String.eqb (fst entry) clientId) &&
                  isOpen (readyState w (ws (snd entry))))
    (clients (self w)).

(** Every client is registered under the id its [user] carries. *)
Definition keys_match (w : World) : Prop :=
  Forall (fun entry : string * ClientConnection => userId (user (snd entry)) = fst entry)
         (clients (self w)).

End ServerView.

(* ===================================================================== *)
(** ** src/client.ts: the address and the incoming messages *)
(* ===================================================================== *)

Module ClientSession.
Import Protocol Utils.

(** The address [connect()] hands to [new WebSocket]. *)
Definition wsUrl (url : string) : string :=
  if startsWith url "https://" then "wss://" +:+ slice_from 8 url
  else if startsWith url "http://" then "ws://" +:+ slice_from 7 url
  else if negb (startsWith url "ws://") && negb (startsWith url "wss://")
       then "ws://" +:+ url
       else url.

(** What [handleMessage] hands to the client's listeners; a listener of
    [usersChanged] is handed the list as it is at that moment. *)
Inductive ClientEvent : Type :=
| joined (msg : CollabMessage)
| usersChanged (users : list UserInfo)
| userJoined (user : UserInfo)
| userLeft (userId : string)
| forwarded (name : string) (msg : CollabMessage)
| syncComplete
| showErrorMessage (message : string).

(** The fields of [CollabClient] that [handleMessage] writes. *)
Record Session : Type := mkSession {
  color : string;
  users : list UserInfo;
}.

(** [const user = users.find(u => u.userId === id); if (user) { ... }] with an
    assignment to fields of [user] in the braces: the first entry with that
    id is changed in place. *)
Fixpoint update_found (id : string) (f : UserInfo -> UserInfo) (users : list UserInfo)
  : list UserInfo :=
  match users with
  | [] => []
  | u :: rest =>
      if String.eqb (userId u) id then f u :: rest else u :: update_found id f rest
  end.

(** [handleMessage(msg)]: the session afterwards and the events emitted, in
    order.  The four message types without a [case] fall through the
    [switch]. *)
Definition handleMessage (msg : CollabMessage) (s : Session)
  : Session * list ClientEvent :=
  match msg with
  | JoinAck _ color' users' =>
      ({| color := color'; users := users' |}, [joined msg; usersChanged users'])
  | UserJoined user =>
      let users' := push (users s) user in
      ({| color := color s; users := users' |}, [userJoined user; usersChanged users'])
  | UserLeft userId' =>
      let users' := List.filter (fun u => negb (String.eqb (userId u) userId')) (users s) in
      ({| color := color s; users := users' |}, [userLeft userId'; usersChanged users'])
  | UserList users' =>
      ({| color := color s; users := users' |}, [usersChanged users'])
  | HeartbeatAck => (s, [])
  | FileManifest _ => (s, [forwarded "fileManifest" msg])
  | FileContent _ => (s, [forwarded "fileContent" msg])
  | FileCreate _ _ _ _ => (s, [forwarded "fileCreate" msg])
  | FileDelete _ _ => (s, [forwarded "fileDelete" msg])
  | FileRename _ _ _ => (s, [forwarded "fileRename" msg])
  | FileSave _ _ => (s, [forwarded "fileSave" msg])
  | SyncComplete => (s, [syncComplete])
  | DocEdit _ => (s, [forwarded "docEdit" msg])
  | DocFullContent _ _ _ => (s, [forwarded "docFullContent" msg])
  | CursorUpdate userId' _ cursor' selections' =>
      let users' :=
        update_found userId'
          (fun u => {| userId := userId u; username := username u;
                       Protocol.color := Protocol.color u;
                       activeFile := activeFile u; cursor := Some cursor';
                       selections := selections' |}) (users s) in
      ({| color := color s; users := users' |}, [forwarded "cursorUpdate" msg])
  | ActiveFileChange userId' path' =>
      let users' :=
        update_found userId'
          (fun u => {| userId := userId u; username := username u;
                       Protocol.color := Protocol.color u;
                       activeFile := path'; cursor := cursor u;
                       selections := selections u |}) (users s) in
      ({| color := color s; users := users' |},
       [forwarded "activeFileChange" msg; usersChanged users'])
  | Error message => (s, [showErrorMessage message])
  | Join _ _ => (s, [])
  | Heartbeat => (s, [])
  | FileManifestRequest => (s, [])
  | FileRequest _ => (s, [])
  end.

(** The ['message'] handler run on each frame of [frames] in turn. *)
Definition deliver (frames : list CollabMessage) (s : Session) : Session :=
  fold_left (fun s msg => fst (handleMessage msg s)) frames s.

End ClientSession.

(* ===================================================================== *)
(** ** src/documentSync.ts: local changes *)
(* ===================================================================== *)

Module DocumentSyncLocal.
Import Protocol Utils DocumentSyncM.

(** [vscode.TextDocumentContentChangeEvent]. *)
Record ContentChange : Type := mkContentChange {
  rangeOffset : Z;
  rangeLength : Z;
  text : string;
  range : Range;
}.

(** The [uri] of a [vscode.TextDocument]. *)
Record TextDocument : Type := mkTextDocument {
  scheme : string;
  fsPath : string;
}.

(** [vscode.TextDocumentChangeEvent]. *)
Record TextDocumentChangeEvent : Type := mkTextDocumentChangeEvent {
  document : TextDocument;
  contentChanges : list ContentChange;
}.

Definition set_versions (m : gmap string Z) (d : DocumentSync) : DocumentSync :=
  {| workspaceRoot := workspaceRoot d; documentVersions := m;
     applyingRemoteEdit := applyingRemoteEdit d; userId := userId d |}.

(** [this.documentVersions.get(relativePath) || 0]. *)
Definition version_of (relativePath : string) (d : DocumentSync) : Z :=
  match documentVersions d !! relativePath with
  | Some v => v
  | None => 0
  end.

Section Local.
(** [toRelativePath] (utils). *)
Variable toRelativePath : string -> string -> string.

(** The protocol's form of one change. *)
Definition textChange (change : ContentChange) : TextChange.t :=
  {| TextChange.rangeOffset := rangeOffset change;
     TextChange.rangeLength := rangeLength change;
     TextChange.text := text change;
     TextChange.startLine := range_startLine (range change);
     TextChange.startCharacter := range_startCharacter (range change);
     TextChange.endLine := range_endLine (range change);
     TextChange.endCharacter := range_endCharacter (range change) |}.

(** [handleDocumentChange(event)]: the synchroniser afterwards and the
    [DocEdit] message emitted as ['docEdit'], if any. *)
Definition handleDocumentChange (event : TextDocumentChangeEvent) (d : DocumentSync)
  : DocumentSync * option DocEditMessage.t :=
  if applyingRemoteEdit d then (d, None)
  else if negb (String.eqb (scheme (document event)) "file") then (d, None)
  else if Nat.eqb (List.length (contentChanges event)) 0 then (d, None)
  else
    let relativePath := toRelativePath (fsPath (document event)) (workspaceRoot d) in
    if shouldIgnore relativePath then (d, None)
    else
      let version := version_of relativePath d in
      let version := JsNumber.add version 1 in
      let d := set_versions (<[relativePath := version]> (documentVersions d)) d in
      let changes := List.map textChange (contentChanges event) in
      (d, Some {| DocEditMessage.path := relativePath;
                  DocEditMessage.changes := changes;
                  DocEditMessage.version := version;
                  DocEditMessage.userId := userId d |}).

(** [handleDocumentSave(document)]: the [FileSave] message emitted as
    ['fileSave'], if any. *)
Definition handleDocumentSave (doc : TextDocument) (d : DocumentSync)
  : option CollabMessage :=
  if negb (String.eqb (scheme doc) "file") then None
  else
    let relativePath := toRelativePath (fsPath doc) (workspaceRoot d) in
    if shouldIgnore relativePath then None
    else Some (FileSave relativePath (userId d)).

(** The change listener run on each event in turn: the synchroniser
    afterwards and the messages emitted, in order. *)
Definition handleDocumentChanges (events : list TextDocumentChangeEvent)
           (d : DocumentSync) : DocumentSync * list DocEditMessage.t :=
  fold_left
    (fun (acc : DocumentSync * list DocEditMessage.t) event =>
       let (d', out) := handleDocumentChange event (fst acc) in
       (d', match out with
            | Some msg => push (snd acc) msg
            | None => snd acc
            end))
    events (d, []).

End Local.

(** [stop()], as far as the fields go. *)
Definition stop (d : DocumentSync) : DocumentSync := set_versions ∅ d.

(** The replacements [applyRemoteEdit] collects in its [WorkspaceEdit]. *)
Definition replacements (msg : DocEditMessage.t) : list (Range * string) :=
  List.map
    (fun change =>
       (mkRange (TextChange.startLine change) (TextChange.startCharacter change)
                (TextChange.endLine change) (TextChange.endCharacter change),
        TextChange.text change))
    (DocEditMessage.changes msg).

Section Loop.
Variable Editor : Type.

Definition set_self (d : DocumentSync) (w : World Editor) : World Editor :=
  {| self := d; editor := editor w; clock := clock w; timers := timers w |}.

End Loop.

Arguments set_self {Editor} _ _.

End DocumentSyncLocal.

(* ===================================================================== *)
(** ** src/fileWatcher.ts and the ['fileChange'] listeners of src/extension.ts *)
(* ===================================================================== *)

Module FileWatcherM.
Import Protocol Utils FileSyncM.

(** [FileChangeType]. *)
Inductive FileChangeType : Type := Created | Changed | Deleted.

(** [FileChangeEvent]. *)
Record FileChangeEvent : Type := mkFileChangeEvent {
  type : FileChangeType;
  relativePath : string;
  absolutePath : string;
}.

Section Watcher.
(** [toRelativePath] (utils), the file system as it answers [readFile], and
    the two encoders of a buffer. *)
Variable toRelativePath : string -> string -> string.
Variable readFile : string -> option (list Byte.byte).
Variable toString_base64 : list Byte.byte -> string.
Variable toString_utf8 : list Byte.byte -> string.

(** [handleFileChange(uri, type)]: the event emitted as ['fileChange'], if any. *)
Definition handleFileChange (workspaceRoot fsPath : string) (type' : FileChangeType)
  : option FileChangeEvent :=
  let absolutePath' := fsPath in
  let relativePath' := toRelativePath absolutePath' workspaceRoot in
  if shouldIgnore relativePath' then None
  else Some {| type := type'; relativePath := relativePath';
               absolutePath := absolutePath' |}.

(** [readFileContent(absolutePath)]. *)
Definition readFileContent (absolutePath' : string) : option (string * Encoding) :=
  match readFile absolutePath' with
  | Some buffer =>
      let binary := isBinaryFile buffer in
      Some (if binary then toString_base64 buffer else toString_utf8 buffer,
            if binary then base64 else utf8)
  | None => None
  end.

(** The ['fileChange'] listener that [setupHostEvents] and
    [setupClientLocalChanges] install: the message it hands to
    [server.broadcast], respectively [client.send], if any. *)
Definition on_fileChange (userId' : string) (event : FileChangeEvent) (w : World)
  : option CollabMessage :=
  if isSuppressed (relativePath event) w then None
  else
    match type event with
    | Created =>
        match readFileContent (absolutePath event) with
        | Some (content, encoding) =>
            Some (FileCreate (relativePath event) content encoding userId')
        | None => None
        end
    | Deleted => Some (FileDelete (relativePath event) userId')
    | Changed => None
    end.

End Watcher.

(** [p] is suppressed, the clock has not reached [deadline], and no pending
    timer would release [p] before [deadline]. *)
Definition held (p : string) (deadline : Z) (w : World) : Prop :=
  p ∈ suppressedPaths (self w) /\
  clock w < deadline /\
  Forall (fun timer => snd timer = p -> deadline <= fst timer) (timers w).

End FileWatcherM.

(* ===================================================================== *)
(** * Properties *)

(** ** Numbers (the doubles that hold integers) *)

Section NumberFacts.

(** A safe integer is a double. *)
Lemma round_safe (n : Z) : JSON.safe_integer n = true -> JsNumber.round n = n.
Proof.
  unfold JSON.safe_integer, JsNumber.round, JsNumber.round_magnitude. intros H.
  apply andb_true_iff in H as [Hlow Hhigh].
  apply Z.leb_le in Hlow. apply Z.leb_le in Hhigh.
  destruct (Z.ltb_spec (Z.abs n) (2^53)) as [_|Hge]; [|lia].
  rewrite Z.mul_comm. apply Z.abs_sgn.
Qed.

(** Within the safe range a sum is exact. *)
Lemma add_exact (a b : Z) :
  - JsNumber.limit <= a + b <= JsNumber.limit -> JsNumber.add a b = a + b.
Proof.
  unfold JsNumber.limit, JsNumber.add, JsNumber.round. intros H.
  destruct (Z.eq_dec (Z.abs (a + b)) (2^53)) as [Heq|Hne].
  - destruct (Z.abs_eq_or_opp (a + b)) as [E|E]; rewrite E in Heq.
    + rewrite Heq. reflexivity.
    + assert (Hn : a + b = - 2^53) by lia. rewrite Hn. reflexivity.
  - unfold JsNumber.round_magnitude.
    destruct (Z.ltb_spec (Z.abs (a + b)) (2^53)) as [_|Hge]; [|lia].
    rewrite Z.mul_comm. apply Z.abs_sgn.
Qed.

(** At the limit the increment is lost. *)
Lemma add_limit : JsNumber.add JsNumber.limit 1 = JsNumber.limit.
Proof. reflexivity. Qed.

(** Beyond the limit only every second, then every fourth integer is a
    double; a sum that falls between two of them goes to the nearer one, a
    sum half way to the one with the even significand. *)
Example add_examples :
  JsNumber.add (2^53 - 1) 1 = 2^53 /\
  JsNumber.add (2^53) 2 = 2^53 + 2 /\
  JsNumber.add (2^53 + 2) 1 = 2^53 + 4 /\
  JsNumber.add (2^54) 2 = 2^54 /\
  JsNumber.add (2^54) 3 = 2^54 + 4 /\
  JsNumber.add (- 2^53) (-1) = - 2^53 /\
  JsNumber.add (- 2^53) 1 = - 2^53 + 1.
Proof. repeat split; reflexivity. Qed.

End NumberFacts.

(* ===================================================================== *)

(** ** Facts about [JsMap] *)

Section JsMapFacts.
Context {V : Type}.
Implicit Types (m : JsMap.t V) (k : string) (v : V).

Lemma jsmap_get_set k k' v m :
    JsMap.get k (JsMap.set k' v m) =
    if String.eqb k k' then Some v else JsMap.get k m.
Proof.
  induction m as [|[k0 v0] m IH]; simpl.
  - reflexivity.
  - destruct (String.eqb_spec k' k0) as [->|Hne]; simpl.
    + destruct (String.eqb k k0); reflexivity.
    + rewrite IH. destruct (String.eqb_spec k k0) as [->|Hne'].
      * destruct (String.eqb_spec k0 k'); congruence.
      * reflexivity.
Qed.

Lemma jsmap_keys_set k k' v m :
    In k (JsMap.keys (JsMap.set k' v m)) <-> k = k' \/ In k (JsMap.keys m).
Proof.
  induction m as [|[k0 v0] m IH]; simpl.
  - intuition.
  - destruct (String.eqb_spec k' k0) as [->|Hne]; simpl.
    + intuition.
    + rewrite IH. intuition.
Qed.

Lemma jsmap_keys_set_NoDup k v m :
    NoDup (JsMap.keys m) -> NoDup (JsMap.keys (JsMap.set k v m)).
Proof.
  induction m as [|[k0 v0] m IH]; simpl; intros Hnd.
  - constructor; [intros [] | constructor].
  - inversion Hnd as [|? ? Hnotin Hnd']; subst.
    destruct (String.eqb_spec k k0) as [->|Hne]; simpl.
    + constructor; assumption.
    + constructor; [|auto].
      rewrite jsmap_keys_set. intros [Heq|Hin]; [congruence | contradiction].
Qed.

Lemma jsmap_get_Some_In k v m : JsMap.get k m = Some v -> In (k, v) m.
Proof.
  induction m as [|[k0 v0] m IH]; simpl; [discriminate|].
  destruct (String.eqb_spec k k0) as [->|Hne].
  - intros [= ->]. now left.
  - intros H. right. auto.
Qed.

Lemma jsmap_In_get k v m : NoDup (JsMap.keys m) -> In (k, v) m -> JsMap.get k m = Some v.
Proof.
  induction m as [|[k0 v0] m IH]; simpl; [intros _ []|].
  intros Hnd [Heq|Hin]; inversion Hnd as [|? ? Hnotin Hnd']; subst.
  - injection Heq as -> ->. now rewrite String.eqb_refl.
  - destruct (String.eqb_spec k k0) as [->|Hne]; [|auto].
    exfalso. apply Hnotin. change k0 with (fst (k0, v)). now apply in_map.
Qed.

Lemma jsmap_get_None k m : JsMap.get k m = None <-> ~ In k (JsMap.keys m).
Proof.
  induction m as [|[k0 v0] m IH]; simpl.
  - intuition.
  - destruct (String.eqb_spec k k0) as [->|Hne].
    + split; [discriminate | intros H; exfalso; apply H; now left].
    + rewrite IH. intuition congruence.
Qed.

Lemma jsmap_has_keys k m : JsMap.has k m = true <-> In k (JsMap.keys m).
Proof.
  unfold JsMap.has. destruct (JsMap.get k m) eqn:E.
  - split; [intros _|reflexivity].
    apply jsmap_get_Some_In in E. change k with (fst (k, v)). now apply in_map.
  - apply jsmap_get_None in E. split; [discriminate | contradiction].
Qed.

Lemma find_app_or {A : Type} (f : A -> bool) (l1 l2 : list A) :
    List.find f (l1 ++ l2) =
    match List.find f l1 with Some x => Some x | None => List.find f l2 end.
Proof.
  induction l1 as [|a l1 IH]; simpl; [reflexivity|].
  destruct (f a); [reflexivity | exact IH].
Qed.

Lemma set_all_keys k l m0 :
    In k (JsMap.keys (JsMap.set_all l m0)) <-> In k (List.map fst l) \/ In k (JsMap.keys m0).
Proof.
  revert m0. induction l as [|[k1 v1] l IH]; intros m0; simpl.
  - intuition.
  - unfold JsMap.set_all in *. simpl. rewrite IH, jsmap_keys_set. simpl. intuition.
Qed.

Lemma set_all_NoDup l m0 :
    NoDup (JsMap.keys m0) -> NoDup (JsMap.keys (JsMap.set_all l m0)).
Proof.
  revert m0. induction l as [|[k1 v1] l IH]; intros m0 Hnd; simpl; [assumption|].
  apply IH. now apply jsmap_keys_set_NoDup.
Qed.

Lemma set_all_get k l m0 :
    JsMap.get k (JsMap.set_all l m0) =
    match List.find (fun kv => String.eqb k (fst kv)) (rev l) with
    | Some kv => Some (snd kv)
    | None => JsMap.get k m0
    end.
Proof.
  revert m0. induction l as [|[k1 v1] l IH]; intros m0; simpl; [reflexivity|].
  unfold JsMap.set_all in *. simpl. rewrite IH.
  rewrite find_app_or.
  destruct (List.find _ (rev l)) as [kv|]; [reflexivity|].
  simpl. rewrite jsmap_get_set. destruct (String.eqb k k1); reflexivity.
Qed.
End JsMapFacts.

Lemma fold_left_pointwise {A B : Type} (f g : A -> B -> A) (l : list B) (a : A) :
  (forall a b, f a b = g a b) -> fold_left f l a = fold_left g l a.
Proof.
  intros Hfg. revert a. induction l as [|b l IH]; intros a; simpl; [reflexivity|].
  now rewrite Hfg, IH.
Qed.

(** A loop that pushes the selected elements is a filter. *)
Lemma fold_left_push_filter {A B : Type} (sel : A -> bool) (g : A -> B)
      (l : list A) (acc : list B) :
  fold_left (fun acc x => if sel x then push acc (g x) else acc) l acc =
  acc ++ List.map g (List.filter sel l).
Proof.
  revert acc. induction l as [|a l IH]; intros acc; simpl.
  - now rewrite app_nil_r.
  - rewrite IH. destruct (sel a); simpl; [|reflexivity].
    unfold push. now rewrite <- app_assoc.
Qed.

(** ** Manifest diff (src/fileSync.ts, [compareManifest]) *)

Section ManifestDiff.
Import Protocol FileSyncM.

Lemma manifestMap_get p m : JsMap.get p (manifestMap m) = manifest_entry p m.
Proof.
  unfold manifestMap, JsMap.of_entries, manifest_entry.
  change (fold_left _ ?l JsMap.empty) with (JsMap.set_all l (@JsMap.empty FileInfo)).
  rewrite set_all_get. simpl. rewrite <- map_rev.
  induction (rev m) as [|f l IH]; simpl; [reflexivity|].
  destruct (String.eqb p (path f)); [reflexivity | exact IH].
Qed.

Lemma manifestMap_keys p m :
    In p (JsMap.keys (manifestMap m)) <-> In p (List.map path m).
Proof.
  unfold manifestMap, JsMap.of_entries.
  change (fold_left _ ?l JsMap.empty) with (JsMap.set_all l (@JsMap.empty FileInfo)).
  rewrite set_all_keys, map_map. simpl. intuition.
Qed.

Lemma manifestMap_NoDup m : NoDup (JsMap.keys (manifestMap m)).
Proof.
  unfold manifestMap, JsMap.of_entries.
  change (fold_left _ ?l JsMap.empty) with (JsMap.set_all l (@JsMap.empty FileInfo)).
  apply set_all_NoDup. constructor.
Qed.

Lemma manifest_entry_None p m :
    manifest_entry p m = None <-> ~ In p (List.map path m).
Proof.
  rewrite <- manifestMap_get, jsmap_get_None. now rewrite manifestMap_keys.
Qed.

Lemma manifest_entry_Some_In p m f :
    manifest_entry p m = Some f -> In f m /\ path f = p.
Proof.
  unfold manifest_entry. intros H. apply find_some in H as [Hin Heq].
  apply in_rev in Hin. apply String.eqb_eq in Heq. auto.
Qed.

(** On a manifest that lists every path once, the entry for a path is the
    only entry with that path. *)
Lemma manifest_entry_unique p m f :
    NoDup (List.map path m) ->
    (manifest_entry p m = Some f <-> In f m /\ path f = p).
Proof.
  intros Hnd. split; [apply manifest_entry_Some_In|].
  intros [Hin <-]. destruct (manifest_entry (path f) m) as [g|] eqn:E.
  - apply manifest_entry_Some_In in E as [Hg Hpath].
    f_equal. clear -Hnd Hin Hg Hpath.
    induction m as [|a m IH]; simpl in *; [contradiction|].
    inversion Hnd as [|? ? Hnotin Hnd']; subst.
    destruct Hin as [->|Hin], Hg as [->|Hg]; auto.
    + exfalso. apply Hnotin. rewrite <- Hpath. now apply in_map.
    + exfalso. apply Hnotin. rewrite Hpath. now apply in_map.
  - apply manifest_entry_None in E. exfalso. apply E. now apply in_map.
Qed.

Lemma toDownload_spec localManifest remoteManifest :
    toDownload (compareManifest localManifest remoteManifest) =
    List.map fst
      (List.filter
         (fun e : string * FileInfo =>
            match manifest_entry (fst e) localManifest with
            | None => true
            | Some localFile => negb (String.eqb (hash localFile) (hash (snd e)))
            end)
         (manifestMap remoteManifest)).
Proof.
  unfold compareManifest; simpl. fold (manifestMap localManifest).
  fold (manifestMap remoteManifest). unfold JsMap.entries.
  rewrite <- (app_nil_l (List.map _ _)).
  rewrite <- fold_left_push_filter.
  apply fold_left_pointwise. intros acc [p rf]. simpl.
  rewrite manifestMap_get.
  destruct (manifest_entry p localManifest); reflexivity.
Qed.

Lemma toDelete_spec localManifest remoteManifest :
    toDelete (compareManifest localManifest remoteManifest) =
    List.filter (fun p => negb (JsMap.has p (manifestMap remoteManifest)))
                (JsMap.keys (manifestMap localManifest)).
Proof.
  unfold compareManifest; simpl. fold (manifestMap localManifest).
  fold (manifestMap remoteManifest).
  rewrite <- (map_id (List.filter _ _)), <- (app_nil_l (List.map _ _)).
  now rewrite <- fold_left_push_filter.
Qed.
End ManifestDiff.

Section ManifestDiffCorrect.
Import Protocol FileSyncM.

Lemma NoDup_map_fst_filter {A B : Type} (sel : A * B -> bool) (l : list (A * B)) :
    NoDup (List.map fst l) -> NoDup (List.map fst (List.filter sel l)).
Proof.
  induction l as [|a l IH]; simpl; intros Hnd; [constructor|].
  inversion Hnd as [|? ? Hnotin Hnd']; subst.
  destruct (sel a); simpl; [|auto].
  constructor; [|auto].
  intros Hin. apply Hnotin. apply in_map_iff in Hin as [x [Hx Hin]].
  apply filter_In in Hin as [Hin _]. rewrite <- Hx. now apply in_map.
Qed.

Lemma toDownload_NoDup localManifest remoteManifest :
    NoDup (toDownload (compareManifest localManifest remoteManifest)).
Proof.
  rewrite toDownload_spec. apply NoDup_map_fst_filter, manifestMap_NoDup.
Qed.

Lemma toDelete_NoDup localManifest remoteManifest :
    NoDup (toDelete (compareManifest localManifest remoteManifest)).
Proof.
  rewrite toDelete_spec. apply NoDup_filter, manifestMap_NoDup.
Qed.

Lemma toDownload_In localManifest remoteManifest p :
    In p (toDownload (compareManifest localManifest remoteManifest)) <->
    In p (List.map path remoteManifest) /\
    (~ In p (List.map path localManifest) \/
     exists localFile remoteFile,
       manifest_entry p localManifest = Some localFile /\
       manifest_entry p remoteManifest = Some remoteFile /\
       hash localFile <> hash remoteFile).
Proof.
  rewrite toDownload_spec, in_map_iff. split.
  - intros [[q rf] [Hq Hin]]. simpl in Hq. subst q.
    apply filter_In in Hin as [Hin Hsel]. simpl in Hsel.
    assert (Hget : manifest_entry p remoteManifest = Some rf).
    { rewrite <- manifestMap_get. apply jsmap_In_get; [apply manifestMap_NoDup | exact Hin]. }
    split.
    + apply manifestMap_keys. change p with (fst (p, rf)). now apply in_map.
    + destruct (manifest_entry p localManifest) as [lf|] eqn:El.
      * right. exists lf, rf. repeat split; [assumption|].
        apply negb_true_iff, String.eqb_neq in Hsel. exact Hsel.
      * left. now apply manifest_entry_None.
  - intros [Hr Hl].
    destruct (manifest_entry p remoteManifest) as [rf|] eqn:Er.
    2:{ apply manifest_entry_None in Er. contradiction. }
    exists (p, rf). split; [reflexivity|]. apply filter_In. split.
    + apply jsmap_get_Some_In. now rewrite manifestMap_get.
    + simpl. destruct Hl as [Hl | (lf & rf' & Hlf & Hrf & Hne)].
      * apply manifest_entry_None in Hl. now rewrite Hl.
      * rewrite Hlf. injection Hrf as <-. now apply negb_true_iff, String.eqb_neq.
Qed.

Lemma toDelete_In localManifest remoteManifest p :
    In p (toDelete (compareManifest localManifest remoteManifest)) <->
    In p (List.map path localManifest) /\ ~ In p (List.map path remoteManifest).
Proof.
  rewrite toDelete_spec, filter_In, manifestMap_keys.
  rewrite negb_true_iff, <- not_true_iff_false, jsmap_has_keys, manifestMap_keys.
  reflexivity.
Qed.

(** C1. Manifest diff correctness.  For every local and remote manifest, a
    path is in [toDownload] iff it occurs in the remote manifest and either
    no local entry has that path or the local entry's hash differs from the
    remote entry's hash (the entry of a manifest for a path being the one its
    [Map] keeps, [manifest_entry]); a path is in [toDelete] iff it occurs in
    the local manifest and not in the remote one; the two lists are
    disjoint; and local [a.txt] (hash H1) against remote [b.txt] (hash H2)
    gives toDownload = [b.txt], toDelete = [a.txt]. *)
Theorem compareManifest_correct :
    (forall (localManifest remoteManifest : list FileInfo),
       let d := compareManifest localManifest remoteManifest in
       (forall p, In p (toDownload d) <->
                  In p (List.map path remoteManifest) /\
                  (~ In p (List.map path localManifest) \/
                   exists localFile remoteFile,
                     manifest_entry p localManifest = Some localFile /\
                     manifest_entry p remoteManifest = Some remoteFile /\
                     hash localFile <> hash remoteFile)) /\
       (forall p, In p (toDelete d) <->
                  In p (List.map path localManifest) /\
                  ~ In p (List.map path remoteManifest)) /\
       (forall p, ~ (In p (toDownload d) /\ In p (toDelete d)))) /\
    (forall (H1 H2 : string) (size1 size2 : Z),
       compareManifest [mkFileInfo "a.txt" H1 size1] [mkFileInfo "b.txt" H2 size2] =
       {| toDownload := ["b.txt"%string]; toDelete := ["a.txt"%string] |}).
Proof.
  split.
  - intros localManifest remoteManifest d. subst d. split; [|split].
    + intros p. apply toDownload_In.
    + intros p. apply toDelete_In.
    + intros p [Hd Hx]. apply toDownload_In in Hd as [Hr _].
      apply toDelete_In in Hx as [_ Hnr]. contradiction.
  - intros H1 H2 size1 size2. reflexivity.
Qed.
End ManifestDiffCorrect.

(** ** Suppression and file operations (src/fileSync.ts) *)

Section FileSyncFacts.
Import Protocol FileSyncM.

Lemma effects_advance t w : effects (advance t w) = effects w.
Proof.
  unfold advance. simpl.
  induction (List.filter (fun timer => fst timer <=? t) (timers w)) as [|tm l IH] using rev_ind;
    [reflexivity|].
  rewrite fold_left_app. simpl. exact IH.
Qed.

Lemma fold_fire_self l w :
  workspaceRoot (self (fold_left fire l w)) = workspaceRoot (self w) /\
  pendingFiles (self (fold_left fire l w)) = pendingFiles (self w) /\
  syncCompleteCallback (self (fold_left fire l w)) = syncCompleteCallback (self w) /\
  suppressedPaths (self (fold_left fire l w)) =
    suppressedPaths (self w) ∖ list_to_set (List.map snd l).
Proof.
  revert w. induction l as [|tm l IH]; intros w; simpl.
  - repeat split; try reflexivity. set_solver.
  - destruct (IH (fire w tm)) as (H1 & H2 & H3 & H4).
    rewrite H1, H2, H3, H4. simpl. repeat split; try reflexivity. set_solver.
Qed.

Lemma advance_self t w :
  workspaceRoot (self (advance t w)) = workspaceRoot (self w) /\
  pendingFiles (self (advance t w)) = pendingFiles (self w) /\
  syncCompleteCallback (self (advance t w)) = syncCompleteCallback (self w).
Proof.
  unfold advance. simpl.
  destruct (fold_fire_self (List.filter (fun timer => fst timer <=? t) (timers w)) w)
    as (H1 & H2 & H3 & _).
  auto.
Qed.

Lemma suppressedPaths_advance t w :
  suppressedPaths (self (advance t w)) =
  suppressedPaths (self w) ∖
    list_to_set (List.map snd (List.filter (fun timer => fst timer <=? t) (timers w))).
Proof.
  unfold advance. simpl. apply fold_fire_self.
Qed.

Lemma isSuppressed_suppressPath p w : isSuppressed p (suppressPath p w) = true.
Proof.
  unfold isSuppressed, suppressPath. simpl. apply bool_decide_eq_true. set_solver.
Qed.

Lemma suppressPath_frame p w :
  effects (suppressPath p w) = effects w /\
  clock (suppressPath p w) = clock w /\
  workspaceRoot (self (suppressPath p w)) = workspaceRoot (self w) /\
  pendingFiles (self (suppressPath p w)) = pendingFiles (self w) /\
  syncCompleteCallback (self (suppressPath p w)) = syncCompleteCallback (self w) /\
  suppressedPaths (self (suppressPath p w)) = {[p]} ∪ suppressedPaths (self w).
Proof. unfold suppressPath. simpl. repeat split. Qed.

Variable path_join : string -> string -> string.
Variable path_dirname : string -> string.
Variable fs_latency : FsCall -> Z.

Lemma await_fs_effects call w :
  effects (await_fs fs_latency call w) =
  effects w ++ [Fs call (suppressedPaths (self w))].
Proof. unfold await_fs. now rewrite effects_advance. Qed.

Lemma await_fs_self call w :
  workspaceRoot (self (await_fs fs_latency call w)) = workspaceRoot (self w) /\
  pendingFiles (self (await_fs fs_latency call w)) = pendingFiles (self w) /\
  syncCompleteCallback (self (await_fs fs_latency call w)) = syncCompleteCallback (self w).
Proof.
  unfold await_fs.
  destruct (advance_self
              (clock (emit (Fs call (suppressedPaths (self w))) w) + fs_latency call)
              (emit (Fs call (suppressedPaths (self w))) w)) as (H1 & H2 & H3).
  auto.
Qed.

End FileSyncFacts.

(** ** Remote file operations suppress before they touch the file tree *)

Section SuppressFirst.
Import Protocol FileSyncM.

Variable path_join : string -> string -> string.
Variable path_dirname : string -> string.
Variable fs_latency : FsCall -> Z.

#[local] Arguments advance : simpl never.
#[local] Arguments await_fs : simpl never.
#[local] Arguments safeWriteFile : simpl never.
#[local] Arguments suppressPath : simpl never.

Lemma safeWriteFile_effects filePath data w :
  exists later,
    effects (safeWriteFile path_dirname fs_latency filePath data w) =
    effects w ++ Fs (Mkdir (path_dirname filePath)) (suppressedPaths (self w)) :: later.
Proof.
  unfold safeWriteFile, ensureDir. rewrite !await_fs_effects, <- app_assoc. simpl.
  eexists. reflexivity.
Qed.

Lemma writeReceivedFile_effects msg writeOk w :
  exists later,
    effects (writeReceivedFile path_join path_dirname fs_latency msg writeOk w) =
    effects w ++
      Fs (Mkdir (path_dirname
                   (toAbsolutePath path_join (FileContentMessage.path msg)
                                   (workspaceRoot (self w)))))
         ({[FileContentMessage.path msg]} ∪ suppressedPaths (self w)) :: later.
Proof.
  unfold writeReceivedFile.
  set (abs := toAbsolutePath path_join _ _).
  set (data := fileData _ _).
  destruct (safeWriteFile_effects abs data (suppressPath (FileContentMessage.path msg) w))
    as [later Hl].
  remember (safeWriteFile path_dirname fs_latency abs data _) as w1 eqn:Hw1.
  clear Hw1.
  change (effects (suppressPath (FileContentMessage.path msg) w)) with (effects w) in Hl.
  change (suppressedPaths (self (suppressPath (FileContentMessage.path msg) w)))
    with ({[FileContentMessage.path msg]} ∪ suppressedPaths (self w)) in Hl.
  destruct writeOk; [|eexists; exact Hl].
  simpl. destruct (Nat.eqb _ 0); [|eexists; exact Hl].
  destruct (syncCompleteCallback _); simpl; [|eexists; exact Hl].
  unfold push. rewrite Hl, <- app_assoc. simpl. eexists. reflexivity.
Qed.

(** C10. Each remote-originated file operation ([writeReceivedFile],
    [createFile], [deleteFile], [renameFile] for the old and the new path)
    puts the affected relative path(s) into the suppression set before its
    first file-system call: whatever the state it starts from, the operation
    issues a file-system call, and at the moment the first one is issued
    [isSuppressed] holds of every affected path. *)
Theorem remote_operations_suppress_first (w : World) :
  (forall msg writeOk,
      mutation_begins_suppressed [FileContentMessage.path msg] w
        (writeReceivedFile path_join path_dirname fs_latency msg writeOk w)) /\
  (forall relativePath content encoding,
      mutation_begins_suppressed [relativePath] w
        (createFile path_join path_dirname fs_latency relativePath content encoding w)) /\
  (forall relativePath,
      mutation_begins_suppressed [relativePath] w
        (deleteFile path_join fs_latency relativePath w)) /\
  (forall oldPath newPath mkdirOk,
      mutation_begins_suppressed [oldPath; newPath] w
        (renameFile path_join path_dirname fs_latency oldPath newPath mkdirOk w)).
Proof.
  unfold mutation_begins_suppressed. repeat split.
  - intros msg writeOk.
    destruct (writeReceivedFile_effects msg writeOk w) as [later Hl].
    do 3 eexists. split; [exact Hl|].
    constructor; [set_solver | constructor].
  - intros relativePath content encoding. unfold createFile.
    destruct (safeWriteFile_effects
                (toAbsolutePath path_join relativePath (workspaceRoot (self w)))
                (fileData content encoding) (suppressPath relativePath w)) as [later Hl].
    do 3 eexists. split; [exact Hl|].
    constructor; [simpl; set_solver | constructor].
  - intros relativePath. unfold deleteFile, safeDeleteFile.
    rewrite await_fs_effects. do 3 eexists. split; [reflexivity|].
    constructor; [simpl; set_solver | constructor].
  - intros oldPath newPath mkdirOk. unfold renameFile.
    remember (suppressPath newPath (suppressPath oldPath w)) as w2 eqn:Hw2.
    assert (Hs : suppressedPaths (self w2) =
                 {[newPath]} ∪ ({[oldPath]} ∪ suppressedPaths (self w)))
      by (subst w2; reflexivity).
    assert (He : effects w2 = effects w) by (subst w2; reflexivity).
    clear Hw2. destruct mkdirOk.
    + rewrite !await_fs_effects, He, <- app_assoc. simpl.
      do 3 eexists. split; [reflexivity|].
      rewrite Hs. repeat constructor; set_solver.
    + rewrite await_fs_effects, He.
      do 3 eexists. split; [reflexivity|].
      rewrite Hs. repeat constructor; set_solver.
Qed.

End SuppressFirst.

(** ** The suppression window (src/fileSync.ts, [suppressPath]) *)

Section SuppressionWindow.
Import Protocol FileSyncM.

(** After a single [suppressPath(p)] with no older timer for [p] pending, the
    path is suppressed for exactly 3000 ms. *)
Lemma suppressPath_single_window p w t :
  no_timer_for p w ->
  clock w <= t ->
  isSuppressed p (advance t (suppressPath p w)) = (t <? clock w + 3000).
Proof.
  intros Hno Ht. unfold isSuppressed. rewrite suppressedPaths_advance.
  unfold suppressPath, setTimeout, push. simpl. rewrite filter_app, map_app. simpl.
  assert (Hold : p ∉ (list_to_set
            (List.map snd (List.filter (fun timer => fst timer <=? t) (timers w)))
            : gset string)).
  { rewrite elem_of_list_to_set, list_elem_of_In, in_map_iff.
    intros [tm [Heq Hin]]. apply filter_In in Hin as [Hin _].
    unfold no_timer_for in Hno. rewrite Forall_forall in Hno.
    exact (Hno tm Hin Heq). }
  destruct (Z.leb_spec (clock w + 3000) t) as [Hle|Hgt]; simpl.
  - destruct (Z.ltb_spec t (clock w + 3000)); [lia|].
    apply bool_decide_eq_false. rewrite list_to_set_app_L. set_solver.
  - destruct (Z.ltb_spec t (clock w + 3000)); [|lia].
    apply bool_decide_eq_true. rewrite app_nil_r. set_solver.
Qed.

(** C8 (what the code does under repeated suppression).  [suppressPath] is
    called for the same path at time 0 and again at time 2000.  The timer of
    the first call fires at time 3000 and removes the entry, so the path is no
    longer suppressed although only 1000 ms of the second call's window have
    passed; the second timer, at 5000, finds nothing to remove. *)
Lemma suppressPath_second_window_cut_short :
  let w1 := suppressPath "a.txt" (newFileSync "/ws" 0) in
  let w2 := suppressPath "a.txt" (advance 2000 w1) in
  clock w2 = 2000 /\
  isSuppressed "a.txt" w2 = true /\
  isSuppressed "a.txt" (advance 2999 w2) = true /\
  isSuppressed "a.txt" (advance 3000 w2) = false /\
  isSuppressed "a.txt" (advance 4999 w2) = false.
Proof.
  repeat split; vm_compute; reflexivity.
Qed.

End SuppressionWindow.

(** ** Initial synchronisation (src/fileSync.ts, [startInitialSync]) *)

Section InitialSync.
Import Protocol FileSyncM.

Variable path_join : string -> string -> string.
Variable path_dirname : string -> string.
Variable fs_latency : FsCall -> Z.

#[local] Arguments advance : simpl never.
#[local] Arguments await_fs : simpl never.
#[local] Arguments safeWriteFile : simpl never.
#[local] Arguments suppressPath : simpl never.
#[local] Arguments deleteFile : simpl never.

Lemma completions_app es1 es2 :
  completions (es1 ++ es2) = completions es1 ++ completions es2.
Proof. unfold completions. apply flat_map_app. Qed.

Lemma deleteFile_spec p w :
  effects (deleteFile path_join fs_latency p w) =
    effects w ++ [Fs (Unlink (toAbsolutePath path_join p (workspaceRoot (self w))))
                     ({[p]} ∪ suppressedPaths (self w))] /\
  workspaceRoot (self (deleteFile path_join fs_latency p w)) = workspaceRoot (self w) /\
  pendingFiles (self (deleteFile path_join fs_latency p w)) = pendingFiles (self w) /\
  syncCompleteCallback (self (deleteFile path_join fs_latency p w)) =
    syncCompleteCallback (self w).
Proof.
  unfold deleteFile, safeDeleteFile. rewrite await_fs_effects.
  destruct (await_fs_self fs_latency
              (Unlink (toAbsolutePath path_join p (workspaceRoot (self w))))
              (suppressPath p w)) as (H1 & H2 & H3).
  rewrite H1, H2, H3. repeat split.
Qed.

Lemma deleteAll_spec l w :
  let w' := fold_left (fun w filePath => deleteFile path_join fs_latency filePath w) l w in
  exists deletions,
    effects w' = effects w ++ deletions /\
    Forall2 (deletes path_join (workspaceRoot (self w))) l deletions /\
    workspaceRoot (self w') = workspaceRoot (self w) /\
    pendingFiles (self w') = pendingFiles (self w) /\
    syncCompleteCallback (self w') = syncCompleteCallback (self w).
Proof.
  cbv zeta. revert w. induction l as [|p l IH]; intros w; simpl.
  - exists []. rewrite app_nil_r. repeat split. constructor.
  - destruct (deleteFile_spec p w) as (He & Hr & Hp & Hc).
    destruct (IH (deleteFile path_join fs_latency p w)) as (ds & He' & Hds & Hr' & Hp' & Hc').
    eexists (_ :: ds). rewrite He', He, <- app_assoc. simpl.
    split; [reflexivity|]. rewrite Hr', Hp', Hc', Hr, Hp, Hc. repeat split.
    constructor.
    + eexists. split; [reflexivity | set_solver].
    + now rewrite Hr in Hds.
Qed.

Lemma requestLoop_spec fuel (l : list string) batchSize i w :
  (1 <= batchSize)%nat ->
  (List.length l - i < fuel)%nat ->
  let w' := requestLoop fuel l batchSize i w in
  exists batches,
    effects w' = effects w ++ List.map RequestFiles batches /\
    self w' = self w /\
    concat (List.map FileRequestMessage.paths batches) = skipn i l /\
    Forall (fun b => (1 <= List.length (FileRequestMessage.paths b) <= batchSize)%nat)
           batches.
Proof.
  cbv zeta. intros Hbs. revert i w.
  induction fuel as [|fuel IH]; intros i w Hfuel; [lia|].
  simpl. destruct (Nat.ltb_spec i (List.length l)) as [Hlt|Hge].
  - destruct (IH (i + batchSize)%nat
                 (emit (RequestFiles
                          {| FileRequestMessage.paths := slice l i (i + batchSize) |}) w))
      as (bs & He & Hs & Hc & Hf); [lia|].
    eexists (_ :: bs). simpl. rewrite He, Hs. simpl. unfold push.
    rewrite <- app_assoc. simpl. repeat split.
    + rewrite Hc. unfold slice.
      replace (i + batchSize - i)%nat with batchSize by lia.
      rewrite Nat.add_comm, <- skipn_skipn. apply firstn_skipn.
    + constructor; [|exact Hf]. simpl. unfold slice.
      replace (i + batchSize - i)%nat with batchSize by lia.
      rewrite length_firstn, length_skipn. lia.
  - exists []. simpl. rewrite app_nil_r. repeat split.
    + symmetry. apply skipn_all2. lia.
    + constructor.
Qed.

Lemma safeWriteFile_spec filePath data w :
  let w' := safeWriteFile path_dirname fs_latency filePath data w in
  (exists calls, effects w' = effects w ++ calls /\ completions calls = []) /\
  pendingFiles (self w') = pendingFiles (self w) /\
  syncCompleteCallback (self w') = syncCompleteCallback (self w).
Proof.
  cbv zeta. unfold safeWriteFile, ensureDir. rewrite !await_fs_effects, <- app_assoc.
  split; [eexists; split; [reflexivity | reflexivity]|].
  destruct (await_fs_self fs_latency (Mkdir (path_dirname filePath)) w) as (_ & H2 & H3).
  destruct (await_fs_self fs_latency (WriteFile filePath data)
              (await_fs fs_latency (Mkdir (path_dirname filePath)) w)) as (_ & H2' & H3').
  rewrite H2', H3', H2, H3. split; reflexivity.
Qed.

Lemma writeReceivedFile_step cb es0 msg writeOk w :
  sync_state cb es0 w ->
  let w' := writeReceivedFile path_join path_dirname fs_latency msg writeOk w in
  sync_state cb es0 w' /\
  pendingFiles (self w') =
    if writeOk then pendingFiles (self w) ∖ {[FileContentMessage.path msg]}
    else pendingFiles (self w).
Proof.
  intros Hst. cbv zeta. unfold writeReceivedFile.
  set (abs := toAbsolutePath path_join _ _).
  set (data := fileData _ _).
  destruct (safeWriteFile_spec abs data (suppressPath (FileContentMessage.path msg) w))
    as ((calls & He & Hcalls) & Hp & Hc).
  remember (safeWriteFile path_dirname fs_latency abs data _) as w1 eqn:Hw1. clear Hw1.
  change (effects (suppressPath (FileContentMessage.path msg) w)) with (effects w) in He.
  change (pendingFiles (self (suppressPath (FileContentMessage.path msg) w)))
    with (pendingFiles (self w)) in Hp.
  change (syncCompleteCallback (self (suppressPath (FileContentMessage.path msg) w)))
    with (syncCompleteCallback (self w)) in Hc.
  assert (Hst1 : sync_state cb es0 w1).
  { destruct Hst as [later Hcb Hpend Heff Hcompl | later Hcb Hpend Heff Hcompl].
    - apply Waiting with (later := later ++ calls); try congruence.
      + now rewrite He, Heff, app_assoc.
      + now rewrite completions_app, Hcompl, Hcalls.
    - apply Completed with (later := later ++ calls); try congruence.
      + now rewrite He, Heff, app_assoc.
      + now rewrite completions_app, Hcompl, Hcalls. }
  destruct writeOk; simpl; [|split; [exact Hst1 | exact Hp]].
  rewrite <- Hp.
  destruct (Nat.eqb_spec (base.size (pendingFiles (self w1) ∖ {[FileContentMessage.path msg]})) 0)
    as [Hz|Hnz].
  - apply size_empty_inv in Hz. apply leibniz_equiv in Hz.
    destruct Hst1 as [later Hcb Hpend Heff Hcompl | later Hcb Hpend Heff Hcompl].
    + rewrite Hcb. simpl. split; [|reflexivity].
      apply Completed with (later := later ++ [OnComplete cb]); simpl; auto.
      * unfold push. now rewrite Heff, app_assoc.
      * now rewrite completions_app, Hcompl.
    + rewrite Hcb. simpl. split; [|reflexivity].
      apply Completed with (later := later); simpl; auto.
  - simpl. split; [|reflexivity].
    assert (Hne : pendingFiles (self w1) ∖ {[FileContentMessage.path msg]} <> ∅).
    { intros Heq. apply Hnz. rewrite Heq. apply size_empty. }
    destruct Hst1 as [later Hcb Hpend Heff Hcompl | later Hcb Hpend Heff Hcompl].
    + apply Waiting with (later := later); simpl; auto.
    + exfalso. apply Hne. rewrite Hpend. set_solver.
Qed.

Lemma receiveAll_spec cb es0 received w :
  sync_state cb es0 w ->
  let w' := receiveAll path_join path_dirname fs_latency received w in
  sync_state cb es0 w' /\
  pendingFiles (self w') = pendingFiles (self w) ∖ written received.
Proof.
  cbv zeta. revert w. induction received as [|[msg ok] received IH]; intros w Hst; simpl.
  - split; [exact Hst|]. unfold written. simpl. set_solver.
  - destruct (writeReceivedFile_step cb es0 msg ok w Hst) as [Hst1 Hp1].
    destruct (IH _ Hst1) as [Hst2 Hp2]. split; [exact Hst2|].
    change (fold_left _ received ?w0)
      with (receiveAll path_join path_dirname fs_latency received w0).
    rewrite Hp2, Hp1.
    unfold written. destruct ok; simpl; set_solver.
Qed.


Lemma writeReceivedFile_idle msg writeOk w :
  syncCompleteCallback (self w) = None ->
  let w' := writeReceivedFile path_join path_dirname fs_latency msg writeOk w in
  syncCompleteCallback (self w') = None /\
  exists later, effects w' = effects w ++ later /\ completions later = [].
Proof.
  intros Hcb. cbv zeta. unfold writeReceivedFile.
  set (abs := toAbsolutePath path_join _ _).
  set (data := fileData _ _).
  destruct (safeWriteFile_spec abs data (suppressPath (FileContentMessage.path msg) w))
    as ((calls & He & Hcalls) & _ & Hc).
  remember (safeWriteFile path_dirname fs_latency abs data _) as w1 eqn:Hw1. clear Hw1.
  change (effects (suppressPath (FileContentMessage.path msg) w)) with (effects w) in He.
  change (syncCompleteCallback (self (suppressPath (FileContentMessage.path msg) w)))
    with (syncCompleteCallback (self w)) in Hc.
  rewrite Hcb in Hc.
  destruct writeOk; simpl; [|split; [exact Hc | eauto]].
  destruct (Nat.eqb _ 0); simpl; rewrite ?Hc; simpl; split; eauto.
Qed.

Lemma receiveAll_idle received w :
  syncCompleteCallback (self w) = None ->
  exists later,
    effects (receiveAll path_join path_dirname fs_latency received w) =
      effects w ++ later /\
    completions later = [].
Proof.
  revert w. induction received as [|[msg ok] received IH]; intros w Hcb; simpl.
  - exists []. now rewrite app_nil_r.
  - destruct (writeReceivedFile_idle msg ok w Hcb) as (Hcb1 & l1 & He1 & Hc1).
    destruct (IH _ Hcb1) as (l2 & He2 & Hc2).
    exists (l1 ++ l2). unfold receiveAll in *. simpl. rewrite He2, He1, <- app_assoc.
    split; [reflexivity|]. now rewrite completions_app, Hc1, Hc2.
Qed.

(** What one arriving file does: the directory is made and the file written,
    under its absolute path and with the content of the message; the
    callback, if one is set, is invoked after the write, and only when the
    write succeeded and left nothing pending. *)
Lemma writeReceivedFile_trace msg writeOk w :
  let p := FileContentMessage.path msg in
  let absolutePath := toAbsolutePath path_join p (workspaceRoot (self w)) in
  let w' := writeReceivedFile path_join path_dirname fs_latency msg writeOk w in
  workspaceRoot (self w') = workspaceRoot (self w) /\
  exists duringWrite,
    effects w' =
      effects w ++
      [Fs (Mkdir (path_dirname absolutePath)) ({[p]} ∪ suppressedPaths (self w));
       Fs (WriteFile absolutePath
                     (fileData (FileContentMessage.content msg)
                               (FileContentMessage.encoding msg))) duringWrite] ++
      (if writeOk then
         if Nat.eqb (base.size (pendingFiles (self w) ∖ {[p]})) 0 then
           match syncCompleteCallback (self w) with
           | Some cb => [OnComplete cb]
           | None => []
           end
         else []
       else []).
Proof.
  cbv zeta. unfold writeReceivedFile, safeWriteFile, ensureDir.
  set (p := FileContentMessage.path msg).
  set (abs := toAbsolutePath path_join p (workspaceRoot (self w))).
  set (data := fileData _ _).
  set (w0 := suppressPath p w).
  set (w1 := await_fs fs_latency (Mkdir (path_dirname abs)) w0).
  set (w2 := await_fs fs_latency (WriteFile abs data) w1).
  destruct (await_fs_self fs_latency (Mkdir (path_dirname abs)) w0) as (Hr1 & Hp1 & Hc1).
  destruct (await_fs_self fs_latency (WriteFile abs data) w1) as (Hr2 & Hp2 & Hc2).
  fold w1 in Hr1, Hp1, Hc1, Hr2, Hp2, Hc2. fold w2 in Hr2, Hp2, Hc2.
  assert (He : effects w2 =
               effects w ++ [Fs (Mkdir (path_dirname abs)) ({[p]} ∪ suppressedPaths (self w));
                             Fs (WriteFile abs data) (suppressedPaths (self w1))]).
  { subst w2 w1. rewrite !await_fs_effects, <- app_assoc. reflexivity. }
  assert (Hr : workspaceRoot (self w2) = workspaceRoot (self w))
    by (rewrite Hr2, Hr1; reflexivity).
  assert (Hp : pendingFiles (self w2) = pendingFiles (self w))
    by (rewrite Hp2, Hp1; reflexivity).
  assert (Hc : syncCompleteCallback (self w2) = syncCompleteCallback (self w))
    by (rewrite Hc2, Hc1; reflexivity).
  clearbody w2. destruct writeOk; cbn [self pendingFiles set_pendingFiles].
  2:{ split; [exact Hr|]. eexists. cbn. rewrite He, ?app_nil_r. reflexivity. }
  rewrite Hp.
  destruct (Nat.eqb _ 0).
  2:{ split; [exact Hr|]. eexists. cbn. rewrite He, ?app_nil_r. reflexivity. }
  rewrite Hc. destruct (syncCompleteCallback (self w)) as [cb|].
  2:{ split; [exact Hr|]. eexists. cbn. rewrite He, ?app_nil_r. reflexivity. }
  split; [exact Hr|]. eexists. cbn. unfold push. rewrite He, <- app_assoc. reflexivity.
Qed.

Lemma receiveAll_root received w :
  workspaceRoot (self (receiveAll path_join path_dirname fs_latency received w)) =
  workspaceRoot (self w).
Proof.
  revert w. induction received as [|[msg ok] received IH]; intros w; [reflexivity|].
  unfold receiveAll in *. simpl. rewrite IH.
  apply (writeReceivedFile_trace msg ok w).
Qed.

(** C3. [startInitialSync] first deletes every [toDelete] path (each one
    suppressed when its [unlink] is issued), and only then either reports
    completion at once (empty [toDownload]: the callback is invoked inside the
    call and no file request is sent) or requests the [toDownload] paths in
    batches of 1 to 10 paths that together are [toDownload], each path once and
    in order.  In the second case, after any sequence of received files the
    pending set is [toDownload] minus the paths written, and the completion
    callback has been invoked exactly once if that set is empty and not at
    all otherwise.  Every file that arrives is written: its directory is made
    (the path being suppressed by then) and [writeFile] is called on its
    absolute path with the content of the message; the callback is invoked
    right after that call, and only if the write succeeded and the file was
    the last one pending: it fires once, at the write that empties the
    pending set. *)
Theorem startInitialSync_correct localManifest manifest onComplete w :
  let d := compareManifest localManifest (FileManifestMessage.files manifest) in
  let w' := startInitialSync path_join fs_latency localManifest manifest onComplete w in
  exists deletions rest,
    effects w' = effects w ++ deletions ++ rest /\
    Forall2 (deletes path_join (workspaceRoot (self w))) (toDelete d) deletions /\
    (toDownload d = [] ->
       rest = [OnComplete onComplete] /\
       (syncCompleteCallback (self w) = None ->
        forall received, exists later,
          effects (receiveAll path_join path_dirname fs_latency received w') =
            effects w' ++ later /\
          completions later = [])) /\
    (toDownload d <> [] ->
       exists batches,
         rest = List.map RequestFiles batches ++
                [WithProgress (List.length (toDownload d))] /\
         List.concat (List.map FileRequestMessage.paths batches) = toDownload d /\
         Forall (fun b => (1 <= List.length (FileRequestMessage.paths b) <= 10)%nat)
                batches /\
         NoDup (toDownload d) /\
         (forall received,
            let w'' := receiveAll path_join path_dirname fs_latency received w' in
            exists later,
              effects w'' = effects w' ++ later /\
              pendingFiles (self w'') =
                list_to_set (toDownload d) ∖ written received /\
              completions later =
                if decide (pendingFiles (self w'') = ∅) then [onComplete] else []) /\
         (forall received msg writeOk,
            let before := receiveAll path_join path_dirname fs_latency received w' in
            let after :=
              writeReceivedFile path_join path_dirname fs_latency msg writeOk before in
            let absolutePath :=
              toAbsolutePath path_join (FileContentMessage.path msg)
                             (workspaceRoot (self w)) in
            exists duringMkdir duringWrite,
              FileContentMessage.path msg ∈ duringMkdir /\
              effects after =
                effects before ++
                [Fs (Mkdir (path_dirname absolutePath)) duringMkdir;
                 Fs (WriteFile absolutePath
                               (fileData (FileContentMessage.content msg)
                                         (FileContentMessage.encoding msg)))
                    duringWrite] ++
                (if decide (writeOk = true /\
                            pendingFiles (self before) = {[FileContentMessage.path msg]})
                 then [OnComplete onComplete] else []))).
Proof.
  intros d w'. subst w'. unfold startInitialSync. fold d.
  destruct (deleteAll_spec (toDelete d) w) as (deletions & He & Hdel & Hr & Hp & Hc).
  remember (fold_left _ (toDelete d) w) as w1 eqn:Hw1. clear Hw1.
  exists deletions.
  destruct (toDownload d) as [|p0 rest0] eqn:Hdown.
  - exists [OnComplete onComplete]. simpl.
    split; [unfold push; now rewrite He, <- app_assoc|].
    split; [exact Hdel|]. split; [|congruence].
    intros _. split; [reflexivity|]. intros Hnone received.
    apply (receiveAll_idle received (emit (OnComplete onComplete) w1)).
    simpl. congruence.
  - set (l := p0 :: rest0) in *.
    change (Nat.eqb (List.length l) 0) with false. cbv iota zeta.
    set (w2 := set_syncCompleteCallback (Some onComplete)
                 (set_pendingFiles (list_to_set l) w1)).
    destruct (requestLoop_spec (S (List.length l)) l 10 0 w2)
      as (batches & Hbe & Hbs & Hbc & Hbf); [lia | lia |].
    remember (requestLoop (S (List.length l)) l 10 0 w2) as w3 eqn:Hw3. clear Hw3.
    exists (List.map RequestFiles batches ++ [WithProgress (List.length l)]).
    split.
    { simpl. unfold push. rewrite Hbe. simpl. rewrite He. now rewrite <- !app_assoc. }
    split; [exact Hdel|]. split; [discriminate|]. intros _.
    exists batches. split; [reflexivity|]. split; [exact Hbc|]. split; [exact Hbf|].
    split.
    { rewrite <- Hdown. apply toDownload_NoDup. }
    set (w4 := emit (WithProgress (List.length l)) w3).
    assert (Hst : sync_state onComplete (effects w4) w4).
    { apply Waiting with (later := []).
      - simpl. now rewrite Hbs.
      - simpl. rewrite Hbs. simpl. subst l. set_solver.
      - now rewrite app_nil_r.
      - reflexivity. }
    assert (Hp4 : pendingFiles (self w4) = list_to_set l).
    { simpl. now rewrite Hbs. }
    assert (Hr4 : workspaceRoot (self w4) = workspaceRoot (self w)).
    { simpl. now rewrite Hbs. }
    clearbody w4. split.
    + intros received.
      destruct (receiveAll_spec onComplete (effects w4) received w4 Hst) as [Hst' Hpend].
      cbv zeta.
      destruct Hst' as [later Hcb Hne Heff Hcompl | later Hcb Hempty Heff Hcompl];
        exists later; (split; [exact Heff|]);
        (split; [rewrite Hpend, Hp4; reflexivity|]);
        rewrite Hcompl; case_decide; congruence.
    + intros received msg writeOk. cbv zeta.
      destruct (receiveAll_spec onComplete (effects w4) received w4 Hst) as [Hst' _].
      pose proof (receiveAll_root received w4) as Hroot. rewrite Hr4 in Hroot.
      remember (receiveAll path_join path_dirname fs_latency received w4) as w5 eqn:Hw5.
      clear Hw5.
      destruct (writeReceivedFile_trace msg writeOk w5) as (_ & duringWrite & Htrace).
      rewrite Hroot in Htrace.
      exists ({[FileContentMessage.path msg]} ∪ suppressedPaths (self w5)), duringWrite.
      split; [set_solver|]. rewrite Htrace. do 2 f_equal.
      destruct writeOk.
      2:{ rewrite decide_False by (intros [Hf _]; discriminate Hf). reflexivity. }
      destruct (Nat.eqb_spec
                  (base.size (pendingFiles (self w5) ∖ {[FileContentMessage.path msg]})) 0)
        as [Hz|Hnz].
      * apply size_empty_inv in Hz. apply leibniz_equiv in Hz.
        destruct Hst' as [later Hcb Hne Heff Hcompl | later Hcb Hempty Heff Hcompl];
          rewrite Hcb.
        -- assert (Hlast : pendingFiles (self w5) = {[FileContentMessage.path msg]});
             [|now rewrite decide_True by (split; [reflexivity | exact Hlast])].
           apply leibniz_equiv. apply set_equiv. intros x. split.
           ++ intros Hx. destruct (decide (x = FileContentMessage.path msg)) as [->|Hxp];
                [set_solver|]. exfalso.
              assert (Hin : x ∈ pendingFiles (self w5) ∖ {[FileContentMessage.path msg]})
                by set_solver.
              rewrite Hz in Hin. set_solver.
           ++ intros Hx. apply elem_of_singleton in Hx. subst x.
              destruct (decide (FileContentMessage.path msg ∈ pendingFiles (self w5)))
                as [Hin|Hnot]; [exact Hin|]. exfalso. apply Hne.
              apply leibniz_equiv. apply set_equiv. intros y. split; [|set_solver].
              intros Hy.
              assert (Hin : y ∈ pendingFiles (self w5) ∖ {[FileContentMessage.path msg]})
                by set_solver.
              rewrite Hz in Hin. set_solver.
        -- rewrite decide_False; [reflexivity|]. intros [_ Heq].
           rewrite Hempty in Heq. set_solver.
      * rewrite decide_False; [reflexivity|]. intros [_ Heq]. apply Hnz.
        rewrite Heq. replace ({[FileContentMessage.path msg]} ∖ {[FileContentMessage.path msg]})
          with (∅ : gset string) by set_solver.
        apply size_empty.
Qed.

End InitialSync.

(** A concrete run: local [a.txt], remote [b.txt], a fresh engine; then
    [b.txt] arrives and is written. *)
Lemma startInitialSync_correct_witness :
  let path_join := fun root rel : string => String.append root (String.append "/" rel) in
  let path_dirname := fun p : string => p in
  let fs_latency := fun _ : FileSyncM.FsCall => 5 in
  let localManifest := [Protocol.mkFileInfo "a.txt" "H1" 1] in
  let manifest := Protocol.FileManifestMessage.mk [Protocol.mkFileInfo "b.txt" "H2" 2] in
  let d := FileSyncM.compareManifest localManifest
             (Protocol.FileManifestMessage.files manifest) in
  let w := FileSyncM.newFileSync "/ws" 0 in
  let w' := FileSyncM.startInitialSync path_join fs_latency localManifest manifest 7%nat w in
  let msg := Protocol.FileContentMessage.mk "b.txt" "hello" Protocol.utf8 in
  let after := FileSyncM.writeReceivedFile path_join path_dirname fs_latency msg true w' in
  FileSyncM.toDownload d <> [] /\
  (exists batches,
     List.concat (List.map Protocol.FileRequestMessage.paths batches) = ["b.txt"%string] /\
     forall received,
       exists later,
         FileSyncM.effects
           (FileSyncM.receiveAll path_join path_dirname fs_latency received w') =
           FileSyncM.effects w' ++ later /\
         FileSyncM.completions later =
           if decide (FileSyncM.pendingFiles
                        (FileSyncM.self
                           (FileSyncM.receiveAll path_join path_dirname fs_latency
                                                 received w')) = ∅)
           then [7%nat] else []) /\
  exists duringMkdir duringWrite,
    FileSyncM.effects after =
      FileSyncM.effects w' ++
      [FileSyncM.Fs (FileSyncM.Mkdir "/ws/b.txt") duringMkdir;
       FileSyncM.Fs (FileSyncM.WriteFile "/ws/b.txt" (FileSyncM.TextData "hello"))
                    duringWrite;
       FileSyncM.OnComplete 7%nat].
Proof.
  intros path_join path_dirname fs_latency localManifest manifest d w w' msg after.
  assert (Hne : FileSyncM.toDownload d <> []) by discriminate.
  split; [exact Hne|].
  destruct (startInitialSync_correct path_join path_dirname fs_latency
              localManifest manifest 7%nat w)
    as (deletions & rest & _ & _ & _ & Hrun).
  destruct (Hrun Hne) as (batches & _ & Hconcat & _ & _ & Hrecv & Hwrite).
  split.
  - exists batches. split; [exact Hconcat|].
    intros received. destruct (Hrecv received) as (later & Heff & _ & Hcompl).
    exists later. split; [exact Heff | exact Hcompl].
  - destruct (Hwrite [] msg true) as (duringMkdir & duringWrite & _ & Htrace).
    exists duringMkdir, duringWrite.
    rewrite decide_True in Htrace; [exact Htrace|].
    split; [reflexivity|]. vm_compute. reflexivity.
Defined.

(** ** Self-echo suppression (src/documentSync.ts, [applyRemoteEdit]) *)

Section SelfEcho.
Import Protocol DocumentSyncM.

Variable Editor : Type.
Variable path_join : string -> string -> string.
Variable openTextDocument : Editor -> string -> option Editor.
Variable applyEdit : Editor -> string -> list (Range * string) -> option Editor.
Variable open_latency : string -> Z.
Variable edit_latency : string -> list (Range * string) -> Z.

(** A remote edit of another user, on a document that opens and takes the
    edit, with no timer of an earlier edit pending: the buffer changes, the
    version of the path is the message's, the guard is up and a timer is
    pending to take it down 50 ms after the edit was applied. *)
Lemma applyRemoteEdit_other_user msg (w : World Editor) opened edited :
  DocEditMessage.userId msg <> userId (self w) ->
  timers w = [] ->
  openTextDocument (editor w)
    (path_join (workspaceRoot (self w)) (DocEditMessage.path msg)) = Some opened ->
  (forall edit,
      applyEdit opened (path_join (workspaceRoot (self w)) (DocEditMessage.path msg)) edit
      = Some edited) ->
  let w' := applyRemoteEdit Editor path_join openTextDocument applyEdit
              open_latency edit_latency msg w in
  editor w' = edited /\
  applyingRemoteEdit (self w') = true /\
  getVersion Editor (DocEditMessage.path msg) w' = DocEditMessage.version msg /\
  timers w' = [clock w' + 50].
Proof.
  intros Hne Hnone Hopen Happly. cbv zeta. unfold applyRemoteEdit, await, advance.
  apply String.eqb_neq in Hne. rewrite Hne, Hopen, Hnone. simpl. rewrite Happly. simpl.
  unfold getVersion. simpl. rewrite lookup_insert_eq. repeat split.
Qed.

(** C2. A [DocEdit] whose [userId] is the synchroniser's own identity is a
    no-op: the buffers of the editor, the version map, the re-entrancy flag
    and the pending timers are all what they were. *)
Theorem applyRemoteEdit_self_echo msg (w : World Editor) :
  DocEditMessage.userId msg = userId (self w) ->
  applyRemoteEdit Editor path_join openTextDocument applyEdit
                  open_latency edit_latency msg w = w.
Proof.
  intros Hself. unfold applyRemoteEdit.
  destruct (String.eqb_spec (DocEditMessage.userId msg) (userId (self w))) as [_|Hne].
  - reflexivity.
  - contradiction.
Qed.

End SelfEcho.

(** The guard at work on an editor that records what it is asked to apply. *)
Lemma applyRemoteEdit_self_echo_witness :
  let openTextDocument := fun (e : list (string * nat)) (_ : string) => Some e in
  let applyEdit :=
    fun (e : list (string * nat)) (uri : string)
        (edit : list (DocumentSyncM.Range * string)) =>
      Some (e ++ [(uri, List.length edit)]) in
  let open_latency := fun _ : string => 40 in
  let edit_latency := fun (_ : string) (_ : list (DocumentSyncM.Range * string)) => 100 in
  let msg :=
    Protocol.DocEditMessage.mk "x.py"
      [Protocol.TextChange.mk 0 0 "hi" 0 0 0 0] 1 "A" in
  let w :=
    DocumentSyncM.mkWorld _
      (DocumentSyncM.mkDocumentSync "/ws" ∅ false "A") [] 0 [] in
  Protocol.DocEditMessage.userId msg = DocumentSyncM.userId (DocumentSyncM.self w) /\
  DocumentSyncM.applyRemoteEdit _ String.append openTextDocument applyEdit
                                open_latency edit_latency msg w = w.
Proof.
  intros openTextDocument applyEdit open_latency edit_latency msg w.
  split; [reflexivity|].
  apply (applyRemoteEdit_self_echo _ String.append openTextDocument applyEdit
           open_latency edit_latency msg w).
  reflexivity.
Defined.

(** ** Reconnect policy (src/client.ts) *)

Section Reconnect.
Import Client.

Lemma reconnectDelays_app es1 es2 :
  reconnectDelays (es1 ++ es2) = reconnectDelays es1 ++ reconnectDelays es2.
Proof. unfold reconnectDelays. apply flat_map_app. Qed.

Lemma on_close_schedules c :
  shouldReconnect c = true ->
  reconnectAttempts c < maxReconnectAttempts ->
  reconnectDelays (effects (on_close c)) =
    reconnectDelays (effects c) ++ [Z.min (1000 * 2 ^ (reconnectAttempts c + 1)) 30000] /\
  reconnectAttempts (on_close c) = reconnectAttempts c + 1 /\
  shouldReconnect (on_close c) = true.
Proof.
  intros Hshould Hlt. unfold on_close. simpl. rewrite Hshould.
  destruct (Z.ltb_spec (reconnectAttempts c) maxReconnectAttempts); [|lia].
  simpl. unfold push. rewrite !reconnectDelays_app. simpl.
  rewrite !app_nil_r. repeat split.
Qed.

Lemma on_close_gives_up c :
  maxReconnectAttempts <= reconnectAttempts c ->
  reconnectDelays (effects (on_close c)) = reconnectDelays (effects c) /\
  reconnectAttempts (on_close c) = reconnectAttempts c.
Proof.
  intros Hge. unfold on_close. simpl.
  destruct (Z.ltb_spec (reconnectAttempts c) maxReconnectAttempts); [lia|].
  rewrite andb_false_r. simpl. unfold push. rewrite !reconnectDelays_app. simpl.
  rewrite !app_nil_r. split; reflexivity.
Qed.

Lemma step_gives_up c e :
  maxReconnectAttempts <= reconnectAttempts c ->
  e <> Open ->
  reconnectDelays (effects (step c e)) = reconnectDelays (effects c) /\
  maxReconnectAttempts <= reconnectAttempts (step c e).
Proof.
  intros Hge Hne. destruct e; simpl.
  - contradiction.
  - destruct (on_close_gives_up c Hge) as [Hd Ha]. rewrite Hd, Ha. auto.
  - unfold on_reconnect_timer, connect. simpl. unfold push.
    rewrite reconnectDelays_app. simpl. rewrite app_nil_r. auto.
  - unfold disconnect. destruct c as [[|] ? ? ? [|] ?]; simpl; unfold push;
      rewrite !reconnectDelays_app; simpl; rewrite !app_nil_r; auto.
Qed.

Lemma run_gives_up evs c :
  maxReconnectAttempts <= reconnectAttempts c ->
  Forall (fun e => e <> Open) evs ->
  reconnectDelays (effects (run evs c)) = reconnectDelays (effects c).
Proof.
  revert c. induction evs as [|e evs IH]; intros c Hge Hall; simpl; [reflexivity|].
  inversion Hall as [|? ? Hne Hall']; subst.
  destruct (step_gives_up c e Hge Hne) as [Hd Ha].
  unfold run in IH. rewrite IH; auto.
Qed.

Lemma run_app evs1 evs2 c : run (evs1 ++ evs2) c = run evs2 (run evs1 c).
Proof. unfold run. apply fold_left_app. Qed.

(** C4. For the reconnect attempts n = 1..10 the timer is set to
    min(1000 * 2^n, 30000) ms; once the counter has reached 10, no sequence of
    further closes, timer callbacks or disconnects sets a reconnect timer
    again (only an opening socket would reset the counter); an opening socket
    sets the counter to zero; and a client whose socket never opens sets
    exactly the ten timers 2000, 4000, 8000, 16000 and six times 30000. *)
Theorem reconnect_backoff_schedule :
  (forall c n,
      1 <= n <= 10 ->
      shouldReconnect c = true ->
      reconnectAttempts c = n - 1 ->
      reconnectDelays (effects (on_close c)) =
        reconnectDelays (effects c) ++ [Z.min (1000 * 2 ^ n) 30000] /\
      reconnectAttempts (on_close c) = n) /\
  (forall c evs,
      reconnectAttempts c = 10 ->
      Forall (fun e => e <> Open) evs ->
      reconnectDelays (effects (run evs c)) = reconnectDelays (effects c)) /\
  (forall c, reconnectAttempts (on_open c) = 0) /\
  (forall k,
      reconnectDelays (effects (run (repeat Close k) newCollabClient)) =
      firstn k [2000; 4000; 8000; 16000; 30000; 30000; 30000; 30000; 30000; 30000]).
Proof.
  split; [|split; [|split]].
  - intros c n Hn Hshould Hatt.
    destruct (on_close_schedules c Hshould) as (Hd & Ha & _).
    { unfold maxReconnectAttempts. lia. }
    rewrite Hd, Ha, Hatt. replace (n - 1 + 1) with n by lia. auto.
  - intros c evs Hatt Hall. apply run_gives_up; [|exact Hall].
    unfold maxReconnectAttempts. lia.
  - intros c. reflexivity.
  - intros k. destruct (Nat.le_gt_cases k 10) as [Hle|Hgt].
    + do 11 (destruct k as [|k]; [reflexivity|]). lia.
    + replace k with (10 + (k - 10))%nat by lia.
      rewrite repeat_app, run_app, run_gives_up.
      * rewrite firstn_all2 by (simpl; lia). reflexivity.
      * vm_compute. discriminate.
      * clear. induction (k - 10)%nat; simpl; constructor; [discriminate | assumption].
Qed.

End Reconnect.

(** The third attempt of a client that wants to reconnect waits 8 seconds. *)
Lemma reconnect_backoff_schedule_witness :
  let c := Client.mkCollabClient true false true 2 true [] in
  1 <= 3 <= 10 /\
  Client.shouldReconnect c = true /\
  Client.reconnectAttempts c = 3 - 1 /\
  Client.reconnectDelays (Client.effects (Client.on_close c)) = [8000] /\
  Client.reconnectAttempts (Client.on_close c) = 3.
Proof.
  intros c.
  split; [lia|]. split; [reflexivity|]. split; [reflexivity|].
  destruct reconnect_backoff_schedule as [Hschedule _].
  exact (Hschedule c 3 ltac:(lia) eq_refl eq_refl).
Defined.

(** ** The host (src/server.ts) *)

Section ServerFacts.
Import Protocol Server.

Lemma fold_left_push_map {A B : Type} (f : A -> B) (l : list A) (acc : list B) :
  fold_left (fun acc x => push acc (f x)) l acc = acc ++ List.map f l.
Proof.
  revert acc. induction l as [|a l IH]; intros acc; simpl.
  - now rewrite app_nil_r.
  - rewrite IH. unfold push. now rewrite <- app_assoc.
Qed.

Lemma getAllUsers_spec w :
  getAllUsers w = hostUser (self w) :: List.map user (JsMap.values (clients (self w))).
Proof. unfold getAllUsers. now rewrite fold_left_push_map. Qed.

(** A loop that sends to the selected entries changes nothing but the effects. *)
Lemma send_loop_spec {A : Type} (sel : A -> bool) (socketOf : A -> WebSocket)
      (open : World -> A -> bool) msg (l : list A) w :
  (forall w e a, open (emit e w) a = open w a) ->
  let w' := fold_left
              (fun w a => if sel a && open w a then emit (Send (socketOf a) msg) w else w)
              l w in
  effects w' =
    effects w ++ List.map (fun a => Send (socketOf a) msg)
                          (List.filter (fun a => sel a && open w a) l) /\
  self w' = self w /\ readyState w' = readyState w /\ clientIdOf w' = clientIdOf w.
Proof.
  intros Hopen. cbv zeta. revert w. induction l as [|a l IH]; intros w; simpl.
  - now rewrite app_nil_r.
  - destruct (sel a && open w a) eqn:E.
    + destruct (IH (emit (Send (socketOf a) msg) w)) as (He & Hs & Hr & Hc).
      rewrite He, Hs, Hr, Hc. simpl. unfold push. rewrite <- app_assoc. simpl.
      repeat split. do 3 f_equal. apply filter_ext. intros b. now rewrite Hopen.
    + apply IH.
Qed.

Lemma broadcast_spec msg w :
  effects (broadcast msg w) =
    effects w ++ List.map (fun client => Send (ws client) msg)
                          (List.filter (fun client => isOpen (readyState w (ws client)))
                                       (JsMap.values (clients (self w)))) /\
  self (broadcast msg w) = self w /\
  readyState (broadcast msg w) = readyState w /\
  clientIdOf (broadcast msg w) = clientIdOf w.
Proof.
  unfold broadcast.
  destruct (send_loop_spec (fun _ : ClientConnection => true) ws
              (fun w client => isOpen (readyState w (ws client))) msg
              (JsMap.values (clients (self w))) w) as (He & Hs & Hr & Hc);
    [reflexivity|].
  simpl in *. rewrite He, Hs, Hr, Hc. repeat split.
Qed.

Lemma broadcastExcept_spec excludeUserId msg w :
  effects (broadcastExcept excludeUserId msg w) =
    effects w ++
    List.map (fun entry : string * ClientConnection => Send (ws (snd entry)) msg)
             (List.filter
                (fun entry : string * ClientConnection =>
                   negb (String.eqb (fst entry) excludeUserId) &&
                   isOpen (readyState w (ws (snd entry))))
                (clients (self w))) /\
  self (broadcastExcept excludeUserId msg w) = self w /\
  readyState (broadcastExcept excludeUserId msg w) = readyState w /\
  clientIdOf (broadcastExcept excludeUserId msg w) = clientIdOf w.
Proof.
  unfold broadcastExcept, JsMap.entries.
  destruct (send_loop_spec
              (fun entry : string * ClientConnection =>
                 negb (String.eqb (fst entry) excludeUserId))
              (fun entry : string * ClientConnection => ws (snd entry))
              (fun w (entry : string * ClientConnection) =>
                 isOpen (readyState w (ws (snd entry)))) msg
              (clients (self w)) w) as (He & Hs & Hr & Hc);
    [reflexivity|].
  cbv zeta in *.
  match goal with
  | |- effects ?x = _ /\ _ =>
      match type of He with
      | effects ?y = _ => replace x with y
      end
  end.
  - rewrite He, Hs, Hr, Hc. repeat split.
  - apply fold_left_pointwise. intros w0 [k c]. reflexivity.
Qed.

Lemma filter_other_keys_set {V : Type} (sel : string * V -> bool) k v (m : JsMap.t V) :
  List.filter (fun e => negb (String.eqb (fst e) k) && sel e) (JsMap.set k v m) =
  List.filter (fun e => negb (String.eqb (fst e) k) && sel e) m.
Proof.
  induction m as [|[k0 v0] m IH]; simpl.
  - now rewrite String.eqb_refl.
  - destruct (String.eqb_spec k k0) as [->|Hne]; simpl.
    + now rewrite String.eqb_refl.
    + rewrite IH. reflexivity.
Qed.





End ServerFacts.

(** ** More facts about [JsMap]: [delete] and the values *)

Section JsMapDelete.
Context {V : Type}.
Implicit Types (m : JsMap.t V) (k : string) (v : V).

Lemma jsmap_get_delete_ne k k' m :
  k <> k' -> JsMap.get k (JsMap.delete k' m) = JsMap.get k m.
Proof.
  intros Hne. induction m as [|[k0 v0] m IH]; simpl; [reflexivity|].
  destruct (String.eqb_spec k' k0) as [->|Hne0]; simpl.
  - destruct (String.eqb_spec k k0); [contradiction | reflexivity].
  - rewrite IH. reflexivity.
Qed.

Lemma jsmap_keys_delete k k' m :
  In k (JsMap.keys (JsMap.delete k' m)) -> In k (JsMap.keys m).
Proof.
  induction m as [|[k0 v0] m IH]; simpl; [auto|].
  destruct (String.eqb k' k0); simpl; intuition.
Qed.

Lemma jsmap_delete_NoDup k m :
  NoDup (JsMap.keys m) -> NoDup (JsMap.keys (JsMap.delete k m)).
Proof.
  induction m as [|[k0 v0] m IH]; simpl; intros Hnd; [constructor|].
  inversion Hnd as [|? ? Hnotin Hnd']; subst.
  destruct (String.eqb k k0); simpl; [assumption|].
  constructor; [|auto]. intros Hin. apply Hnotin. eapply jsmap_keys_delete, Hin.
Qed.

Lemma jsmap_get_delete_eq k m :
  NoDup (JsMap.keys m) -> JsMap.get k (JsMap.delete k m) = None.
Proof.
  induction m as [|[k0 v0] m IH]; simpl; intros Hnd; [reflexivity|].
  inversion Hnd as [|? ? Hnotin Hnd']; subst.
  destruct (String.eqb_spec k k0) as [->|Hne]; simpl.
  - now apply jsmap_get_None.
  - destruct (String.eqb_spec k k0); [contradiction | auto].
Qed.

Lemma jsmap_get_In_values k v m : JsMap.get k m = Some v -> In v (JsMap.values m).
Proof.
  intros H. apply jsmap_get_Some_In in H.
  change v with (snd (k, v)). now apply in_map.
Qed.

Lemma jsmap_values_delete_NoDup {B : Type} (f : V -> B) k m :
  NoDup (List.map f (JsMap.values m)) ->
  NoDup (List.map f (JsMap.values (JsMap.delete k m))).
Proof.
  induction m as [|[k0 v0] m IH]; simpl; intros Hnd; [constructor|].
  inversion Hnd as [|? ? Hnotin Hnd']; subst.
  destruct (String.eqb k k0); simpl; [assumption|].
  constructor; [|auto]. intros Hin. apply Hnotin.
  clear -Hin. induction m as [|[k1 v1] m IH]; simpl in *; [contradiction|].
  destruct (String.eqb k k1); simpl in *; intuition.
Qed.


Lemma jsmap_set_NoDup k v m :
  NoDup (JsMap.keys m) -> NoDup (JsMap.keys (JsMap.set k v m)).
Proof. apply jsmap_keys_set_NoDup. Qed.

End JsMapDelete.

Lemma filter_none {A : Type} (g : A -> bool) (l : list A) :
  (forall y, In y l -> g y = false) -> List.filter g l = [].
Proof.
  induction l as [|x l IH]; simpl; intros H; [reflexivity|].
  rewrite (H x (or_introl eq_refl)). apply IH. intros y Hy. apply H. now right.
Qed.


(** ** Heartbeat eviction (src/server.ts, [startHeartbeat] and [removeClient]) *)

Section Eviction.
Import Protocol Server.

#[local] Arguments broadcast : simpl never.
#[local] Arguments broadcastExcept : simpl never.
#[local] Arguments getAllUsers : simpl never.



Lemma removeClient_absent k w :
  JsMap.get k (clients (self w)) = None -> removeClient k w = w.
Proof. intros H. unfold removeClient. now rewrite H. Qed.

Lemma removeClient_present k w client :
  JsMap.get k (clients (self w)) = Some client ->
  clients (self (removeClient k w)) = JsMap.delete k (clients (self w)) /\
  colorIndex (self (removeClient k w)) = colorIndex (self w) /\
  hostUser (self (removeClient k w)) = hostUser (self w) /\
  readyState (removeClient k w) = readyState w /\
  clientIdOf (removeClient k w) = clientIdOf w /\
  exists events,
    effects (removeClient k w) =
      effects w ++
      List.map (fun peer => Send (ws peer) (UserLeft k))
               (List.filter (fun peer => isOpen (readyState w (ws peer)))
                            (JsMap.values (JsMap.delete k (clients (self w))))) ++
      events /\
    forall socket u, userLeftSent socket u events = 0%nat.
Proof.
  intros Hget. unfold removeClient. rewrite Hget.
  set (w1 := set_clients (JsMap.delete k (clients (self w))) w).
  destruct (broadcast_spec (UserLeft k) w1) as (He & Hs & Hr & Hc).
  remember (broadcast (UserLeft k) w1) as w2 eqn:Hw2. clear Hw2.
  simpl. rewrite Hs, Hr, Hc. simpl. repeat split.
  eexists [_; _]. unfold push. rewrite He. simpl. rewrite <- !app_assoc. simpl.
  split; [reflexivity|]. intros socket u. reflexivity.
Qed.

Lemma set_isAlive_present b k w client :
  JsMap.get k (clients (self w)) = Some client ->
  set_isAlive b k w =
  set_clients (JsMap.set k {| ws := ws client; user := user client; isAlive := b |}
                         (clients (self w))) w.
Proof. intros H. unfold set_isAlive. now rewrite H. Qed.

(** The three cases of one round of the sweep. *)
Lemma sweep_step_absent k w :
  JsMap.get k (clients (self w)) = None -> sweep_step w k = w.
Proof. intros H. unfold sweep_step. now rewrite H. Qed.

Lemma sweep_step_alive k w client :
  JsMap.get k (clients (self w)) = Some client ->
  isAlive client = true ->
  clients (self (sweep_step w k)) =
    JsMap.set k {| ws := ws client; user := user client; isAlive := false |}
              (clients (self w)) /\
  colorIndex (self (sweep_step w k)) = colorIndex (self w) /\
  hostUser (self (sweep_step w k)) = hostUser (self w) /\
  readyState (sweep_step w k) = readyState w /\
  clientIdOf (sweep_step w k) = clientIdOf w /\
  exists events,
    effects (sweep_step w k) = effects w ++ events /\
    forall socket u, userLeftSent socket u events = 0%nat.
Proof.
  intros Hget Halive. unfold sweep_step. rewrite Hget, Halive. simpl.
  rewrite (set_isAlive_present false k w client Hget). simpl.
  destruct (isOpen (readyState w (ws client))); simpl; repeat split.
  - exists [Ping (ws client)]. split; [reflexivity|]. reflexivity.
  - exists []. rewrite app_nil_r. split; reflexivity.
Qed.

Lemma sweep_step_dead k w client :
  JsMap.get k (clients (self w)) = Some client ->
  isAlive client = false ->
  let closing := readyState (terminate (ws client) w) in
  clients (self (sweep_step w k)) = JsMap.delete k (clients (self w)) /\
  colorIndex (self (sweep_step w k)) = colorIndex (self w) /\
  hostUser (self (sweep_step w k)) = hostUser (self w) /\
  readyState (sweep_step w k) = closing /\
  clientIdOf (sweep_step w k) = clientIdOf w /\
  (forall socket, socket <> ws client -> closing socket = readyState w socket) /\
  (forall socket, closing socket = OPEN -> readyState w socket = OPEN) /\
  exists events,
    effects (sweep_step w k) =
      effects w ++ [Terminate (ws client)] ++
      List.map (fun peer => Send (ws peer) (UserLeft k))
               (List.filter (fun peer => isOpen (closing (ws peer)))
                            (JsMap.values (JsMap.delete k (clients (self w))))) ++
      events /\
    forall socket u, userLeftSent socket u events = 0%nat.
Proof.
  intros Hget Hdead closing. unfold sweep_step. rewrite Hget, Hdead. simpl.
  assert (Hterm : self (terminate (ws client) w) = self w /\
                  clientIdOf (terminate (ws client) w) = clientIdOf w /\
                  effects (terminate (ws client) w) = effects w ++ [Terminate (ws client)]).
  { unfold terminate. simpl. destruct (readyState w (ws client)); repeat split. }
  destruct Hterm as (Hts & Htc & Hte).
  assert (Hget' : JsMap.get k (clients (self (terminate (ws client) w))) = Some client)
    by now rewrite Hts.
  destruct (removeClient_present k _ client Hget')
    as (H1 & H2 & H3 & H4 & H5 & events & He & Hev).
  rewrite H1, H2, H3, H4, H5, Hts, Htc. repeat split.
  - intros socket Hne. subst closing. unfold terminate. simpl.
    destruct (readyState w (ws client)); simpl; try reflexivity;
      destruct (Nat.eqb_spec socket (ws client)); congruence.
  - intros socket. subst closing. unfold terminate. simpl.
    destruct (readyState w (ws client)) eqn:E; simpl; try tauto;
      destruct (Nat.eqb_spec socket (ws client)); try congruence; discriminate.
  - exists events. rewrite He, Hte, Hts. rewrite <- !app_assoc. split; [reflexivity|exact Hev].
Qed.


Lemma sweep_step_other k v w :
  v <> k ->
  JsMap.get v (clients (self (sweep_step w k))) = JsMap.get v (clients (self w)).
Proof.
  intros Hne. destruct (JsMap.get k (clients (self w))) as [client|] eqn:Hget.
  - destruct (isAlive client) eqn:Halive.
    + destruct (sweep_step_alive k w client Hget Halive) as (Hc & _).
      rewrite Hc, jsmap_get_set. apply String.eqb_neq in Hne. now rewrite Hne.
    + destruct (sweep_step_dead k w client Hget Halive) as (Hc & _).
      rewrite Hc. now apply jsmap_get_delete_ne.
  - now rewrite sweep_step_absent.
Qed.

Lemma sweep_step_wf k w :
  registry_wf w -> registry_wf (sweep_step w k).
Proof.
  unfold registry_wf. intros Hwf.
  destruct (JsMap.get k (clients (self w))) as [client|] eqn:Hget.
  - destruct (isAlive client) eqn:Halive.
    + destruct (sweep_step_alive k w client Hget Halive) as (Hc & _).
      rewrite Hc. now apply jsmap_set_NoDup.
    + destruct (sweep_step_dead k w client Hget Halive) as (Hc & _).
      rewrite Hc. now apply jsmap_delete_NoDup.
  - now rewrite sweep_step_absent.
Qed.




(** The rounds of the sweep over the keys [ks]. *)
Lemma sweep_rounds_other ks v w :
  ~ In v ks ->
  JsMap.get v (clients (self (fold_left sweep_step ks w))) =
  JsMap.get v (clients (self w)).
Proof.
  revert w. induction ks as [|k ks IH]; intros w Hnotin; simpl; [reflexivity|].
  rewrite IH by (intros H; apply Hnotin; now right).
  apply sweep_step_other. intros ->. apply Hnotin. now left.
Qed.



Lemma sweep_rounds_wf ks w :
  registry_wf w -> registry_wf (fold_left sweep_step ks w).
Proof.
  revert w. induction ks as [|k ks IH]; intros w Hwf; simpl; [exact Hwf|].
  apply IH. now apply sweep_step_wf.
Qed.




Lemma NoDup_map_filter {A B : Type} (f : A -> B) (g : A -> bool) (l : list A) :
  NoDup (List.map f l) -> NoDup (List.map f (List.filter g l)).
Proof.
  induction l as [|a l IH]; simpl; intros Hnd; [constructor|].
  inversion Hnd as [|? ? Hnotin Hnd']; subst.
  destruct (g a); simpl; [|auto].
  constructor; [|auto]. intros Hin. apply Hnotin.
  apply in_map_iff in Hin as [x [Hx Hin]]. apply filter_In in Hin as [Hin _].
  rewrite <- Hx. now apply in_map.
Qed.

Lemma sweep_step_ws k v w peer :
  registry_wf w ->
  JsMap.get v (clients (self (sweep_step w k))) = Some peer ->
  exists peer0,
    JsMap.get v (clients (self w)) = Some peer0 /\ ws peer0 = ws peer.
Proof.
  intros Hwf Hget. destruct (String.eqb_spec v k) as [->|Hne].
  - destruct (JsMap.get k (clients (self w))) as [c0|] eqn:Hget0.
    + destruct (isAlive c0) eqn:Halive.
      * destruct (sweep_step_alive k w c0 Hget0 Halive) as (Hc & _).
        rewrite Hc, jsmap_get_set, String.eqb_refl in Hget. injection Hget as <-.
        exists c0. split; reflexivity.
      * destruct (sweep_step_dead k w c0 Hget0 Halive) as (Hc & _).
        rewrite Hc, jsmap_get_delete_eq in Hget by exact Hwf. discriminate.
    + rewrite sweep_step_absent in Hget by exact Hget0. congruence.
  - rewrite sweep_step_other in Hget by exact Hne. exists peer. auto.
Qed.

Lemma sweep_rounds_ws ks v w peer :
  registry_wf w ->
  JsMap.get v (clients (self (fold_left sweep_step ks w))) = Some peer ->
  exists peer0,
    JsMap.get v (clients (self w)) = Some peer0 /\ ws peer0 = ws peer.
Proof.
  revert w. induction ks as [|k ks IH]; intros w Hwf Hget; simpl in Hget.
  - exists peer. auto.
  - destruct (IH _ (sweep_step_wf k w Hwf) Hget) as (peer1 & Hget1 & Hws1).
    destruct (sweep_step_ws k v w peer1 Hwf Hget1) as (peer0 & Hget0 & Hws0).
    exists peer0. split; [exact Hget0 | congruence].
Qed.














(** *** What the handlers do to the registry *)

Lemma sendTo_frame userId msg w :
  self (sendTo userId msg w) = self w /\
  readyState (sendTo userId msg w) = readyState w /\
  clientIdOf (sendTo userId msg w) = clientIdOf w.
Proof.
  unfold sendTo. destruct (JsMap.get userId (clients (self w))) as [client|]; [|auto].
  destruct (isOpen (readyState w (ws client))); auto.
Qed.

Lemma update_user_clients f clientId w :
  clients (self (update_user f clientId w)) =
  match JsMap.get clientId (clients (self w)) with
  | Some client =>
      JsMap.set clientId
        {| ws := ws client; user := f (user client); isAlive := isAlive client |}
        (clients (self w))
  | None => clients (self w)
  end.
Proof.
  unfold update_user. destruct (JsMap.get clientId (clients (self w))); reflexivity.
Qed.

(** A message other than [Join] and [Heartbeat] leaves the registry as it is,
    or rewrites the [user] of the sender's own entry. *)
Lemma handleClientMessage_clients clientId msg w :
  clients (self (handleClientMessage clientId msg w)) = clients (self w) \/
  exists id client f,
    JsMap.get id (clients (self w)) = Some client /\
    clients (self (handleClientMessage clientId msg w)) =
      JsMap.set id {| ws := ws client; user := f (user client); isAlive := isAlive client |}
                (clients (self w)).
Proof.
  unfold handleClientMessage. destruct (truthy clientId) as [id|]; [|now left].
  destruct msg; simpl;
    repeat match goal with
      | |- context [self (broadcastExcept ?x ?m ?w0)] =>
          rewrite (proj1 (proj2 (broadcastExcept_spec x m w0)))
      end; simpl; try (now left).
  - rewrite update_user_clients.
    destruct (JsMap.get id (clients (self w))) as [client|] eqn:Hget; [|now left].
    right. exists id, client.
    exists (fun u => {| userId := userId u; username := username u; color := color u;
                        activeFile := activeFile u; cursor := Some cursor0;
                        selections := selections0 |}).
    split; [exact Hget|]. reflexivity.
  - rewrite update_user_clients.
    destruct (JsMap.get id (clients (self w))) as [client|] eqn:Hget; [|now left].
    right. exists id, client.
    exists (fun u => {| userId := userId u; username := username u; color := color u;
                        activeFile := path0; cursor := cursor u;
                        selections := selections u |}).
    split; [exact Hget|]. reflexivity.
Qed.

Lemma on_message_join_clients socket userId' username' w :
  clients (self (on_message socket (Join userId' username') w)) =
  JsMap.set userId'
    {| ws := socket;
       user := {| userId := userId'; username := username';
                  color := nth (colorIndex (self w) mod List.length USER_COLORS)
                               USER_COLORS ""%string;
                  activeFile := None; cursor := None; selections := [] |};
       isAlive := true |}
    (clients (self w)) /\
  colorIndex (self (on_message socket (Join userId' username') w)) =
    S (colorIndex (self w)).
Proof.
  unfold on_message. simpl.
  rewrite (proj1 (proj2 (broadcastExcept_spec _ _ _))).
  rewrite (proj1 (sendTo_frame _ _ _)). simpl. split; reflexivity.
Qed.

Lemma on_message_heartbeat_clients socket w :
  clients (self (on_message socket Heartbeat w)) = clients (self w) \/
  exists id client,
    truthy (clientIdOf w socket) = Some id /\
    JsMap.get id (clients (self w)) = Some client /\
    clients (self (on_message socket Heartbeat w)) =
      JsMap.set id {| ws := ws client; user := user client; isAlive := true |}
                (clients (self w)).
Proof.
  unfold on_message. destruct (truthy (clientIdOf w socket)) as [id|]; [|now left].
  destruct (JsMap.has id (clients (self w))); [|now left].
  rewrite (proj1 (sendTo_frame _ _ _)). unfold set_isAlive.
  destruct (JsMap.get id (clients (self w))) as [client|] eqn:Hget; [|now left].
  right. exists id, client. auto.
Qed.

Lemma removeClient_clients k w :
  clients (self (removeClient k w)) = clients (self w) \/
  clients (self (removeClient k w)) = JsMap.delete k (clients (self w)).
Proof.
  destruct (JsMap.get k (clients (self w))) as [client|] eqn:Hget.
  - right. now destruct (removeClient_present k w client Hget) as (Hc & _).
  - left. now rewrite removeClient_absent.
Qed.

(** Every event keeps the registry a [Map]. *)
Lemma step_wf w e : registry_wf w -> registry_wf (step w e).
Proof.
  unfold registry_wf. intros Hwf. destruct e as [socket msg|socket|socket|socket|]; simpl.
  - destruct msg;
      lazymatch goal with
      | |- context [on_message _ (Join ?a ?b) _] =>
          destruct (on_message_join_clients socket a b w) as [Hc _];
          rewrite Hc; now apply jsmap_set_NoDup
      | |- context [on_message _ Heartbeat _] =>
          destruct (on_message_heartbeat_clients socket w)
            as [Hc|(id & client & _ & _ & Hc)];
          rewrite Hc; [exact Hwf | now apply jsmap_set_NoDup]
      | |- context [on_message _ ?m _] =>
          destruct (handleClientMessage_clients (clientIdOf w socket) m w)
            as [Hc|(id & client & f & _ & Hc)];
          unfold on_message; rewrite Hc; [exact Hwf | now apply jsmap_set_NoDup]
      end.
  - exact Hwf.
  - unfold on_close. destruct (truthy _) as [id|]; [|exact Hwf].
    destruct (removeClient_clients id (set_readyState socket CLOSED w)) as [Hc|Hc];
      rewrite Hc; [exact Hwf | now apply jsmap_delete_NoDup].
  - unfold on_error. destruct (truthy _) as [id|]; [|exact Hwf].
    destruct (removeClient_clients id w) as [Hc|Hc];
      rewrite Hc; [exact Hwf | now apply jsmap_delete_NoDup].
  - now apply sweep_rounds_wf.
Qed.

Lemma run_wf events w : registry_wf w -> registry_wf (run events w).
Proof.
  revert w. induction events as [|e events IH]; intros w Hwf; simpl; [exact Hwf|].
  apply IH. now apply step_wf.
Qed.





End Eviction.




(** ** Colour assignment (src/server.ts, the [Join] branch) *)

Section Colours.
Import Protocol Server.

#[local] Arguments broadcast : simpl never.
#[local] Arguments broadcastExcept : simpl never.
#[local] Arguments getAllUsers : simpl never.

Lemma update_user_colorIndex f clientId w :
  colorIndex (self (update_user f clientId w)) = colorIndex (self w).
Proof.
  unfold update_user. destruct (JsMap.get clientId (clients (self w))); reflexivity.
Qed.

Lemma handleClientMessage_colorIndex clientId msg w :
  colorIndex (self (handleClientMessage clientId msg w)) = colorIndex (self w).
Proof.
  unfold handleClientMessage. destruct (truthy clientId) as [id|]; [|reflexivity].
  destruct msg; simpl;
    repeat match goal with
      | |- context [self (broadcastExcept ?x ?m ?w0)] =>
          rewrite (proj1 (proj2 (broadcastExcept_spec x m w0)))
      end; simpl; try reflexivity; apply update_user_colorIndex.
Qed.

Lemma removeClient_colorIndex k w :
  colorIndex (self (removeClient k w)) = colorIndex (self w).
Proof.
  destruct (JsMap.get k (clients (self w))) as [client|] eqn:Hget.
  - now destruct (removeClient_present k w client Hget) as (_ & Hc & _).
  - now rewrite removeClient_absent.
Qed.

Lemma sweep_colorIndex ks w :
  colorIndex (self (fold_left sweep_step ks w)) = colorIndex (self w).
Proof.
  revert w. induction ks as [|k ks IH]; intros w; simpl; [reflexivity|].
  rewrite IH. destruct (JsMap.get k (clients (self w))) as [client|] eqn:Hget.
  - destruct (isAlive client) eqn:Halive.
    + now destruct (sweep_step_alive k w client Hget Halive) as (_ & Hc & _).
    + now destruct (sweep_step_dead k w client Hget Halive) as (_ & Hc & _).
  - now rewrite sweep_step_absent.
Qed.

(** Only a [Join] moves the colour index, by one. *)
Lemma step_colorIndex w e :
  colorIndex (self (step w e)) = (colorIndex (self w) + joins [e])%nat.
Proof.
  destruct e as [socket msg|socket|socket|socket|]; simpl.
  - destruct msg;
      lazymatch goal with
      | |- context [on_message _ (Join ?a ?b) _] =>
          destruct (on_message_join_clients socket a b w) as [_ Hc];
          rewrite Hc; unfold joins; simpl; lia
      | |- context [on_message _ Heartbeat _] =>
          unfold on_message, joins; simpl;
          destruct (truthy (clientIdOf w socket)) as [id|]; [|simpl; lia];
          destruct (JsMap.has id (clients (self w))); [|simpl; lia];
          rewrite (proj1 (sendTo_frame _ _ _)); unfold set_isAlive;
          destruct (JsMap.get id (clients (self w))); simpl; lia
      | |- context [on_message _ ?m _] =>
          unfold on_message, joins; simpl;
          rewrite (handleClientMessage_colorIndex (clientIdOf w socket) m w); lia
      end.
  - unfold joins. simpl. lia.
  - unfold on_close, joins. simpl. destruct (truthy _); simpl; [|lia].
    rewrite removeClient_colorIndex. simpl. lia.
  - unfold on_error, joins. simpl. destruct (truthy _); simpl; [|lia].
    rewrite removeClient_colorIndex. lia.
  - unfold sweep, joins. rewrite sweep_colorIndex. simpl. lia.
Qed.

Lemma joins_cons e events : joins (e :: events) = (joins [e] + joins events)%nat.
Proof.
  unfold joins. simpl.
  destruct e as [socket msg| | | |]; try reflexivity. destruct msg; reflexivity.
Qed.

Lemma run_colorIndex events w :
  colorIndex (self (run events w)) = (colorIndex (self w) + joins events)%nat.
Proof.
  revert w. induction events as [|e events IH]; intros w; simpl.
  - unfold joins. simpl. lia.
  - rewrite IH, step_colorIndex, (joins_cons e events). lia.
Qed.

Lemma USER_COLORS_NoDup : NoDup USER_COLORS.
Proof.
  unfold USER_COLORS.
  repeat (constructor; [simpl; intuition discriminate|]). constructor.
Qed.

(** C6, as the code has it.  A [Join] is given the palette entry at the
    colour index modulo the palette size and advances the index by one;
    nothing else moves the index, which starts at 1 beside the host's entry 0:
    after [n] joins it is [n + 1].  Hence two joins fewer than 12 joins apart
    (and the host and each of the first 11 joiners) get different colours. *)
Theorem colour_assignment :
  (forall w socket userId' username',
      let w' := on_message socket (Join userId' username') w in
      (exists client,
          JsMap.get userId' (clients (self w')) = Some client /\
          color (user client) =
            nth (colorIndex (self w) mod List.length USER_COLORS) USER_COLORS ""%string) /\
      colorIndex (self w') = S (colorIndex (self w))) /\
  (forall hostId username events,
      let w := run events (newCollabServer hostId username) in
      colorIndex (self w) = S (joins events) /\
      color (hostUser (self (newCollabServer hostId username))) =
        nth 0 USER_COLORS ""%string) /\
  (forall i j : nat,
      (i < j < i + List.length USER_COLORS)%nat ->
      nth (i mod List.length USER_COLORS) USER_COLORS ""%string <>
      nth (j mod List.length USER_COLORS) USER_COLORS ""%string).
Proof.
  split; [|split].
  - intros w socket userId' username' w'.
    destruct (on_message_join_clients socket userId' username' w) as [Hc Hi].
    fold w' in Hc, Hi. split; [|exact Hi].
    eexists. rewrite Hc, jsmap_get_set, String.eqb_refl. split; reflexivity.
  - intros hostId username events w. subst w. rewrite run_colorIndex. simpl.
    split; reflexivity.
  - intros i j Hij Heq.
    change (List.length USER_COLORS) with 12%nat in *.
    apply (proj1 (NoDup_nth USER_COLORS ""%string) USER_COLORS_NoDup) in Heq;
      try (apply Nat.mod_upper_bound; discriminate).
    pose proof (Nat.div_mod_eq i 12). pose proof (Nat.div_mod_eq j 12). lia.
Qed.

End Colours.

(** The eighth join on a host that has seen seven gets the entry at index 8,
    which is none of the colours of the joins before it. *)
Lemma colour_assignment_witness :
  (3 < 8 < 3 + List.length Protocol.USER_COLORS)%nat /\
  nth (3 mod List.length Protocol.USER_COLORS) Protocol.USER_COLORS ""%string <>
  nth (8 mod List.length Protocol.USER_COLORS) Protocol.USER_COLORS ""%string.
Proof.
  assert (H : (3 < 8 < 3 + List.length Protocol.USER_COLORS)%nat) by (simpl; lia).
  split; [exact H|].
  destruct colour_assignment as (_ & _ & Hdistinct).
  exact (Hdistinct 3%nat 8%nat H).
Defined.

(** C6 as stated fails.  One guest joins and leaves eleven times; then only
    the host is live, holding palette entry 0 of 12.  The next joiner is given
    colour index 12, that is entry 0 again: the host's colour, although the
    host is live and eleven entries are free. *)
Lemma host_colour_reassigned :
  let visit := [Server.Connection 1%nat;
                Server.Message 1%nat (Protocol.Join "guest" "Gus");
                Server.SocketClose 1%nat] in
  let w := Server.run (List.concat (repeat visit 11))
                      (Server.newCollabServer "host" "Hana") in
  let w' := Server.on_message 2%nat (Protocol.Join "late" "Lee")
                              (Server.on_connection 2%nat w) in
  Server.getAllUsers w = [Server.hostUser (Server.self w)] /\
  (List.length (Server.getAllUsers w) < List.length Protocol.USER_COLORS)%nat /\
  List.map Protocol.userId (Server.getAllUsers w') = ["host"%string; "late"%string] /\
  List.map Protocol.color (Server.getAllUsers w') =
    [Protocol.color (Server.hostUser (Server.self w));
     Protocol.color (Server.hostUser (Server.self w))].
Proof.
  intros visit w w'. split; [reflexivity|]. split; [vm_compute; lia|].
  split; reflexivity.
Qed.

(** ** The wire format (src/protocol.ts, [serializeMessage] and [deserializeMessage]) *)

Section JsonLexical.
Import JSON.

(** Decoding undoes the escape of one character, whatever follows. *)
Lemma string_body_escape (c : ascii) (s : chars) :
  string_body (escape c ++ s) =
  match string_body s with
  | Some (body, rest) => Some (c :: body, rest)
  | None => None
  end.
Proof.
  destruct c as [[|] [|] [|] [|] [|] [|] [|] [|]]; reflexivity.
Qed.

Lemma string_body_quote (l : list ascii) (rest : chars) :
  string_body (flat_map escape l ++ quote_char :: rest) = Some (l, rest).
Proof.
  induction l as [|c l IH]; simpl.
  - reflexivity.
  - rewrite <- app_assoc, string_body_escape, IH. reflexivity.
Qed.

Lemma string_literal_quote (s : string) (rest : chars) :
  string_literal (quote s ++ rest) = Some (s, rest).
Proof.
  unfold quote, string_literal. simpl. rewrite <- app_assoc. simpl.
  rewrite string_body_quote. now rewrite String.string_of_list_ascii_of_string.
Qed.

Lemma read_digits_digits (d : Decimal.uint) (rest : chars) :
  ends_number rest = true ->
  read_digits (digits d ++ rest) = (d, rest).
Proof.
  intros Hend. induction d; simpl; try (rewrite IHd; reflexivity).
  destruct rest as [|c rest]; [reflexivity|]. simpl in *.
  apply andb_true_iff in Hend as [Hc _]. apply negb_true_iff in Hc. now rewrite Hc.
Qed.

Lemma nzhead_no_leading_zero (d u : Decimal.uint) : Decimal.nzhead d <> Decimal.D0 u.
Proof. induction d; simpl; try discriminate. exact IHd. Qed.

Lemma to_uint_no_leading_zero (p : positive) (u : Decimal.uint) :
  Pos.to_uint p <> Decimal.D0 u.
Proof.
  intros H.
  pose proof (DecimalPos.Unsigned.to_of (Pos.to_uint p)) as Hn.
  rewrite DecimalPos.Unsigned.of_to in Hn. simpl in Hn.
  rewrite H in Hn. unfold Decimal.unorm in Hn. simpl in Hn.
  destruct (Decimal.nzhead u) eqn:E; try discriminate.
  - injection Hn as ->. apply (DecimalPos.Unsigned.to_uint_nonzero p). exact H.
  - apply (nzhead_no_leading_zero u u). congruence.
Qed.

Lemma ends_number_more (rest : chars) :
  ends_number rest = true -> more_number rest = false.
Proof.
  destruct rest as [|c rest]; [reflexivity|]. unfold ends_number.
  intros H. apply andb_true_iff in H as [_ H]. now apply negb_true_iff in H.
Qed.

Lemma digits_head (p : positive) :
  exists c tail,
    digits (Pos.to_uint p) = c :: tail /\
    is_digit c = true /\ Ascii.eqb c "0"%char = false /\ Ascii.eqb c "-"%char = false.
Proof.
  destruct (Pos.to_uint p) eqn:E.
  - exfalso. eapply DecimalPos.Unsigned.to_uint_nonnil, E.
  - exfalso. eapply to_uint_no_leading_zero, E.
  - simpl. eexists _, _. split; [reflexivity|]. repeat split.
  - simpl. eexists _, _. split; [reflexivity|]. repeat split.
  - simpl. eexists _, _. split; [reflexivity|]. repeat split.
  - simpl. eexists _, _. split; [reflexivity|]. repeat split.
  - simpl. eexists _, _. split; [reflexivity|]. repeat split.
  - simpl. eexists _, _. split; [reflexivity|]. repeat split.
  - simpl. eexists _, _. split; [reflexivity|]. repeat split.
  - simpl. eexists _, _. split; [reflexivity|]. repeat split.
  - simpl. eexists _, _. split; [reflexivity|]. repeat split.
Qed.

(** The integer part of a positive number is read back. *)
Lemma integer_part (p : positive) (rest : chars) :
  ends_number rest = true ->
  exists c tail,
    digits (Pos.to_uint p) ++ rest = c :: tail /\
    is_digit c = true /\ Ascii.eqb c "0"%char = false /\ Ascii.eqb c "-"%char = false /\
    read_digits (c :: tail) = (Pos.to_uint p, rest).
Proof.
  intros Hend. destruct (digits_head p) as (c & tail & Hd & H1 & H2 & H3).
  exists c, (tail ++ rest).
  split; [now rewrite Hd|]. split; [exact H1|]. split; [exact H2|]. split; [exact H3|].
  change (c :: tail ++ rest) with ((c :: tail) ++ rest). rewrite <- Hd.
  now apply read_digits_digits.
Qed.

Lemma number_literal_text (n : Z) (rest : chars) :
  safe_integer n = true ->
  ends_number rest = true ->
  number_literal (number_text n ++ rest) = Some (n, rest).
Proof.
  intros Hsafe Hend. pose proof (ends_number_more rest Hend) as Hmore.
  pose proof (DecimalZ.of_to n) as Hn. apply round_safe in Hsafe.
  unfold number_text. destruct n as [|p|p]; simpl.
  - unfold number_literal. simpl. now rewrite Hmore.
  - destruct (integer_part p rest Hend) as (c & tail & Hd & H1 & H2 & H3 & Hread).
    rewrite Hd. unfold number_literal. rewrite H3, H1, H2, Hread, Hmore.
    do 2 f_equal. etransitivity; [|exact Hsafe]. f_equal. exact Hn.
  - destruct (integer_part p rest Hend) as (c & tail & Hd & H1 & H2 & H3 & Hread).
    rewrite Hd. unfold number_literal. rewrite Ascii.eqb_refl. cbv beta iota.
    rewrite H1, H2, Hread, Hmore. do 2 f_equal. etransitivity; [|exact Hsafe]. f_equal. exact Hn.
Qed.

Lemma number_text_head (n : Z) :
  exists c tail,
    number_text n = c :: tail /\ (is_digit c = true \/ c = "-"%char).
Proof.
  unfold number_text. destruct n as [|p|p]; simpl.
  - eexists _, _. split; [reflexivity|]. now left.
  - destruct (digits_head p) as (c & tail & Hd & H1 & _). rewrite Hd. eauto.
  - eexists _, _. split; [reflexivity|]. now right.
Qed.

(** *** How [parse_value] dispatches on the first character *)

Lemma dispatch_number (c : ascii) (s : chars) (fuel : nat) :
  is_digit c = true \/ c = "-"%char ->
  parse_value (S fuel) (c :: s) =
  match number_literal (c :: s) with
  | Some (n, rest) => Some (Number n, rest)
  | None => None
  end.
Proof.
  intros H.
  destruct c as [[|] [|] [|] [|] [|] [|] [|] [|]];
    try (exfalso; destruct H as [H|H]; discriminate H); reflexivity.
Qed.

Lemma dispatch_string (s : chars) (fuel : nat) :
  parse_value (S fuel) (quote_char :: s) =
  match string_literal (quote_char :: s) with
  | Some (str, rest) => Some (Str str, rest)
  | None => None
  end.
Proof. reflexivity. Qed.

Lemma dispatch_array (s : chars) (fuel : nat) :
  parse_value (S fuel) ("["%char :: s) =
  match skip_ws s with
  | c :: rest =>
      if Ascii.eqb c "]"%char then Some (Array [], rest)
      else
        match parse_elements fuel s with
        | Some (items, rest') => Some (Array items, rest')
        | None => None
        end
  | [] => None
  end.
Proof. reflexivity. Qed.

Lemma dispatch_object (s : chars) (fuel : nat) :
  parse_value (S fuel) ("{"%char :: s) =
  match skip_ws s with
  | c :: rest =>
      if Ascii.eqb c "}"%char then Some (Object [], rest)
      else
        match parse_members fuel s with
        | Some (members, rest') => Some (Object (JsMap.of_entries members), rest')
        | None => None
        end
  | [] => None
  end.
Proof. reflexivity. Qed.

Lemma parse_elements_step (s : chars) (fuel : nat) :
  parse_elements (S fuel) s =
  match parse_value fuel s with
  | Some (v, rest) =>
      match skip_ws rest with
      | c :: rest' =>
          if Ascii.eqb c ","%char then
            match parse_elements fuel rest' with
            | Some (vs, rest'') => Some (v :: vs, rest'')
            | None => None
            end
          else if Ascii.eqb c "]"%char then Some ([v], rest')
          else None
      | [] => None
      end
  | None => None
  end.
Proof. reflexivity. Qed.

Lemma parse_members_step (s : chars) (fuel : nat) :
  parse_members (S fuel) s =
  match string_literal (skip_ws s) with
  | Some (key, rest) =>
      match skip_ws rest with
      | c :: rest' =>
          if Ascii.eqb c ":"%char then
            match parse_value fuel rest' with
            | Some (v, rest'') =>
                match skip_ws rest'' with
                | c' :: rest''' =>
                    if Ascii.eqb c' ","%char then
                      match parse_members fuel rest''' with
                      | Some (ms, rest4) => Some ((key, v) :: ms, rest4)
                      | None => None
                      end
                    else if Ascii.eqb c' "}"%char then Some ([(key, v)], rest''')
                    else None
                | [] => None
                end
            | None => None
            end
          else None
      | [] => None
      end
  | None => None
  end.
Proof. reflexivity. Qed.

(** The text of a value starts with a character that is neither white space
    nor a closing bracket. *)
Lemma text_head (v : value) :
  exists c tail,
    text v = c :: tail /\ is_ws c = false /\ Ascii.eqb c "]"%char = false.
Proof.
  destruct v as [|[|]|n|s|items|properties]; simpl;
    try (eexists _, _; split; [reflexivity|]; split; reflexivity).
  destruct (number_text_head n) as (c & tail & Hn & Hc). rewrite Hn.
  exists c, tail. split; [reflexivity|].
  destruct Hc as [Hc| ->]; [|split; reflexivity].
  destruct c as [[|] [|] [|] [|] [|] [|] [|] [|]]; try discriminate Hc; split; reflexivity.
Qed.


(** *** Objects built by the parser *)

Lemma distinct_NoDup (keys : list string) : distinct keys = true -> NoDup keys.
Proof.
  induction keys as [|k keys IH]; simpl; intros H; [constructor|].
  apply andb_true_iff in H as [Hk Hd]. constructor; [|auto].
  intros Hin. apply negb_true_iff in Hk.
  assert (existsb (String.eqb k) keys = true); [|congruence].
  apply existsb_exists. exists k. split; [exact Hin | apply String.eqb_refl].
Qed.

Lemma jsmap_set_fresh {V : Type} (k : string) (v : V) (m : JsMap.t V) :
  ~ In k (JsMap.keys m) -> JsMap.set k v m = m ++ [(k, v)].
Proof.
  induction m as [|[k0 v0] m IH]; simpl; intros Hnotin; [reflexivity|].
  destruct (String.eqb_spec k k0) as [->|Hne].
  - exfalso. apply Hnotin. now left.
  - rewrite IH; [reflexivity|]. intros Hin. apply Hnotin. now right.
Qed.

Lemma set_all_fresh {V : Type} (l : list (string * V)) (m0 : JsMap.t V) :
  NoDup (JsMap.keys m0 ++ List.map fst l) -> JsMap.set_all l m0 = m0 ++ l.
Proof.
  revert m0. induction l as [|[k v] l IH]; intros m0 Hnd; simpl.
  - now rewrite app_nil_r.
  - unfold JsMap.set_all in *. simpl. rewrite jsmap_set_fresh.
    + rewrite IH, <- app_assoc; [reflexivity|].
      unfold JsMap.keys. rewrite map_app. simpl. rewrite <- app_assoc. exact Hnd.
    + simpl in Hnd. apply NoDup_remove_2 in Hnd. intros Hin. apply Hnd.
      apply in_or_app. now left.
Qed.

Lemma of_entries_distinct {V : Type} (l : list (string * V)) :
  distinct (List.map fst l) = true -> JsMap.of_entries l = l.
Proof.
  intros H. apply distinct_NoDup in H.
  change (JsMap.of_entries l) with (JsMap.set_all l (@JsMap.empty V)).
  now rewrite set_all_fresh.
Qed.

(** *** Parsing the text of a value gives the value back *)

Lemma skip_ws_text (v : value) (rest : chars) :
  skip_ws (text v ++ rest) = text v ++ rest.
Proof.
  destruct (text_head v) as (c & tail & Hv & Hws & _). rewrite Hv. simpl.
  now rewrite Hws.
Qed.

Lemma skip_ws_cons (c : ascii) (s : chars) :
  is_ws c = false -> skip_ws (c :: s) = c :: s.
Proof. intros H. simpl. now rewrite H. Qed.

Lemma skip_ws_quote (k : string) (s : chars) :
  skip_ws (quote k ++ s) = quote k ++ s.
Proof. reflexivity. Qed.

Lemma elements_read_back (items : list value) :
  items <> [] ->
  Forall reads_back items ->
  forallb plain_objects items = true ->
  forallb safe_numbers items = true ->
  forall fuel rest,
    (list_sum (List.map (fun item => S (cost item)) items) <= fuel)%nat ->
    parse_elements fuel (join (List.map text items) ++ "]"%char :: rest) =
    Some (items, rest).
Proof.
  induction items as [|v items IH]; intros Hne Hall Hplain Hsafe fuel rest Hfuel;
    [contradiction|].
  inversion Hall as [|? ? Hv Hitems]; subst.
  simpl in Hplain. apply andb_true_iff in Hplain as [Hpv Hpitems].
  simpl in Hsafe. apply andb_true_iff in Hsafe as [Hsv Hsitems].
  simpl in Hfuel. destruct fuel as [|fuel]; [lia|].
  rewrite parse_elements_step. destruct items as [|v2 items].
  - simpl. rewrite (Hv Hpv Hsv fuel ("]"%char :: rest)); [reflexivity | lia | reflexivity].
  - change (join (List.map text (v :: v2 :: items)))
      with (text v ++ ","%char :: join (List.map text (v2 :: items))).
    rewrite <- app_assoc, <- app_comm_cons.
    rewrite (Hv Hpv Hsv fuel); [|lia|reflexivity].
    rewrite (skip_ws_cons ","%char) by reflexivity. cbv beta iota.
    change (Ascii.eqb ","%char ","%char) with true. cbv beta iota.
    rewrite (IH ltac:(discriminate) Hitems Hpitems Hsitems fuel rest); [reflexivity|].
    simpl in *. lia.
Qed.

Lemma members_read_back (properties : list (string * value)) :
  properties <> [] ->
  Forall (fun p => reads_back (snd p)) properties ->
  forallb (fun p => plain_key (fst p) && plain_objects (snd p)) properties = true ->
  forallb (fun p => safe_numbers (snd p)) properties = true ->
  forall fuel rest,
    (list_sum (List.map (fun p => S (cost (snd p))) properties) <= fuel)%nat ->
    parse_members fuel
      (join (List.map (fun p => quote (fst p) ++ ":"%char :: text (snd p)) properties)
       ++ "}"%char :: rest) =
    Some (properties, rest).
Proof.
  induction properties as [|[k v] properties IH];
    intros Hne Hall Hplain Hsafe fuel rest Hfuel; [contradiction|].
  inversion Hall as [|? ? Hv Hrest]; subst. simpl in Hv.
  simpl in Hplain. apply andb_true_iff in Hplain as [Hpv Hprest].
  apply andb_true_iff in Hpv as [_ Hpv].
  simpl in Hsafe. apply andb_true_iff in Hsafe as [Hsv Hsrest].
  simpl in Hfuel. destruct fuel as [|fuel]; [lia|].
  rewrite parse_members_step. destruct properties as [|p2 properties].
  - change (join (List.map (fun p => quote (fst p) ++ ":"%char :: text (snd p)) [(k, v)]))
      with (quote k ++ ":"%char :: text v).
    rewrite <- app_assoc, <- app_comm_cons.
    rewrite skip_ws_quote, string_literal_quote.
    rewrite (skip_ws_cons ":"%char) by reflexivity. cbv beta iota.
    change (Ascii.eqb ":"%char ":"%char) with true. cbv beta iota.
    rewrite (Hv Hpv Hsv fuel ("}"%char :: rest)); [reflexivity | lia | reflexivity].
  - change (join (List.map (fun p => quote (fst p) ++ ":"%char :: text (snd p))
                           ((k, v) :: p2 :: properties)))
      with ((quote k ++ ":"%char :: text v) ++
            ","%char :: join (List.map (fun p => quote (fst p) ++ ":"%char :: text (snd p))
                                       (p2 :: properties))).
    rewrite <- !app_assoc, <- !app_comm_cons.
    rewrite skip_ws_quote, string_literal_quote.
    rewrite (skip_ws_cons ":"%char) by reflexivity. cbv beta iota.
    change (Ascii.eqb ":"%char ":"%char) with true. cbv beta iota.
    rewrite (Hv Hpv Hsv fuel); [|lia|reflexivity].
    rewrite (skip_ws_cons ","%char) by reflexivity. cbv beta iota.
    change (Ascii.eqb ","%char ","%char) with true. cbv beta iota.
    rewrite (IH ltac:(discriminate) Hrest Hprest Hsrest fuel rest); [reflexivity|].
    simpl in *. lia.
Qed.

Lemma text_array (items : list value) :
  text (Array items) = "["%char :: join (List.map text items) ++ ["]"%char].
Proof. reflexivity. Qed.

Lemma text_object (properties : list (string * value)) :
  text (Object properties) =
  "{"%char ::
  join (List.map (fun p => quote (fst p) ++ ":"%char :: text (snd p)) properties)
  ++ ["}"%char].
Proof. reflexivity. Qed.

Lemma value_reads_back (v : value) : reads_back v.
Proof.
  induction v using value_nested_ind; unfold reads_back;
    intros Hplain Hsafe fuel rest Hfuel Hend;
    (destruct fuel as [|fuel]; [simpl in Hfuel; lia|]).
  - reflexivity.
  - destruct b; reflexivity.
  - destruct (number_text_head n) as (c & tail & Hn & Hc).
    simpl text. pose proof (number_literal_text n rest Hsafe Hend) as Hlit.
    rewrite Hn in *. simpl app in *. rewrite (dispatch_number c _ fuel Hc), Hlit.
    reflexivity.
  - simpl text. unfold quote at 1. rewrite <- app_comm_cons, dispatch_string.
    change (quote_char :: (flat_map escape (String.list_ascii_of_string s) ++ [quote_char]) ++ rest)
      with (quote s ++ rest).
    now rewrite string_literal_quote.
  - rewrite text_array, <- app_comm_cons, dispatch_array, <- app_assoc.
    destruct items as [|v items].
    + reflexivity.
    + destruct (text_head v) as (c & tail & Hv & Hws & Hbr).
      assert (Hskip : skip_ws (join (List.map text (v :: items)) ++ ["]"%char] ++ rest) =
                      c :: tail ++
                        match items with
                        | [] => ["]"%char] ++ rest
                        | _ :: _ => (","%char :: join (List.map text items)) ++ ["]"%char] ++ rest
                        end).
      { destruct items; simpl; rewrite Hv; simpl; rewrite Hws; [reflexivity|].
        now rewrite <- app_assoc. }
      rewrite Hskip, Hbr.
      change (["]"%char] ++ rest) with ("]"%char :: rest).
      rewrite (elements_read_back (v :: items)); try reflexivity; try discriminate; auto.
      simpl in Hfuel. simpl. lia.
  - rewrite text_object, <- app_comm_cons, dispatch_object, <- app_assoc.
    destruct properties as [|[k v] properties].
    + reflexivity.
    + simpl in Hplain. apply andb_true_iff in Hplain as [Hdistinct Hplain].
      assert (Hskip : exists tail,
                 skip_ws (join (List.map (fun p => quote (fst p) ++ ":"%char :: text (snd p))
                                         ((k, v) :: properties)) ++ ["}"%char] ++ rest) =
                 quote_char :: tail).
      { destruct properties; simpl; eexists; reflexivity. }
      destruct Hskip as [tail Hskip]. rewrite Hskip.
      change (Ascii.eqb quote_char "}"%char) with false. cbv beta iota.
      change (["}"%char] ++ rest) with ("}"%char :: rest).
      rewrite (members_read_back ((k, v) :: properties)); try discriminate; auto.
      * now rewrite of_entries_distinct.
      * simpl in Hfuel. simpl. lia.
Qed.

Lemma length_join_bound (parts : list chars) :
  (list_sum (List.map (fun p => S (List.length p)) parts) <= S (List.length (join parts)))%nat.
Proof.
  induction parts as [|p parts IH]; simpl; [lia|].
  destruct parts as [|q parts]; [simpl; lia|].
  rewrite length_app. simpl List.length at 2. simpl in IH. simpl. lia.
Qed.

Lemma list_sum_le {A : Type} (f g : A -> nat) (l : list A) :
  Forall (fun a => (f a <= g a)%nat) l ->
  (list_sum (List.map f l) <= list_sum (List.map g l))%nat.
Proof. induction 1; simpl; lia. Qed.

(** Parsing never needs more fuel than the text has characters. *)
Lemma cost_le_length (v : value) : (cost v <= List.length (text v))%nat.
Proof.
  induction v using value_nested_ind; try (simpl; lia).
  - destruct b; simpl; lia.
  - destruct (number_text_head n) as (c & tail & Hn & _). simpl. rewrite Hn. simpl. lia.
  - rewrite text_array. cbn [cost List.length]. rewrite length_app.
    change (List.length ["]"%char]) with 1%nat.
    pose proof (length_join_bound (List.map text items)) as Hj.
    rewrite map_map in Hj.
    pose proof (list_sum_le (fun item => S (cost item))
                            (fun item => S (List.length (text item))) items) as Hs.
    assert (Hall : Forall (fun a => (S (cost a) <= S (List.length (text a)))%nat) items).
    { eapply Forall_impl; [|exact H]. simpl. intros. lia. }
    specialize (Hs Hall). lia.
  - rewrite text_object. cbn [cost List.length]. rewrite length_app.
    change (List.length ["}"%char]) with 1%nat.
    pose proof (length_join_bound
                  (List.map (fun p => quote (fst p) ++ ":"%char :: text (snd p)) properties))
      as Hj.
    rewrite map_map in Hj.
    pose proof (list_sum_le (fun p : string * value => S (cost (snd p)))
                  (fun p => S (List.length (quote (fst p) ++ ":"%char :: text (snd p))))
                  properties) as Hs.
    assert (Hall : Forall (fun p : string * value =>
                             (S (cost (snd p)) <=
                              S (List.length (quote (fst p) ++ ":"%char :: text (snd p))))%nat)
                          properties).
    { eapply Forall_impl; [|exact H]. cbv beta. intros p Hp. rewrite length_app.
      cbn [List.length]. lia. }
    specialize (Hs Hall). lia.
Qed.

(** [JSON.parse(JSON.stringify(v))] is [v]. *)
Lemma parse_stringify (v : value) :
  plain_objects v = true -> safe_numbers v = true -> parse (stringify v) = Some v.
Proof.
  intros Hplain Hsafe. unfold parse, stringify.
  rewrite String.list_ascii_of_string_of_list_ascii.
  pose proof (cost_le_length v) as Hcost.
  rewrite <- (app_nil_r (text v)) at 2.
  rewrite (value_reads_back v Hplain Hsafe); [reflexivity | lia | reflexivity].
Qed.

End JsonLexical.

Section WireFormat.
Import Protocol.

Lemma forallb_map_true {A B : Type} (p : B -> bool) (f : A -> B) (l : list A) :
  (forall a, p (f a) = true) -> forallb p (List.map f l) = true.
Proof. intros H. induction l as [|a l IH]; simpl; [reflexivity|]. now rewrite H, IH. Qed.

Lemma SelectionRange_value_plain (r : SelectionRange) :
  JSON.plain_objects (SelectionRange_value r) = true.
Proof. reflexivity. Qed.

Lemma UserInfo_value_plain (u : UserInfo) :
  JSON.plain_objects (UserInfo_value u) = true.
Proof.
  unfold UserInfo_value. cbn.
  rewrite (forallb_map_true _ _ _ SelectionRange_value_plain).
  destruct (activeFile u), (cursor u); reflexivity.
Qed.

Lemma FileInfo_value_plain (f : FileInfo) :
  JSON.plain_objects (FileInfo_value f) = true.
Proof. reflexivity. Qed.

Lemma TextChange_value_plain (c : TextChange.t) :
  JSON.plain_objects (TextChange_value c) = true.
Proof. reflexivity. Qed.

Lemma CursorPosition_value_plain (c : CursorPosition) :
  JSON.plain_objects (CursorPosition_value c) = true.
Proof. reflexivity. Qed.

Lemma Encoding_value_plain (e : Encoding) :
  JSON.plain_objects (Encoding_value e) = true.
Proof. destruct e; reflexivity. Qed.

Lemma optional_Str_plain (o : option string) :
  JSON.plain_objects (optional JSON.Str o) = true.
Proof. destruct o; reflexivity. Qed.

#[local] Arguments UserInfo_value : simpl never.
#[local] Arguments FileInfo_value : simpl never.
#[local] Arguments TextChange_value : simpl never.
#[local] Arguments SelectionRange_value : simpl never.
#[local] Arguments CursorPosition_value : simpl never.
#[local] Arguments Encoding_value : simpl never.
#[local] Arguments optional : simpl never.

(** The objects of wire messages have distinct, plain property names. *)
Lemma toValue_plain (msg : CollabMessage) : JSON.plain_objects (toValue msg) = true.
Proof.
  destruct msg; unfold toValue; cbn;
    rewrite ?(forallb_map_true _ _ _ UserInfo_value_plain),
            ?(forallb_map_true _ _ _ FileInfo_value_plain),
            ?(forallb_map_true _ _ _ TextChange_value_plain),
            ?(forallb_map_true _ _ _ SelectionRange_value_plain),
            ?(forallb_map_true JSON.plain_objects JSON.Str _ (fun _ => eq_refl)),
            ?UserInfo_value_plain, ?CursorPosition_value_plain,
            ?Encoding_value_plain, ?optional_Str_plain;
    reflexivity.
Qed.

(** C9. For every well-formed wire message, [deserializeMessage] applied to
    the output of [serializeMessage] does not fail and returns the message's
    own object: the same properties in the same order with the same values,
    at every depth.  Well-formedness delimits the messages the embedding
    represents exactly; the printer and the parser treat all integers alike,
    so the proof has no use for it. *)
Theorem serialize_deserialize_roundtrip (msg : CollabMessage) :
  well_formed msg ->
  deserializeMessage (serializeMessage msg) = Some (toValue msg).
Proof.
  intros Hsafe. unfold deserializeMessage, serializeMessage.
  apply parse_stringify; [apply toValue_plain | exact Hsafe].
Qed.

End WireFormat.

(** What the serializer writes for some values. *)
Example stringify_examples :
  JSON.stringify (JSON.Array [JSON.Number 1; JSON.Number (-20); JSON.Null;
                              JSON.Bool true; JSON.Array []; JSON.Object []])
    = "[1,-20,null,true,[],{}]"%string /\
  JSON.parse "  [ 1 , -20 , null , true , [ ] , { } ]  " =
    Some (JSON.Array [JSON.Number 1; JSON.Number (-20); JSON.Null;
                      JSON.Bool true; JSON.Array []; JSON.Object []]) /\
  JSON.parse "[1,]" = None /\
  JSON.parse "01" = None.
Proof. repeat split; reflexivity. Qed.

(** The edit of the specification's scenario goes over the wire and back. *)
Lemma serialize_deserialize_roundtrip_witness :
  let msg :=
    Protocol.DocEdit
      (Protocol.DocEditMessage.mk "x.py"
         [Protocol.TextChange.mk 0 0 "hi" 0 0 0 0] 1 "A") in
  Protocol.well_formed msg /\
  Protocol.deserializeMessage (Protocol.serializeMessage msg) =
    Some (Protocol.toValue msg).
Proof.
  intros msg.
  assert (Hwf : Protocol.well_formed msg) by reflexivity.
  split; [exact Hwf|].
  exact (serialize_deserialize_roundtrip msg Hwf).
Defined.

(** ** Ignore patterns and binary detection (src/utils.ts) *)

Section IgnorePatterns.
Import Utils.

Lemma split_nonempty (s : string) : split s <> [].
Proof.
  destruct s as [|c s]; simpl; [discriminate|].
  destruct (is_separator c); [discriminate|].
  destruct (split s); discriminate.
Qed.

(** Splitting at a separator splits the list of parts. *)
Lemma split_separator (a b : string) (c : ascii) :
  is_separator c = true -> split (a +:+ String c b) = split a ++ split b.
Proof.
  intros Hc. induction a as [|x a IH]; simpl.
  - now rewrite Hc.
  - rewrite IH. destruct (is_separator x); [reflexivity|].
    destruct (split a) as [|part parts] eqn:E; [now apply split_nonempty in E|].
    reflexivity.
Qed.

Lemma substring_all (s : string) : String.substring 0 (String.length s) s = s.
Proof. induction s as [|c s IH]; simpl; [reflexivity | now rewrite IH]. Qed.

Lemma substring_append (a b : string) :
  String.substring (String.length a) (String.length b) (a +:+ b) = b.
Proof. induction a as [|c a IH]; simpl; [apply substring_all | exact IH]. Qed.

Lemma length_append (a b : string) :
  String.length (a +:+ b) = (String.length a + String.length b)%nat.
Proof. induction a as [|c a IH]; simpl; [reflexivity | now rewrite IH]. Qed.

Lemma substring_split (n : nat) (s : string) :
  (n <= String.length s)%nat ->
  s = String.substring 0 n s +:+ String.substring n (String.length s - n) s.
Proof.
  revert n. induction s as [|c s IH]; intros n Hn; simpl in *.
  - destruct n; [reflexivity | lia].
  - destruct n as [|n]; simpl.
    + now rewrite substring_all.
    + change (String c s = String c (String.substring 0 n s +:+
                                    String.substring n (String.length s - n) s)).
      f_equal. apply IH. lia.
Qed.

(** [endsWith] says what it should. *)
Lemma endsWith_spec (s suffix : string) :
  endsWith s suffix = true <-> exists stem, s = stem +:+ suffix.
Proof.
  unfold endsWith, slice_from. rewrite andb_true_iff, Nat.leb_le, String.eqb_eq. split.
  - intros [Hle Heq].
    exists (String.substring 0 (String.length s - String.length suffix) s).
    rewrite <- Heq at 2. apply substring_split. lia.
  - intros [stem ->]. rewrite length_append. split; [lia|].
    replace (String.length stem + String.length suffix - String.length suffix)%nat
      with (String.length stem) by lia.
    replace (String.length stem + String.length suffix - String.length stem)%nat
      with (String.length suffix) by lia.
    apply substring_append.
Qed.

(** X1. Joining two paths with a separator: the result is ignored exactly when
    one of the two is, for the slash and for the backslash. *)
Theorem shouldIgnore_join :
  (forall a b : string,
     shouldIgnore (a +:+ "/" +:+ b) = shouldIgnore a || shouldIgnore b) /\
  (forall a b : string,
     shouldIgnore (a +:+ String "092" b) = shouldIgnore a || shouldIgnore b).
Proof.
  split; intros a b; unfold shouldIgnore; cbv zeta.
  - change ("/" +:+ b) with (String "/" b).
    rewrite split_separator by reflexivity. apply existsb_app.
  - rewrite split_separator by reflexivity. apply existsb_app.
Qed.

(** X2. A path is ignored exactly when one of its parts is one of the ten
    listed names or ends in [.pyc]. *)
Theorem shouldIgnore_iff (filePath : string) :
  shouldIgnore filePath = true <->
  exists part,
    In part (split filePath) /\
    (In part ["node_modules"; ".git"; ".vscode"; ".DS_Store"; "out"; "dist";
              ".collab-edit"; "__pycache__"; ".pytest_cache"; "thumbs.db"]
     \/ exists stem, part = stem +:+ ".pyc").
Proof.
  unfold shouldIgnore; cbv zeta. rewrite existsb_exists.
  split; intros (part & Hin & H); exists part; (split; [exact Hin|]).
  - unfold IGNORE_PATTERNS in H. cbn [existsb] in H.
    unfold matches in H. simpl startsWith in H. cbv iota in H.
    change (slice_from 1 "*.pyc") with ".pyc" in H.
    rewrite !orb_true_iff, !String.eqb_eq, endsWith_spec in H.
    simpl. intuition (subst; auto 12; discriminate).
  - unfold IGNORE_PATTERNS. cbn [existsb].
    unfold matches. simpl startsWith. cbv iota.
    change (slice_from 1 "*.pyc") with ".pyc".
    rewrite !orb_true_iff, !String.eqb_eq, endsWith_spec.
    simpl in H. intuition (subst; auto 14).
Qed.

End IgnorePatterns.

Section BinaryDetection.
Import Utils.

Lemma zero_in_window (n : nat) (buffer : list Byte.byte) :
  existsb (fun i => match nth_error buffer i with
                    | Some Byte.x00 => true
                    | _ => false
                    end)
          (seq 0 (Nat.min (List.length buffer) n)) = true <->
  In Byte.x00 (firstn n buffer).
Proof.
  rewrite existsb_exists. split.
  - intros (i & Hi & Hz). apply in_seq in Hi.
    destruct (nth_error buffer i) as [b|] eqn:E; [|discriminate].
    assert (b = Byte.x00) as -> by (destruct b; try discriminate; reflexivity).
    apply (nth_error_In _ i). rewrite nth_error_firstn.
    destruct (Nat.ltb_spec i n); [exact E | lia].
  - intros Hin. apply In_nth_error in Hin as [i Hi].
    assert (Hlt : (i < List.length (firstn n buffer))%nat)
      by (apply nth_error_Some; congruence).
    rewrite length_firstn in Hlt.
    rewrite nth_error_firstn in Hi.
    destruct (Nat.ltb_spec i n); [|discriminate].
    exists i. split; [apply in_seq; lia | now rewrite Hi].
Qed.

(** X3. A buffer is taken for binary exactly when one of its first 8192 bytes
    is zero; later bytes are never looked at, and the empty buffer is text. *)
#[warnings="-abstract-large-number"]
Theorem isBinaryFile_iff (buffer : list Byte.byte) :
  isBinaryFile buffer = true <-> In Byte.x00 (firstn 8192 buffer).
Proof. unfold isBinaryFile. apply zero_in_window. Qed.

End BinaryDetection.

(** ** The rate limiters (src/utils.ts) *)

Section ThrottleFacts.
Import Utils Utils.Throttle.
Variable A : Type.
Variable limit : Z.

Lemma spaced_push (times : list Z) (t : Z) :
  spaced limit times -> Forall (fun t' => t' + limit <= t) times ->
  spaced limit (times ++ [t]).
Proof.
  induction times as [|t1 rest IH]; intros Hs Hall; simpl; [tauto|].
  destruct Hs as [H1 Hs]. inversion Hall as [|? ? Ht1 Hrest]; subst.
  split; [|now apply IH].
  destruct rest as [|t2 rest']; simpl; [exact Ht1 | exact H1].
Qed.

Lemma throttle_inv_init t0 : throttle_inv limit (init (A:=A) t0).
Proof. unfold throttle_inv; simpl. repeat split; constructor. Qed.

Lemma throttle_inv_step (s : State A) e :
  throttle_inv limit s -> throttle_inv limit (step limit s e).
Proof.
  intros [Hsp Hinv]. destruct e as [args|ms]; cbn [step].
  - unfold call. destruct (inThrottle s) eqn:Hth; cbn [negb].
    + split; [exact Hsp|]. rewrite Hth. exact Hinv.
    + destruct Hinv as [Ht Hall]. unfold throttle_inv, push.
      cbn [calls inThrottle timers clock]. split.
      * rewrite map_app. cbn [List.map fst]. apply spaced_push; [exact Hsp|].
        apply Forall_forall. intros t' Hin. apply in_map_iff in Hin as (c & <- & Hc).
        rewrite Forall_forall in Hall. now apply Hall.
      * exists (calls s), (clock s), args. rewrite Ht.
        repeat split; [lia | exact Hall].
  - unfold advance, throttle_inv. cbn [calls inThrottle timers clock].
    split; [exact Hsp|].
    destruct (inThrottle s) eqn:Hth.
    + destruct Hinv as (earlier & t & a & Hc & Ht & Hle & Hall). rewrite Ht.
      cbn [List.filter]. destruct (Z.leb_spec (t + limit) (clock s + ms)); cbn [negb].
      * split; [reflexivity|].
        rewrite Hc. apply Forall_app. split.
        -- eapply Forall_impl; [|exact Hall]. cbn beta. intros c Hc'. lia.
        -- constructor; [cbn [fst]; lia | constructor].
      * exists earlier, t, a. repeat split; [exact Hc | lia | exact Hall].
    + destruct Hinv as [Ht Hall]. rewrite Ht. cbn [List.filter].
      split; [reflexivity|].
      eapply Forall_impl; [|exact Hall]. cbn beta. intros c Hc'. lia.
Qed.

Lemma throttle_inv_run events (s : State A) :
  throttle_inv limit s -> throttle_inv limit (run limit events s).
Proof.
  revert s. induction events as [|e events IH]; intros s Hs; simpl; [exact Hs|].
  apply IH, throttle_inv_step, Hs.
Qed.

(** X4. Whatever the calls and pauses, two consecutive calls that [throttle]
    lets through to [func] are at least [limit] milliseconds apart. *)
Theorem throttle_spacing (t0 : Z) (events : list (Event A)) :
  spaced limit (List.map fst (calls (run limit events (init t0)))).
Proof. apply (throttle_inv_run events), throttle_inv_init. Qed.

Lemma throttle_pending_step (s : State A) e :
  0 < limit -> throttle_pending s -> throttle_pending (step limit s e).
Proof.
  intros Hpos Hp. unfold throttle_pending in *. destruct e as [args|ms]; simpl.
  - unfold call. destruct (inThrottle s); simpl; [exact Hp|].
    unfold push. apply Forall_app. split; [exact Hp|].
    constructor; [lia | constructor].
  - apply Forall_forall. intros d Hd. apply filter_In in Hd as [Hd Hlate].
    rewrite Forall_forall in Hp. specialize (Hp d Hd).
    apply negb_true_iff, Z.leb_gt in Hlate. lia.
Qed.

Lemma throttle_pending_run events (s : State A) :
  0 < limit -> throttle_pending s -> throttle_pending (run limit events s).
Proof.
  intros Hpos. revert s. induction events as [|e events IH]; intros s Hs; simpl;
    [exact Hs|].
  apply IH, throttle_pending_step; assumption.
Qed.

(** X5. Which calls pass: with a positive limit, a call is handed to [func]
    exactly when no earlier call was, or the last one that was lies at least
    [limit] back; any other call is dropped, not deferred. *)
Theorem throttle_leading_edge (t0 : Z) (events : list (Event A)) (args : A) :
  0 < limit ->
  let s := run limit events (init t0) in
  calls (call limit args s) =
    match rev (calls s) with
    | [] => calls s ++ [(clock s, args)]
    | (t, _) :: _ =>
        if t + limit <=? clock s then calls s ++ [(clock s, args)] else calls s
    end.
Proof.
  intros Hpos s.
  assert (Hinv : throttle_inv limit s) by apply (throttle_inv_run events), throttle_inv_init.
  assert (Hp : throttle_pending s).
  { apply (throttle_pending_run events); [exact Hpos | constructor]. }
  destruct Hinv as [_ Hinv]. unfold call, throttle_pending in *.
  destruct (inThrottle s) eqn:Hth; simpl.
  - destruct Hinv as (earlier & t & a & Hc & Ht & _ & _).
    rewrite Hc, rev_app_distr. simpl. rewrite Ht in Hp.
    inversion Hp as [|? ? Hlt _]; subst.
    destruct (Z.leb_spec (t + limit) (clock s)); [lia | reflexivity].
  - destruct Hinv as [_ Hall]. unfold push.
    destruct (rev (calls s)) as [|[t a] l] eqn:E; [reflexivity|].
    assert (Hin : In (t, a) (calls s)).
    { apply in_rev. rewrite E. now left. }
    rewrite Forall_forall in Hall. specialize (Hall _ Hin). simpl in Hall.
    destruct (Z.leb_spec (t + limit) (clock s)); [reflexivity | lia].
Qed.

End ThrottleFacts.

(** Cursor updates at 0, 40, 90, 130 and 240 ms with a limit of 100 ms. *)
Lemma throttle_leading_edge_witness :
  0 < 100 /\
  Utils.Throttle.calls
    (Utils.Throttle.run 100
       [Utils.Throttle.Call 1%nat; Utils.Throttle.Wait 40; Utils.Throttle.Call 2%nat;
        Utils.Throttle.Wait 50; Utils.Throttle.Call 3%nat; Utils.Throttle.Wait 40;
        Utils.Throttle.Call 4%nat; Utils.Throttle.Wait 110; Utils.Throttle.Call 5%nat]
       (Utils.Throttle.init 0)) =
  [(0, 1%nat); (130, 4%nat); (240, 5%nat)].
Proof.
  split; [lia|].
  pose proof (throttle_leading_edge nat 100 0
                [Utils.Throttle.Call 1%nat; Utils.Throttle.Wait 40;
                 Utils.Throttle.Call 2%nat; Utils.Throttle.Wait 50;
                 Utils.Throttle.Call 3%nat; Utils.Throttle.Wait 40;
                 Utils.Throttle.Call 4%nat; Utils.Throttle.Wait 110] 5%nat
                ltac:(lia)) as H.
  exact H.
Defined.

Section DebounceFacts.
Import Utils Utils.Debounce.
Variable A : Type.
Variable wait : Z.

Lemma debounce_call_timers (a : A) (s : State A) :
  debounce_inv s ->
  timers (call wait a s) = [{| handle := next s; due := clock s + wait; args := a |}] /\
  calls (call wait a s) = [] /\ clock (call wait a s) = clock s.
Proof.
  intros [Hc Ht]. unfold call, push. cbn [timers calls clock]. split; [|now split].
  destruct Ht as [Ht | (tm & Ht & Hto)].
  - rewrite Ht. destruct (timeout s); reflexivity.
  - rewrite Hto, Ht. cbn [clearTimeout List.filter]. now rewrite Nat.eqb_refl.
Qed.

Lemma debounce_inv_pair (a : A) (d : Z) (s : State A) :
  d < wait -> debounce_inv s ->
  debounce_inv (step wait (step wait s (Call a)) (Wait d)).
Proof.
  intros Hd Hs. destruct (debounce_call_timers a s Hs) as (Ht & Hc & Hk).
  cbn [step]. unfold advance, debounce_inv. cbn [timers calls timeout].
  rewrite Ht, Hc, Hk. cbn [List.filter due].
  destruct (Z.leb_spec (clock s + wait) (clock s + d)); [lia|].
  cbn [negb List.map app]. split; [reflexivity|]. right.
  eexists. split; reflexivity.
Qed.

Lemma debounce_inv_burst (l : list (A * Z)) (s : State A) :
  Forall (fun c => snd c < wait) l -> debounce_inv s ->
  debounce_inv (run wait (burst l) s).
Proof.
  revert s. induction l as [|[a d] l IH]; intros s Hl Hs; [exact Hs|].
  inversion Hl as [|? ? Hd Hl']; subst. cbn [burst flat_map app run fold_left fst snd].
  apply (IH _ Hl'). now apply debounce_inv_pair.
Qed.

Lemma debounce_run_app (evs1 evs2 : list (Event A)) (s : State A) :
  run wait (evs1 ++ evs2) s = run wait evs2 (run wait evs1 s).
Proof. apply fold_left_app. Qed.

(** X6. A burst of calls, each less than [wait] milliseconds after the one
    before, runs [func] once: not before [wait] milliseconds have passed since
    the last call, and then with the arguments of the last call. *)
Theorem debounce_burst (t0 : Z) (l : list (A * Z)) (a : A) :
  Forall (fun c => snd c < wait) l ->
  let s := run wait (burst l ++ [Call a]) (init t0) in
  calls s = [] /\
  forall t, calls (advance t s) = if clock s + wait <=? t then [a] else [].
Proof.
  intros Hl s.
  assert (Hinv : debounce_inv (run wait (burst l) (init (A:=A) t0))).
  { apply debounce_inv_burst; [exact Hl|]. split; [reflexivity | now left]. }
  subst s. rewrite debounce_run_app. cbn [run fold_left step].
  destruct (debounce_call_timers a _ Hinv) as (Ht & Hc & Hk).
  split; [exact Hc|]. intros t. unfold advance. cbn [calls].
  rewrite Ht, Hc, Hk. cbn [List.filter due app].
  destruct (Z.leb_spec (clock (run wait (burst l) (init t0)) + wait) t); reflexivity.
Qed.

End DebounceFacts.

(** Three calls 100 ms apart with a wait of 300 ms. *)
Lemma debounce_burst_witness :
  Forall (fun c : nat * Z => snd c < 300) [(1%nat, 100); (2%nat, 100)] /\
  Utils.Debounce.calls
    (Utils.Debounce.advance 500
       (Utils.Debounce.run 300
          [Utils.Debounce.Call 1%nat; Utils.Debounce.Wait 100;
           Utils.Debounce.Call 2%nat; Utils.Debounce.Wait 100;
           Utils.Debounce.Call 3%nat]
          (Utils.Debounce.init 0))) = [3%nat].
Proof.
  assert (H : Forall (fun c : nat * Z => snd c < 300) [(1%nat, 100); (2%nat, 100)]).
  { repeat constructor. }
  split; [exact H|].
  exact (proj2 (debounce_burst nat 300 0 [(1%nat, 100); (2%nat, 100)] 3%nat H) 500).
Defined.

(** ** Scanning the workspace (src/utils.ts, src/fileSync.ts) *)

Section Scanning.
Import Protocol Utils ManifestScan FileSyncM.

Variable path_join : string -> string -> string.
Variable toRelativePath : string -> string -> string.
Variable computeHash : list Byte.byte -> string.
Variable readFile : string -> option (list Byte.byte).
Variable stat_size : string -> option Z.

Lemma fold_left_Forall {X Y : Type} (P : X -> Prop) (f : list X -> Y -> list X)
      (l : list Y) (acc : list X) :
  Forall (fun y => forall acc', Forall P acc' -> Forall P (f acc' y)) l ->
  Forall P acc -> Forall P (fold_left f l acc).
Proof.
  revert acc. induction l as [|y l IH]; intros acc Hl Hacc; simpl; [exact Hacc|].
  inversion Hl as [|? ? Hy Hl']; subst. apply IH; [exact Hl' | now apply Hy].
Qed.

Lemma walk_entry_kept (root : string) (entry : Dirent) :
  forall currentDir results,
    Forall (fun p => shouldIgnore p = false) results ->
    Forall (fun p => shouldIgnore p = false)
           (walk_entry path_join toRelativePath root currentDir entry results).
Proof.
  induction entry using Dirent_nested_ind; intros currentDir results Hres; simpl;
    destruct (shouldIgnore _) eqn:Hig; try exact Hres.
  - unfold push. apply Forall_app. split; [exact Hres|]. now constructor.
  - apply fold_left_Forall; [|exact Hres].
    eapply Forall_impl; [|exact H]. intros e He acc' Hacc. now apply He.
Qed.

Lemma getAllFiles_kept (root dir : string) entries :
  Forall (fun p => shouldIgnore p = false)
         (getAllFiles path_join toRelativePath root dir entries).
Proof.
  destruct entries as [entries|]; unfold getAllFiles, walk; [|constructor].
  apply fold_left_Forall; [|constructor].
  apply Forall_forall. intros e _ acc' Hacc. now apply walk_entry_kept.
Qed.

(** X7. [getAllFiles] never lists a path that [shouldIgnore] rejects, whatever
    the directory tree, and lists nothing when the directory cannot be read. *)
Theorem getAllFiles_skips_ignored (root dir : string) :
  (forall entries,
     Forall (fun p => shouldIgnore p = false)
            (getAllFiles path_join toRelativePath root dir entries)) /\
  getAllFiles path_join toRelativePath root dir None = [].
Proof.
  split; [|reflexivity]. intros entries. apply getAllFiles_kept.
Qed.

(** What [generateManifest] says of a file it lists. *)
Lemma generateManifest_entries (root : string) (entries : option (list Dirent)) :
  Forall
    (fun f =>
       shouldIgnore (path f) = false /\
       exists content,
         readFile (path_join root (path f)) = Some content /\
         hash f = computeHash content /\
         stat_size (path_join root (path f)) = Some (size f))
    (generateManifest path_join toRelativePath computeHash readFile stat_size
                      root entries).
Proof.
  unfold generateManifest. cbv zeta.
  apply fold_left_Forall; [|constructor].
  pose proof (getAllFiles_kept root root entries) as Hfiles.
  eapply Forall_impl; [|exact Hfiles]. intros p Hp acc' Hacc. cbv beta.
  unfold toAbsolutePath.
  destruct (readFile _) as [content|] eqn:Hr; [|exact Hacc].
  destruct (stat_size _) as [sz|] eqn:Hs; [|exact Hacc].
  unfold push. apply Forall_app. split; [exact Hacc|].
  constructor; [|constructor]. simpl. split; [exact Hp|]. now exists content.
Qed.

End Scanning.

(** ** More on the manifest diff and the initial sync (src/fileSync.ts) *)

Section ManifestDiffMore.
Import Protocol Utils ManifestScan FileSyncM.

Variable path_join : string -> string -> string.
Variable path_dirname : string -> string.
Variable fs_latency : FsCall -> Z.

Lemma no_member_nil {X : Type} (l : list X) : (forall x, ~ In x l) -> l = [].
Proof. destruct l as [|x l]; [reflexivity|]. intros H. destruct (H x). now left. Qed.

(** X8. A manifest diffed against itself asks for nothing: no download and no
    deletion, also when a path is listed more than once. *)
Theorem compareManifest_self (manifest : list FileInfo) :
  compareManifest manifest manifest = {| toDownload := []; toDelete := [] |}.
Proof.
  assert (Hd : toDownload (compareManifest manifest manifest) = []).
  { apply no_member_nil. intros p Hp. apply toDownload_In in Hp as [Hin Hp].
    destruct Hp as [Hn | (lf & rf & Hl & Hr & Hne)]; [contradiction|].
    rewrite Hl in Hr. injection Hr as <-. now apply Hne. }
  assert (Hx : toDelete (compareManifest manifest manifest) = []).
  { apply no_member_nil. intros p Hp. apply toDelete_In in Hp as [Hin Hn].
    contradiction. }
  destruct (compareManifest manifest manifest) as [down del]. simpl in *. congruence.
Qed.

(** X9. Against an empty remote manifest, the initial sync deletes every path
    of the local manifest, each once and each suppressed when its [unlink] is
    issued, then reports completion at once; it requests nothing. *)
Theorem startInitialSync_empty_remote localManifest onComplete (w : World) :
  let w' := startInitialSync path_join fs_latency localManifest
                             {| FileManifestMessage.files := [] |} onComplete w in
  exists paths deletions,
    effects w' = effects w ++ deletions ++ [OnComplete onComplete] /\
    Forall2 (deletes path_join (workspaceRoot (self w))) paths deletions /\
    NoDup paths /\
    (forall p, In p paths <-> In p (List.map path localManifest)) /\
    pendingFiles (self w') = pendingFiles (self w).
Proof.
  cbv zeta. unfold startInitialSync. cbn [FileManifestMessage.files].
  set (d := compareManifest localManifest []).
  assert (Hd : toDownload d = []).
  { apply no_member_nil. intros p Hp. apply toDownload_In in Hp as [Hin _].
    exact Hin. }
  rewrite Hd. cbn [List.length Nat.eqb].
  destruct (deleteAll_spec path_join path_dirname fs_latency (toDelete d) w)
    as (deletions & He & Hdel & _ & Hp & _).
  exists (toDelete d), deletions. cbn [effects emit self]. unfold push.
  rewrite He, <- app_assoc. split; [reflexivity|]. split; [exact Hdel|].
  split; [apply toDelete_NoDup|]. split; [|exact Hp].
  intros p. unfold d. rewrite toDelete_In. simpl. tauto.
Qed.

Variable toRelativePath : string -> string -> string.
Variable computeHash : list Byte.byte -> string.
Variable readFile : string -> option (list Byte.byte).
Variable stat_size : string -> option Z.

(** X10. [generateManifest] lists only paths that are not ignored, each with
    the hash of what [readFile] returned for it and the size [stat] reported;
    a file whose read or [stat] fails is left out. *)
Theorem generateManifest_sound (root : string) (entries : option (list Dirent)) :
  Forall
    (fun f =>
       shouldIgnore (path f) = false /\
       exists content,
         readFile (path_join root (path f)) = Some content /\
         hash f = computeHash content /\
         stat_size (path_join root (path f)) = Some (size f))
    (generateManifest path_join toRelativePath computeHash readFile stat_size
                      root entries).
Proof. apply generateManifest_entries. Qed.

(** X11. The initial sync never deletes an ignored path: with the local
    manifest that [generateManifest] produced, every path of [toDelete] passes
    [shouldIgnore], whatever the remote manifest. *)
Theorem initial_sync_spares_ignored (root : string) (entries : option (list Dirent))
        (remoteManifest : list FileInfo) :
  let localManifest :=
    generateManifest path_join toRelativePath computeHash readFile stat_size
                     root entries in
  Forall (fun p => shouldIgnore p = false)
         (toDelete (compareManifest localManifest remoteManifest)).
Proof.
  cbv zeta. apply Forall_forall. intros p Hp. apply toDelete_In in Hp as [Hin _].
  apply in_map_iff in Hin as (f & <- & Hf).
  pose proof (generateManifest_entries path_join toRelativePath computeHash readFile
                stat_size root entries) as Hall.
  rewrite Forall_forall in Hall. now destruct (Hall f Hf).
Qed.

End ManifestDiffMore.

(** ** Suppression does not outlive its timers (src/fileSync.ts) *)

Section SuppressionExpires.
Import Protocol FileSyncM FileSyncRun.

Variable path_join : string -> string -> string.
Variable path_dirname : string -> string.
Variable fs_latency : FsCall -> Z.

#[local] Arguments advance : simpl never.
#[local] Arguments suppressPath : simpl never.

(** The invariant looks at the suppression set, the timers and the clock only. *)
Lemma timers_cover_same (w w' : World) :
  suppressedPaths (self w') = suppressedPaths (self w) ->
  timers w' = timers w -> clock w' = clock w ->
  timers_cover w -> timers_cover w'.
Proof. unfold timers_cover. intros -> -> ->. auto. Qed.

Lemma timers_cover_suppressPath p w : timers_cover w -> timers_cover (suppressPath p w).
Proof.
  unfold timers_cover, suppressPath, setTimeout, push. simpl. intros H q Hq.
  apply elem_of_union in Hq as [Hq | Hq].
  - apply elem_of_singleton in Hq as ->. exists (clock w + 3000).
    split; [apply in_or_app; right; now left | lia].
  - destruct (H q Hq) as (due & Hin & Hle). exists due.
    split; [apply in_or_app; now left | exact Hle].
Qed.

Lemma timers_advance t w :
  timers (advance t w) = List.filter (fun timer => negb (fst timer <=? t)) (timers w) /\
  clock (advance t w) = Z.max (clock w) t.
Proof.
  unfold advance. simpl. split; reflexivity.
Qed.

Lemma timers_cover_advance t w : timers_cover w -> timers_cover (advance t w).
Proof.
  unfold timers_cover. intros H q Hq.
  destruct (timers_advance t w) as [Ht Hc]. rewrite Ht, Hc.
  rewrite suppressedPaths_advance in Hq. apply elem_of_difference in Hq as [Hq Hnot].
  destruct (H q Hq) as (due & Hin & Hle). exists due. split; [|lia].
  apply filter_In. split; [exact Hin|]. simpl.
  destruct (Z.leb_spec due t) as [Hdue|]; [|reflexivity].
  exfalso. apply Hnot. apply elem_of_list_to_set, list_elem_of_In.
  apply in_map_iff. exists (due, q). split; [reflexivity|].
  apply filter_In. split; [exact Hin|]. simpl. now apply Z.leb_le.
Qed.

Lemma timers_cover_await_fs call w :
  timers_cover w -> timers_cover (await_fs fs_latency call w).
Proof.
  intros H. unfold await_fs. apply timers_cover_advance.
  now apply (timers_cover_same w).
Qed.

Lemma timers_cover_safeWriteFile filePath data w :
  timers_cover w -> timers_cover (safeWriteFile path_dirname fs_latency filePath data w).
Proof.
  intros H. unfold safeWriteFile, ensureDir. now do 2 apply timers_cover_await_fs.
Qed.

Lemma timers_cover_deleteFile p w :
  timers_cover w -> timers_cover (deleteFile path_join fs_latency p w).
Proof.
  intros H. unfold deleteFile, safeDeleteFile.
  now apply timers_cover_await_fs, timers_cover_suppressPath.
Qed.

Lemma timers_cover_requestLoop fuel l batchSize i w :
  timers_cover w -> timers_cover (requestLoop fuel l batchSize i w).
Proof.
  revert i w. induction fuel as [|fuel IH]; intros i w H; simpl; [exact H|].
  destruct (i <? List.length l)%nat; [|exact H].
  apply IH. now apply (timers_cover_same w).
Qed.

Lemma timers_cover_apply w op :
  timers_cover w -> timers_cover (apply path_join path_dirname fs_latency w op).
Proof.
  intros H. destruct op; cbn [apply].
  - now apply timers_cover_suppressPath.
  - unfold writeReceivedFile.
    set (w1 := safeWriteFile _ _ _ _ _).
    assert (H1 : timers_cover w1)
      by now apply timers_cover_safeWriteFile, timers_cover_suppressPath.
    clearbody w1. destruct writeOk; [|exact H1].
    cbv zeta. destruct (Nat.eqb _ 0).
    + cbn [self set_pendingFiles syncCompleteCallback].
      destruct (syncCompleteCallback (self w1));
        now apply (timers_cover_same w1).
    + now apply (timers_cover_same w1).
  - unfold createFile.
    now apply timers_cover_safeWriteFile, timers_cover_suppressPath.
  - now apply timers_cover_deleteFile.
  - unfold renameFile. cbv zeta.
    destruct mkdirOk; repeat apply timers_cover_await_fs;
      now do 2 apply timers_cover_suppressPath.
  - unfold startInitialSync. cbv zeta.
    set (d := compareManifest _ _).
    assert (H1 : timers_cover
                   (fold_left (fun w filePath => deleteFile path_join fs_latency filePath w)
                              (toDelete d) w)).
    { clear -H. revert w H. induction (toDelete d) as [|p l IH]; intros w H; simpl;
        [exact H|]. apply IH. now apply timers_cover_deleteFile. }
    set (w1 := fold_left _ (toDelete d) w) in *. clearbody w1.
    destruct (Nat.eqb _ 0).
    + now apply (timers_cover_same w1).
    + apply (timers_cover_same (requestLoop (S (List.length (toDownload d)))
                                            (toDownload d) 10 0
               (set_syncCompleteCallback (Some onComplete)
                  (set_pendingFiles (list_to_set (toDownload d)) w1))));
        try reflexivity.
      apply timers_cover_requestLoop. now apply (timers_cover_same w1).
  - now apply timers_cover_advance.
Qed.

Lemma timers_cover_run ops w :
  timers_cover w -> timers_cover (run path_join path_dirname fs_latency ops w).
Proof.
  revert w. induction ops as [|op ops IH]; intros w H; simpl; [exact H|].
  apply IH, timers_cover_apply, H.
Qed.

(** X12. Suppression never leaks: whatever was done with a [FileSync] since it
    was created, once 3000 ms have passed without a further call no path is
    suppressed any more. *)
Theorem suppression_expires (root : string) (t0 : Z) (ops : list Op) (t : Z) :
  let w := run path_join path_dirname fs_latency ops (newFileSync root t0) in
  clock w + 3000 <= t ->
  forall p, isSuppressed p (advance t w) = false.
Proof.
  intros w Ht p.
  assert (Hinv : timers_cover w).
  { apply timers_cover_run. intros q Hq. simpl in Hq. set_solver. }
  unfold isSuppressed. apply bool_decide_eq_false. intros Hp.
  rewrite suppressedPaths_advance in Hp. apply elem_of_difference in Hp as [Hp Hnot].
  destruct (Hinv p Hp) as (due & Hin & Hle). apply Hnot.
  apply elem_of_list_to_set, list_elem_of_In, in_map_iff.
  exists (due, p). split; [reflexivity|].
  apply filter_In. split; [exact Hin|]. simpl. apply Z.leb_le. lia.
Qed.

End SuppressionExpires.

(** Two overlapping suppressions of one path and a remote deletion. *)
Lemma suppression_expires_witness :
  let w := FileSyncRun.run (fun a b => a +:+ "/" +:+ b) (fun p => p) (fun _ => 5)
             [FileSyncRun.SuppressPath "a.txt"; FileSyncRun.Elapse 2000;
              FileSyncRun.SuppressPath "a.txt"; FileSyncRun.DeleteFile "b.txt"]
             (FileSyncM.newFileSync "/ws" 0) in
  FileSyncM.clock w + 3000 <= 5005 /\
  FileSyncM.isSuppressed "a.txt" (FileSyncM.advance 5005 w) = false.
Proof.
  assert (H : FileSyncM.clock
                (FileSyncRun.run (fun a b => a +:+ "/" +:+ b) (fun p => p) (fun _ => 5)
                   [FileSyncRun.SuppressPath "a.txt"; FileSyncRun.Elapse 2000;
                    FileSyncRun.SuppressPath "a.txt"; FileSyncRun.DeleteFile "b.txt"]
                   (FileSyncM.newFileSync "/ws" 0)) + 3000 <= 5005)
    by (vm_compute; discriminate).
  split; [exact H|].
  exact (suppression_expires (fun a b => a +:+ "/" +:+ b) (fun p => p) (fun _ => 5)
           "/ws" 0 _ 5005 H "a.txt").
Defined.

(** ** The initial sync from end to end (src/fileSync.ts, src/extension.ts) *)

Section InitialSyncEndToEnd.
Import Protocol Utils ManifestScan FileSyncM FileSyncRun.

Variable path_join : string -> string -> string.
Variable path_dirname : string -> string.
Variable fs_latency : FsCall -> Z.

(** The host's side: its [path.join], its file system and its encoders. *)
Variable host_join : string -> string -> string.
Variable readFile : string -> option (list Byte.byte).
Variable toString_base64 : list Byte.byte -> string.
Variable toString_utf8 : list Byte.byte -> string.
Variable hostRoot : string.

#[local] Arguments advance : simpl never.
#[local] Arguments await_fs : simpl never.
#[local] Arguments safeWriteFile : simpl never.
#[local] Arguments suppressPath : simpl never.
#[local] Arguments deleteFile : simpl never.

Lemma skipn_length_app {X : Type} (l l' : list X) : skipn (List.length l) (l ++ l') = l'.
Proof. induction l as [|x l IH]; simpl; [reflexivity | exact IH]. Qed.

Lemma requests_app es1 es2 : requests (es1 ++ es2) = requests es1 ++ requests es2.
Proof. unfold requests. apply flat_map_app. Qed.

Lemma requests_RequestFiles batches :
  requests (List.map RequestFiles batches) = List.map FileRequestMessage.paths batches.
Proof. induction batches as [|b l IH]; simpl; [reflexivity | now rewrite IH]. Qed.

Lemma deletions_silent root paths deletions :
  Forall2 (deletes path_join root) paths deletions ->
  requests deletions = [] /\ completions deletions = [].
Proof.
  induction 1 as [|p e paths deletions (s & -> & _) _ [IH1 IH2]]; simpl;
    [split; reflexivity|].
  now rewrite IH1, IH2.
Qed.

(** What [startInitialSync] leaves behind. *)
Lemma startInitialSync_shape localManifest manifest onComplete (w : World) :
  let d := compareManifest localManifest (FileManifestMessage.files manifest) in
  let w' := startInitialSync path_join fs_latency localManifest manifest onComplete w in
  exists deletions,
    Forall2 (deletes path_join (workspaceRoot (self w))) (toDelete d) deletions /\
    (toDownload d = [] ->
       effects w' = effects w ++ deletions ++ [OnComplete onComplete]) /\
    (toDownload d <> [] ->
       exists batches,
         effects w' = effects w ++ deletions ++ List.map RequestFiles batches ++
                      [WithProgress (List.length (toDownload d))] /\
         List.concat (List.map FileRequestMessage.paths batches) = toDownload d /\
         sync_state onComplete (effects w') w' /\
         pendingFiles (self w') = list_to_set (toDownload d)).
Proof.
  intros d w'. subst w'. unfold startInitialSync. fold d.
  destruct (deleteAll_spec path_join path_dirname fs_latency (toDelete d) w)
    as (deletions & He & Hdel & Hr & Hp & Hc).
  remember (fold_left _ (toDelete d) w) as w1 eqn:Hw1. clear Hw1.
  exists deletions. split; [exact Hdel|].
  destruct (toDownload d) as [|p0 rest0] eqn:Hdown.
  - split; [|congruence]. intros _. simpl. unfold push. now rewrite He, <- app_assoc.
  - split; [discriminate|]. intros _.
    set (l := p0 :: rest0) in *.
    change (Nat.eqb (List.length l) 0) with false. cbv iota zeta.
    set (w2 := set_syncCompleteCallback (Some onComplete)
                 (set_pendingFiles (list_to_set l) w1)).
    destruct (requestLoop_spec (S (List.length l)) l 10 0 w2)
      as (batches & Hbe & Hbs & Hbc & Hbf); [lia | lia |].
    remember (requestLoop (S (List.length l)) l 10 0 w2) as w3 eqn:Hw3. clear Hw3.
    exists batches. split.
    { simpl. unfold push. rewrite Hbe. simpl. rewrite He. now rewrite <- !app_assoc. }
    split; [exact Hbc|]. split.
    + apply Waiting with (later := []).
      * simpl. now rewrite Hbs.
      * simpl. rewrite Hbs. simpl. subst l. set_solver.
      * now rewrite app_nil_r.
      * reflexivity.
    + simpl. now rewrite Hbs.
Qed.


Lemma serveFiles_spec paths sent :
  fold_left
    (fun sent filePath =>
       match readFileForSend host_join readFile toString_base64 toString_utf8
                             hostRoot filePath with
       | Some fileContent => push sent fileContent
       | None => sent
       end) paths sent =
  sent ++ flat_map
            (fun p => match readFileForSend host_join readFile toString_base64
                                            toString_utf8 hostRoot p with
                      | Some m => [m]
                      | None => []
                      end) paths.
Proof.
  revert sent. induction paths as [|p paths IH]; intros sent; simpl;
    [now rewrite app_nil_r|].
  rewrite IH. destruct (readFileForSend _ _ _ _ _ p); [|reflexivity].
  unfold push. now rewrite <- app_assoc.
Qed.

Lemma served_paths paths :
  List.map FileContentMessage.path
           (serveFiles host_join readFile toString_base64 toString_utf8 hostRoot paths) =
  List.filter (ManifestScan.readable host_join readFile hostRoot) paths.
Proof.
  unfold serveFiles. rewrite serveFiles_spec. simpl.
  induction paths as [|p paths IH]; simpl; [reflexivity|].
  unfold readFileForSend at 1, ManifestScan.readable at 1, toAbsolutePath.
  destruct (readFile (host_join hostRoot p)); simpl; now rewrite IH.
Qed.

Lemma written_served (batches : list (list string)) :
  written
    (flat_map
       (fun paths =>
          List.map (fun m => (m, true))
                   (serveFiles host_join readFile toString_base64 toString_utf8
                               hostRoot paths)) batches) =
  list_to_set (List.filter (ManifestScan.readable host_join readFile hostRoot)
                           (List.concat batches)).
Proof.
  unfold written. f_equal.
  induction batches as [|b batches IH]; simpl; [reflexivity|].
  rewrite filter_app, map_app, IH, List.filter_app. f_equal.
  rewrite <- served_paths.
  induction (serveFiles _ _ _ _ _ b) as [|m l IHl]; simpl; [reflexivity|].
  now rewrite IHl.
Qed.

Lemma all_readable_iff (l : list string) :
  (list_to_set l ∖
   list_to_set (List.filter (ManifestScan.readable host_join readFile hostRoot) l)
   : gset string) = ∅ <->
  forallb (ManifestScan.readable host_join readFile hostRoot) l = true.
Proof.
  rewrite forallb_forall. split.
  - intros H p Hp.
    destruct (ManifestScan.readable host_join readFile hostRoot p) eqn:E;
      [reflexivity|]. exfalso.
    assert (Hin : p ∈ (list_to_set l ∖
                       list_to_set (List.filter
                                      (ManifestScan.readable host_join readFile hostRoot) l)
                       : gset string)).
    { apply elem_of_difference. split.
      - now apply elem_of_list_to_set, list_elem_of_In.
      - rewrite elem_of_list_to_set, list_elem_of_In, filter_In. intros [_ Hr].
        congruence. }
    rewrite H in Hin. set_solver.
  - intros H. apply set_eq. intros p. split; [|set_solver].
    intros Hp. apply elem_of_difference in Hp as [Hp Hn]. exfalso. apply Hn.
    apply elem_of_list_to_set, list_elem_of_In in Hp.
    apply elem_of_list_to_set, list_elem_of_In, filter_In. split; [exact Hp | now apply H].
Qed.

(** X13. The initial sync from end to end: the client starts the sync, the host
    answers every request with the files it can read, every answer arrives
    and every write on the client succeeds.  Then the completion callback has been invoked, once,
    exactly when the host could read every path of [toDownload]; one file the
    host cannot read and the sync never completes. *)
Theorem initial_sync_completes_iff localManifest manifest onComplete (w : World) :
  let d := compareManifest localManifest (FileManifestMessage.files manifest) in
  let w' := startInitialSync path_join fs_latency localManifest manifest onComplete w in
  let sent := skipn (List.length (effects w)) (effects w') in
  let received :=
    flat_map
      (fun paths =>
         List.map (fun m => (m, true))
                  (serveFiles host_join readFile toString_base64 toString_utf8
                              hostRoot paths))
      (requests sent) in
  let w'' := receiveAll path_join path_dirname fs_latency received w' in
  completions (skipn (List.length (effects w)) (effects w'')) =
    if forallb (ManifestScan.readable host_join readFile hostRoot) (toDownload d)
    then [onComplete] else [].
Proof.
  intros d w'.
  destruct (startInitialSync_shape localManifest manifest onComplete w)
    as (deletions & Hdel & Hempty & Hsome).
  fold d in Hdel, Hempty, Hsome. fold w' in Hempty, Hsome. clearbody w' d.
  destruct (deletions_silent _ _ _ Hdel) as [Hrq Hcp].
  destruct (toDownload d) as [|p0 rest0] eqn:Hdown.
  - specialize (Hempty eq_refl). cbv zeta. rewrite Hempty, skipn_length_app.
    rewrite requests_app, Hrq. simpl. unfold receiveAll. simpl.
    rewrite Hempty, skipn_length_app, completions_app, Hcp. reflexivity.
  - destruct Hsome as (batches & He & Hconcat & Hst & Hpend); [discriminate|].
    rewrite <- Hdown in *. clear Hdown p0 rest0.
    cbv zeta. rewrite He at 1. rewrite skipn_length_app.
    rewrite !requests_app, Hrq, requests_RequestFiles. simpl. rewrite app_nil_r.
    set (received := flat_map _ _).
    destruct (receiveAll_spec path_join path_dirname fs_latency onComplete (effects w')
                received w' Hst) as [Hst' Hp'].
    unfold received in Hp'. rewrite written_served, Hconcat, Hpend in Hp'.
    fold received in Hp'.
    assert (Hcompl : forall later,
               effects (receiveAll path_join path_dirname fs_latency received w') =
                 effects w' ++ later ->
               completions
                 (skipn (List.length (effects w))
                        (effects (receiveAll path_join path_dirname fs_latency
                                             received w'))) =
               completions later).
    { intros later Hl. rewrite Hl, He, <- !app_assoc, skipn_length_app.
      rewrite !completions_app, Hcp.
      assert (Hb : completions (List.map RequestFiles batches) = []).
      { clear. induction batches; simpl; auto. }
      now rewrite Hb. }
    destruct Hst' as [later Hcb Hne Heff Hc | later Hcb Hnone Heff Hc];
      rewrite (Hcompl later Heff), Hc.
    + rewrite Hp' in Hne.
      destruct (forallb (ManifestScan.readable host_join readFile hostRoot)
                        (toDownload d)) eqn:E;
        [|reflexivity]. exfalso. apply Hne. now apply all_readable_iff.
    + rewrite Hp' in Hnone. apply all_readable_iff in Hnone. now rewrite Hnone.
Qed.

End InitialSyncEndToEnd.

(** ** More on the host's message handling (src/server.ts) *)

Section ServerRelay.
Import Protocol Server ServerView.

#[local] Arguments broadcast : simpl never.
#[local] Arguments broadcastExcept : simpl never.
#[local] Arguments getAllUsers : simpl never.

Lemma skipn_effects {X : Type} (l l' : list X) : skipn (List.length l) (l ++ l') = l'.
Proof. induction l as [|x l IH]; simpl; [reflexivity | exact IH]. Qed.

Lemma sends_app es1 es2 : sends (es1 ++ es2) = sends es1 ++ sends es2.
Proof. unfold sends. apply flat_map_app. Qed.

Lemma sends_map_Send {X : Type} (socketOf : X -> WebSocket) msg (l : list X) :
  sends (List.map (fun x => Send (socketOf x) msg) l) =
  List.map (fun x => (socketOf x, msg)) l.
Proof. induction l as [|x l IH]; simpl; [reflexivity | now rewrite IH]. Qed.

(** X14. A socket that has not joined is ignored: whatever it sends, short of a
    [Join], changes nothing on the host and reaches nobody. *)
Theorem unjoined_socket_is_ignored (w : World) socket msg :
  truthy (clientIdOf w socket) = None ->
  match msg with Join _ _ => False | _ => True end ->
  on_message socket msg w = w.
Proof.
  intros Hid Hmsg. destruct msg; try contradiction;
    unfold on_message, handleClientMessage; now rewrite Hid.
Qed.

Lemma update_user_frame f clientId w :
  effects (update_user f clientId w) = effects w /\
  readyState (update_user f clientId w) = readyState w.
Proof.
  unfold update_user. destruct (JsMap.get clientId (clients (self w))); split; reflexivity.
Qed.

Lemma others_update_user f clientId w :
  others clientId (update_user f clientId w) = others clientId w.
Proof.
  unfold others. rewrite (proj2 (update_user_frame f clientId w)), update_user_clients.
  destruct (JsMap.get clientId (clients (self w))) as [client|]; [|reflexivity].
  apply (filter_other_keys_set
           (fun entry => isOpen (readyState w (ws (snd entry))))).
Qed.

Lemma broadcastExcept_added clientId msg w :
  effects (broadcastExcept clientId msg w) =
  effects w ++ List.map (fun entry => Send (ws (snd entry)) msg) (others clientId w).
Proof. apply broadcastExcept_spec. Qed.

(** X15. What a registered client sends, other than [Join] and [Heartbeat],
    goes unchanged to every other registered client whose socket is open,
    once each and in registry order, and to nobody else; the two file requests
    go to nobody. *)
Theorem relay_reaches_the_others (w : World) clientId msg :
  clientId <> ""%string ->
  sends (added w (handleClientMessage (Some clientId) msg w)) =
    if relayed msg
    then List.map (fun entry => (ws (snd entry), msg)) (others clientId w)
    else [].
Proof.
  intros Hid. unfold handleClientMessage, truthy, added.
  destruct (String.eqb_spec clientId "") as [|_]; [contradiction|].
  destruct msg; cbn [relayed emit effects]; unfold push;
    rewrite ?broadcastExcept_added, ?others_update_user,
            ?(proj1 (update_user_frame _ _ _)), <- ?app_assoc, ?skipn_effects,
            ?sends_app, ?sends_map_Send;
    cbn [sends flat_map app]; rewrite ?app_nil_r; reflexivity.
Qed.

End ServerRelay.

(** Bob, registered on socket 2, saves a file: Ann on socket 1 is told. *)
Lemma relay_reaches_the_others_witness :
  "b"%string <> ""%string /\
  ServerView.sends
    (ServerView.added Server.two_clients
       (Server.handleClientMessage (Some "b"%string) (Protocol.FileSave "x.ts" "b")
                                   Server.two_clients)) =
  [(1%nat, Protocol.FileSave "x.ts" "b")].
Proof.
  assert (H : "b"%string <> ""%string) by discriminate.
  split; [exact H|].
  exact (relay_reaches_the_others Server.two_clients "b" (Protocol.FileSave "x.ts" "b") H).
Defined.

(** A socket that connected but did not join sends a file deletion. *)
Lemma unjoined_socket_is_ignored_witness :
  Server.truthy (Server.clientIdOf (Server.on_connection 3%nat Server.two_clients) 3%nat)
    = None /\
  Server.on_message 3%nat (Protocol.FileDelete "x.ts" "mallory")
                    (Server.on_connection 3%nat Server.two_clients) =
  Server.on_connection 3%nat Server.two_clients.
Proof.
  split; [reflexivity|].
  exact (unjoined_socket_is_ignored
           (Server.on_connection 3%nat Server.two_clients) 3%nat
           (Protocol.FileDelete "x.ts" "mallory") eq_refl I).
Defined.

Section ServerRegistry.
Import Protocol Server ServerView.

#[local] Arguments broadcast : simpl never.
#[local] Arguments broadcastExcept : simpl never.
#[local] Arguments getAllUsers : simpl never.

Lemma on_message_join_frame socket userId' username' w :
  readyState (on_message socket (Join userId' username') w) = readyState w /\
  clientIdOf (on_message socket (Join userId' username') w) =
    (fun socket' => if Nat.eqb socket' socket then Some userId' else clientIdOf w socket').
Proof.
  unfold on_message. cbn [emit readyState clientIdOf].
  rewrite (proj1 (proj2 (proj2 (broadcastExcept_spec _ _ _)))).
  rewrite (proj2 (proj2 (proj2 (broadcastExcept_spec _ _ _)))).
  rewrite (proj1 (proj2 (sendTo_frame _ _ _))), (proj2 (proj2 (sendTo_frame _ _ _))).
  split; reflexivity.
Qed.

(** X16. A stale close unregisters a user who has joined again: when the same
    user id joins on a second socket and the first socket then closes, the
    user is gone from the registry although the second socket is still open
    and bound to that id. *)
Theorem stale_close_evicts_rejoined (w : World) (s1 s2 : WebSocket)
        (u name1 name2 : string) :
  registry_wf w -> u <> ""%string -> s1 <> s2 -> readyState w s2 = OPEN ->
  let w1 := on_message s1 (Join u name1) w in
  let w2 := on_message s2 (Join u name2) w1 in
  let w3 := on_close s1 w2 in
  (exists client, JsMap.get u (clients (self w2)) = Some client /\ ws client = s2) /\
  JsMap.get u (clients (self w3)) = None /\
  readyState w3 s2 = OPEN /\
  clientIdOf w3 s2 = Some u.
Proof.
  intros Hwf Hu Hs Hopen w1 w2 w3.
  destruct (on_message_join_clients s1 u name1 w) as [Hc1 _].
  destruct (on_message_join_frame s1 u name1 w) as [Hr1 Hi1].
  destruct (on_message_join_clients s2 u name2 w1) as [Hc2 _].
  destruct (on_message_join_frame s2 u name2 w1) as [Hr2 Hi2].
  fold w1 in Hc1, Hr1, Hi1, Hc2, Hr2, Hi2. fold w2 in Hc2, Hr2, Hi2.
  assert (Hwf2 : registry_wf w2).
  { unfold registry_wf. rewrite Hc2, Hc1. now do 2 apply jsmap_set_NoDup. }
  assert (Hget2 : exists client,
             JsMap.get u (clients (self w2)) = Some client /\ ws client = s2).
  { eexists. rewrite Hc2, jsmap_get_set, String.eqb_refl. split; reflexivity. }
  split; [exact Hget2|].
  destruct Hget2 as (client & Hget & Hws).
  assert (Hid : truthy (clientIdOf (set_readyState s1 CLOSED w2) s1) = Some u).
  { cbn [set_readyState clientIdOf]. rewrite Hi2, Hi1.
    destruct (Nat.eqb_spec s1 s2) as [|_]; [contradiction|].
    rewrite Nat.eqb_refl. unfold truthy.
    destruct (String.eqb_spec u "") as [|_]; [contradiction | reflexivity]. }
  subst w3. unfold on_close. rewrite Hid.
  destruct (removeClient_present u (set_readyState s1 CLOSED w2) client Hget)
    as (Hc3 & _ & _ & Hr3 & Hi3 & _).
  rewrite Hc3, Hr3, Hi3. cbn [set_readyState readyState clientIdOf self].
  split; [now apply jsmap_get_delete_eq|].
  rewrite Hr2, Hr1, Hi2, Nat.eqb_refl.
  destruct (Nat.eqb_spec s2 s1) as [E|_]; [now symmetry in E | now split].
Qed.

End ServerRegistry.

Section ServerHeartbeat.
Import Protocol Server ServerView.

#[local] Arguments broadcast : simpl never.
#[local] Arguments broadcastExcept : simpl never.
#[local] Arguments getAllUsers : simpl never.

(** A client whose flag is set gets through the rounds of a sweep. *)
Lemma sweep_rounds_keep ks u w client :
  NoDup ks -> In u ks ->
  JsMap.get u (clients (self w)) = Some client -> isAlive client = true ->
  JsMap.get u (clients (self (fold_left sweep_step ks w))) =
    Some {| ws := ws client; user := user client; isAlive := false |}.
Proof.
  revert w. induction ks as [|k ks IH]; intros w Hnd Hin Hget Halive; [destruct Hin|].
  inversion Hnd as [|? ? Hnotin Hnd']; subst. simpl.
  destruct (String.eqb_spec u k) as [->|Hne].
  - rewrite sweep_rounds_other by exact Hnotin.
    destruct (sweep_step_alive k w client Hget Halive) as (Hc & _).
    now rewrite Hc, jsmap_get_set, String.eqb_refl.
  - destruct Hin as [->|Hin]; [congruence|].
    apply IH; try assumption. now rewrite sweep_step_other.
Qed.

(** X17. A heartbeat carries a client through the next sweep: if the host
    handles a heartbeat of a registered client and then sweeps, the client is
    still registered afterwards, on the same socket, whatever its flag was
    before. *)
Theorem heartbeat_survives_sweep (w : World) socket u client :
  registry_wf w ->
  truthy (clientIdOf w socket) = Some u ->
  JsMap.get u (clients (self w)) = Some client ->
  JsMap.get u (clients (self (sweep (on_message socket Heartbeat w)))) =
    Some {| ws := ws client; user := user client; isAlive := false |}.
Proof.
  intros Hwf Hid Hget.
  assert (Hc : clients (self (on_message socket Heartbeat w)) =
               JsMap.set u {| ws := ws client; user := user client; isAlive := true |}
                         (clients (self w))).
  { unfold on_message. rewrite Hid. unfold JsMap.has. rewrite Hget.
    rewrite (proj1 (sendTo_frame _ _ _)). unfold set_isAlive. now rewrite Hget. }
  unfold sweep.
  apply (sweep_rounds_keep _ u _
           {| ws := ws client; user := user client; isAlive := true |}).
  - rewrite Hc. now apply jsmap_set_NoDup.
  - rewrite Hc. apply jsmap_keys_set. now left.
  - now rewrite Hc, jsmap_get_set, String.eqb_refl.
  - reflexivity.
Qed.

Lemma Forall_jsmap_set {V : Type} (P : string * V -> Prop) k v (m : JsMap.t V) :
  P (k, v) -> Forall P m -> Forall P (JsMap.set k v m).
Proof.
  intros Hk. induction m as [|[k0 v0] m IH]; simpl; intros Hm.
  - now constructor.
  - inversion Hm as [|? ? H0 Hm']; subst.
    destruct (String.eqb_spec k k0) as [->|Hne]; constructor; auto.
Qed.

Lemma Forall_jsmap_delete {V : Type} (P : string * V -> Prop) k (m : JsMap.t V) :
  Forall P m -> Forall P (JsMap.delete k m).
Proof.
  induction m as [|[k0 v0] m IH]; simpl; intros Hm; [constructor|].
  inversion Hm as [|? ? H0 Hm']; subst.
  destruct (String.eqb k k0); [assumption | constructor; auto].
Qed.

Lemma keys_match_get w k client :
  keys_match w -> JsMap.get k (clients (self w)) = Some client ->
  userId (user client) = k.
Proof.
  unfold keys_match. intros H Hget. apply jsmap_get_Some_In in Hget.
  rewrite Forall_forall in H. exact (H _ Hget).
Qed.

Lemma keys_match_update f clientId w :
  (forall u, userId (f u) = userId u) ->
  keys_match w -> keys_match (update_user f clientId w).
Proof.
  intros Hf H. unfold keys_match. rewrite update_user_clients.
  destruct (JsMap.get clientId (clients (self w))) as [client|] eqn:Hget; [|exact H].
  apply Forall_jsmap_set; [|exact H].
  simpl. rewrite Hf. now apply (keys_match_get w).
Qed.

Lemma keys_match_clients w w' :
  clients (self w') = clients (self w) -> keys_match w -> keys_match w'.
Proof. unfold keys_match. now intros ->. Qed.

Lemma keys_match_removeClient k w : keys_match w -> keys_match (removeClient k w).
Proof.
  intros H. destruct (removeClient_clients k w) as [Hc|Hc].
  - now apply (keys_match_clients w).
  - unfold keys_match. rewrite Hc. now apply Forall_jsmap_delete.
Qed.

Lemma keys_match_sweep_step w k : keys_match w -> keys_match (sweep_step w k).
Proof.
  intros H. unfold sweep_step.
  destruct (JsMap.get k (clients (self w))) as [client|] eqn:Hget; [|exact H].
  destruct (isAlive client); cbn [negb].
  - assert (H1 : keys_match (set_isAlive false k w)).
    { unfold keys_match, set_isAlive. rewrite Hget. cbn [set_clients self clients].
      apply Forall_jsmap_set; [|exact H]. simpl. now apply (keys_match_get w). }
    destruct (isOpen _); [|exact H1]. now apply (keys_match_clients (set_isAlive false k w)).
  - apply keys_match_removeClient. unfold terminate.
    destruct (readyState _ _); now apply (keys_match_clients w).
Qed.

Lemma keys_match_step w e : keys_match w -> keys_match (step w e).
Proof.
  intros H. destruct e as [socket msg|socket|socket|socket|]; cbn [step].
  - destruct msg;
      lazymatch goal with
      | |- context [on_message _ (Join ?a ?b) _] =>
          unfold keys_match;
          rewrite (proj1 (on_message_join_clients socket a b w));
          apply Forall_jsmap_set; [reflexivity | exact H]
      | |- context [on_message _ Heartbeat _] =>
          destruct (on_message_heartbeat_clients socket w)
            as [Hc|(id & client & _ & Hget & Hc)];
          [now apply (keys_match_clients w)|];
          unfold keys_match; rewrite Hc;
          apply Forall_jsmap_set; [|exact H];
          simpl; now apply (keys_match_get w)
      | |- _ => idtac
      end;
      unfold on_message, handleClientMessage;
      destruct (truthy (clientIdOf w socket)) as [id|]; try exact H;
      cbn [emit];
      repeat lazymatch goal with
        | |- keys_match (emit _ ?w0) => apply (keys_match_clients w0); [reflexivity|]
        | |- keys_match (broadcastExcept ?x ?m ?w0) =>
            apply (keys_match_clients w0);
            [now rewrite (proj1 (proj2 (broadcastExcept_spec x m w0)))|]
        | |- keys_match (update_user _ _ _) =>
            apply keys_match_update; [reflexivity|]
        end; exact H.
  - now apply (keys_match_clients w).
  - unfold on_close. destruct (truthy _) as [id|].
    + apply keys_match_removeClient. now apply (keys_match_clients w).
    + now apply (keys_match_clients w).
  - unfold on_error. destruct (truthy _) as [id|]; [|exact H].
    now apply keys_match_removeClient.
  - unfold sweep. generalize (JsMap.keys (clients (self w))). intros ks.
    revert w H. induction ks as [|k ks IH]; intros w H; simpl; [exact H|].
    apply IH. now apply keys_match_sweep_step.
Qed.

(** X18. In every state the host can reach, no user id is registered twice and
    every client is registered under the id its roster entry carries. *)
Theorem registry_invariants (hostId username : string) (events : list Event) :
  let w := run events (newCollabServer hostId username) in
  NoDup (JsMap.keys (clients (self w))) /\
  Forall (fun entry : string * ClientConnection => userId (user (snd entry)) = fst entry)
         (clients (self w)).
Proof.
  cbv zeta. split.
  - apply run_wf. constructor.
  - change (keys_match (run events (newCollabServer hostId username))).
    assert (H : keys_match (newCollabServer hostId username)) by constructor.
    revert H. generalize (newCollabServer hostId username).
    induction events as [|e events IH]; intros w H; simpl; [exact H|].
    apply IH. now apply keys_match_step.
Qed.

(** X19. A cursor update is stored under the user id that its connection
    joined with: the host writes the cursor and the selections into the
    registry entry filed under the [clientId] of the connection's handlers,
    whichever user id the message names and whichever socket that entry
    holds, and leaves every other entry and every connection's [clientId] as
    they are.  The entry is the connection's own as long as that user id has
    not joined again on another connection; after such a re-join an update
    arriving on the first connection changes the entry that holds the second
    socket. *)
Theorem cursor_update_goes_to_joined_id (w : World) socket clientId client namedId path'
        cursor' selections' :
  truthy (clientIdOf w socket) = Some clientId ->
  JsMap.get clientId (clients (self w)) = Some client ->
  let w' := on_message socket (CursorUpdate namedId path' cursor' selections') w in
  JsMap.get clientId (clients (self w')) =
    Some {| ws := ws client;
            user := {| userId := userId (user client); username := username (user client);
                       color := color (user client);
                       activeFile := activeFile (user client);
                       cursor := Some cursor'; selections := selections' |};
            isAlive := isAlive client |} /\
  (forall other, other <> clientId ->
     JsMap.get other (clients (self w')) = JsMap.get other (clients (self w))) /\
  clientIdOf w' = clientIdOf w.
Proof.
  intros Hid Hget w'. subst w'. unfold on_message, handleClientMessage. rewrite Hid.
  cbn [emit self clients clientIdOf].
  rewrite (proj1 (proj2 (broadcastExcept_spec _ _ _))), update_user_clients, Hget.
  split; [|split].
  - now rewrite jsmap_get_set, String.eqb_refl.
  - intros other Hne. rewrite jsmap_get_set.
    destruct (String.eqb_spec other clientId); [contradiction | reflexivity].
  - rewrite (proj2 (proj2 (proj2 (broadcastExcept_spec _ _ _)))).
    unfold update_user. now rewrite Hget.
Qed.

End ServerHeartbeat.

(** ** More on the client (src/client.ts) *)

Section ClientLifeCycle.
Import Client.

Lemma step_stays_disconnected c e :
  shouldReconnect c = false ->
  shouldReconnect (step c e) = false /\
  reconnectDelays (effects (step c e)) = reconnectDelays (effects c).
Proof.
  intros Hoff. destruct e; cbn [step].
  - unfold on_open. cbn. unfold push. rewrite !reconnectDelays_app. cbn.
    now rewrite !app_nil_r.
  - unfold on_close. cbn. rewrite Hoff. cbn. unfold push.
    rewrite !reconnectDelays_app. cbn. now rewrite !app_nil_r.
  - unfold on_reconnect_timer, connect. cbn. unfold push.
    rewrite reconnectDelays_app. cbn. now rewrite app_nil_r.
  - unfold disconnect. destruct c as [[|] ? ? ? [|] ?]; cbn; unfold push;
      rewrite !reconnectDelays_app; cbn; now rewrite !app_nil_r.
Qed.

(** X20. [disconnect()] is final for the reconnect policy: whatever happens to
    the client afterwards (its socket closing or opening, a timer callback
    that was already running, another [disconnect()]), no reconnect timer is
    set again. *)
Theorem disconnect_is_final (c : CollabClient) (events : list Event) :
  reconnectDelays (effects (run events (disconnect c))) = reconnectDelays (effects c).
Proof.
  assert (H0 : shouldReconnect (disconnect c) = false /\
               reconnectDelays (effects (disconnect c)) = reconnectDelays (effects c)).
  { unfold disconnect. destruct c as [[|] ? ? ? [|] ?]; cbn; unfold push;
      rewrite !reconnectDelays_app; cbn; now rewrite !app_nil_r. }
  destruct H0 as [Hoff <-]. revert Hoff. generalize (disconnect c). clear c.
  induction events as [|e events IH]; intros c Hoff; [reflexivity|].
  cbn [run fold_left]. destruct (step_stays_disconnected c e Hoff) as [Hoff' <-].
  now apply IH.
Qed.

Lemma delay_bounds n :
  1 <= n -> 2000 <= Z.min (1000 * 2 ^ n) 30000 <= 30000.
Proof.
  intros Hn. assert (2 ^ 1 <= 2 ^ n) by (apply Z.pow_le_mono_r; lia).
  change (2 ^ 1) with 2 in *. lia.
Qed.

Lemma step_bounds c e :
  0 <= reconnectAttempts c <= maxReconnectAttempts ->
  Forall (fun d => 2000 <= d <= 30000) (reconnectDelays (effects c)) ->
  0 <= reconnectAttempts (step c e) <= maxReconnectAttempts /\
  Forall (fun d => 2000 <= d <= 30000) (reconnectDelays (effects (step c e))).
Proof.
  unfold maxReconnectAttempts. intros Ha Hd. destruct e; cbn [step].
  - unfold on_open. cbn. unfold push. rewrite !reconnectDelays_app. cbn.
    rewrite !app_nil_r. split; [lia | exact Hd].
  - unfold on_close. cbn.
    destruct (shouldReconnect c && (reconnectAttempts c <? maxReconnectAttempts)) eqn:E.
    + apply andb_true_iff in E as [_ E]. apply Z.ltb_lt in E.
      unfold maxReconnectAttempts in E.
      cbn. unfold push. rewrite !reconnectDelays_app. cbn. rewrite !app_nil_r.
      split; [lia|]. apply Forall_app. split; [exact Hd|].
      constructor; [apply delay_bounds; lia | constructor].
    + cbn. unfold push. rewrite !reconnectDelays_app. cbn. rewrite !app_nil_r.
      split; [lia | exact Hd].
  - unfold on_reconnect_timer, connect. cbn. unfold push.
    rewrite reconnectDelays_app. cbn. rewrite app_nil_r. split; [lia | exact Hd].
  - unfold disconnect. destruct c as [[|] ? ? ? [|] ?]; cbn in *; unfold push;
      rewrite !reconnectDelays_app; cbn; rewrite !app_nil_r; (split; [lia | exact Hd]).
Qed.

(** X21. Whatever happens to a client, its attempt counter stays between 0 and
    10 and every reconnect timer it sets is between 2 and 30 seconds. *)
Theorem reconnect_bounds (events : list Event) :
  let c := run events newCollabClient in
  0 <= reconnectAttempts c <= 10 /\
  Forall (fun d => 2000 <= d <= 30000) (reconnectDelays (effects c)).
Proof.
  cbv zeta.
  assert (H0 : 0 <= reconnectAttempts newCollabClient <= maxReconnectAttempts /\
               Forall (fun d => 2000 <= d <= 30000)
                      (reconnectDelays (effects newCollabClient))).
  { split; [cbn; unfold maxReconnectAttempts; lia | constructor]. }
  revert H0. generalize newCollabClient.
  induction events as [|e events IH]; intros c [Ha Hd]; [exact (conj Ha Hd)|].
  cbn [run fold_left]. apply IH. now apply step_bounds.
Qed.

End ClientLifeCycle.

Section ClientAddress.
Import Utils ClientSession.

Lemma startsWith_append (p rest : string) : startsWith (p +:+ rest) p = true.
Proof.
  unfold startsWith. induction p as [|c p IH].
  - now destruct rest.
  - change (String c p +:+ rest) with (String c (p +:+ rest)). simpl.
    destruct (ascii_dec c c); [exact IH | congruence].
Qed.

(** X22. The address handed to the socket always starts with [ws://] or
    [wss://]; [https] becomes [wss] and [http] becomes [ws], an address with
    another or no scheme gets [ws://] in front, and an address that is
    already one of the two is left alone. *)
Theorem wsUrl_scheme (url : string) :
  (startsWith (wsUrl url) "ws://" || startsWith (wsUrl url) "wss://" = true) /\
  wsUrl (wsUrl url) = wsUrl url /\
  (forall rest, wsUrl ("https://" +:+ rest) = "wss://" +:+ rest) /\
  (forall rest, wsUrl ("http://" +:+ rest) = "ws://" +:+ rest) /\
  (startsWith url "https://" = false -> startsWith url "http://" = false ->
   wsUrl url = if startsWith url "ws://" || startsWith url "wss://"
               then url else "ws://" +:+ url).
Proof.
  assert (Hfix : forall u, startsWith u "https://" = false ->
                           startsWith u "http://" = false ->
                           (startsWith u "ws://" || startsWith u "wss://" = true) ->
                           wsUrl u = u).
  { intros u H1 H2 H3. unfold wsUrl. rewrite H1, H2.
    apply orb_true_iff in H3 as [H3|H3]; rewrite H3; cbn [negb andb]; [reflexivity|].
    now rewrite andb_false_r. }
  assert (Hslice : forall (p rest : string),
             slice_from (String.length p) (p +:+ rest) = rest).
  { intros p rest. unfold slice_from. rewrite length_append.
    replace (String.length p + String.length rest - String.length p)%nat
      with (String.length rest) by lia.
    apply substring_append. }
  assert (Hnot : forall u, startsWith u "ws://" || startsWith u "wss://" = true ->
                           startsWith u "https://" = false /\
                           startsWith u "http://" = false).
  { intros u Hu. unfold startsWith in *.
    destruct u as [|c u]; cbn [String.prefix orb] in Hu; [discriminate|].
    destruct (ascii_dec "w" c) as [<-|Hc]; cbn [orb] in Hu; [|discriminate].
    split; reflexivity. }
  assert (Hscheme : startsWith (wsUrl url) "ws://" || startsWith (wsUrl url) "wss://"
                    = true).
  { unfold wsUrl.
    destruct (startsWith url "https://");
      [now rewrite (startsWith_append "wss://"), orb_true_r|].
    destruct (startsWith url "http://"); [now rewrite (startsWith_append "ws://")|].
    destruct (startsWith url "ws://") eqn:E1; [cbn [negb andb]; now rewrite E1|].
    destruct (startsWith url "wss://") eqn:E2; cbn [negb andb].
    + now rewrite E1, E2.
    + now rewrite (startsWith_append "ws://"). }
  split; [exact Hscheme|split; [|split; [|split]]].
  - apply Hfix; [apply Hnot, Hscheme | apply Hnot, Hscheme | apply Hscheme].
  - intros rest. unfold wsUrl. rewrite (startsWith_append "https://").
    f_equal. exact (Hslice "https://" rest).
  - intros rest. unfold wsUrl.
    replace (startsWith ("http://" +:+ rest) "https://") with false by reflexivity.
    rewrite (startsWith_append "http://").
    f_equal. exact (Hslice "http://" rest).
  - intros H1 H2. unfold wsUrl. rewrite H1, H2.
    destruct (startsWith url "ws://"); [reflexivity|].
    destruct (startsWith url "wss://"); reflexivity.
Qed.

End ClientAddress.

(** ** The roster on the host and on a client (src/server.ts, src/client.ts) *)

Section RosterMirror.
Import Protocol Server ServerView.

#[local] Arguments broadcast : simpl never.
#[local] Arguments broadcastExcept : simpl never.
#[local] Arguments getAllUsers : simpl never.

Lemma inbox_app socket es1 es2 :
  inbox socket (es1 ++ es2) = inbox socket es1 ++ inbox socket es2.
Proof. unfold inbox. now rewrite sends_app, List.filter_app, map_app. Qed.

Lemma inbox_map_Send {X : Type} (socketOf : X -> WebSocket) socket msg (l : list X) :
  inbox socket (List.map (fun x => Send (socketOf x) msg) l) =
  List.map (fun _ => msg) (List.filter (fun x => Nat.eqb (socketOf x) socket) l).
Proof.
  unfold inbox. rewrite sends_map_Send.
  induction l as [|x l IH]; simpl; [reflexivity|].
  destruct (Nat.eqb (socketOf x) socket); simpl; now rewrite IH.
Qed.

(** Among entries with pairwise distinct images, one has a given image. *)
Lemma filter_unique {X : Type} (f : X -> nat) (sel : X -> bool) (l : list X) (x : X) :
  NoDup (List.map f l) -> In x l ->
  List.filter (fun y => Nat.eqb (f y) (f x)) (List.filter sel l) =
  if sel x then [x] else [].
Proof.
  induction l as [|y l IH]; intros Hnd Hin; [destruct Hin|].
  inversion Hnd as [|? ? Hnotin Hnd']; subst.
  assert (Hrest : forall z, In z l -> f z <> f y).
  { intros z Hz E. apply Hnotin. rewrite <- E. now apply in_map. }
  destruct Hin as [->|Hin].
  - assert (Hnone : List.filter (fun y => Nat.eqb (f y) (f x)) (List.filter sel l) = []).
    { apply filter_none. intros z Hz. apply filter_In in Hz as [Hz _].
      apply Nat.eqb_neq. now apply Hrest. }
    simpl. destruct (sel x); simpl; [rewrite Nat.eqb_refl|]; now rewrite Hnone.
  - simpl. destruct (sel y); simpl.
    + destruct (Nat.eqb_spec (f y) (f x)) as [E|_].
      * exfalso. apply (Hrest x Hin). now symmetry.
      * now apply IH.
    + now apply IH.
Qed.

Lemma removeClient_effects k w client :
  JsMap.get k (clients (self w)) = Some client ->
  effects (removeClient k w) =
    effects w ++
    List.map (fun peer => Send (ws peer) (UserLeft k))
             (List.filter (fun peer => isOpen (readyState w (ws peer)))
                          (JsMap.values (JsMap.delete k (clients (self w))))) ++
    [Emit (userLeft (user client));
     Emit (usersChanged (getAllUsers (removeClient k w)))].
Proof.
  intros Hget.
  assert (Hg : getAllUsers (removeClient k w) =
               getAllUsers (set_clients (JsMap.delete k (clients (self w))) w)).
  { rewrite !getAllUsers_spec.
    destruct (removeClient_present k w client Hget) as (Hc & _ & Hh & _).
    now rewrite Hc, Hh. }
  rewrite Hg. unfold removeClient. rewrite Hget.
  set (w1 := set_clients (JsMap.delete k (clients (self w))) w).
  destruct (broadcast_spec (UserLeft k) w1) as (He & Hs & Hr & Hc).
  cbn [emit effects]. unfold push. rewrite He.
  rewrite !getAllUsers_spec. cbn [emit self]. rewrite Hs.
  rewrite <- !app_assoc. reflexivity.
Qed.

Lemma values_delete_users k (m : JsMap.t ClientConnection) :
  NoDup (JsMap.keys m) ->
  Forall (fun entry : string * ClientConnection => userId (user (snd entry)) = fst entry) m ->
  List.map user (JsMap.values (JsMap.delete k m)) =
  List.filter (fun u => negb (String.eqb (userId u) k)) (List.map user (JsMap.values m)).
Proof.
  induction m as [|[k0 c0] m IH]; intros Hnd Hkm; [reflexivity|].
  inversion Hnd as [|? ? Hnotin Hnd']; subst.
  inversion Hkm as [|? ? Hk0 Hkm']; subst. simpl in Hk0.
  simpl. rewrite Hk0. rewrite (String.eqb_sym k0 k).
  destruct (String.eqb_spec k k0) as [->|Hne]; simpl.
  - symmetry. rewrite <- map_id at 1. unfold JsMap.values. rewrite !map_map.
    assert (Hall : forall e, In e m -> negb (String.eqb (userId (user (snd e))) k0) = true).
    { intros e He. rewrite Forall_forall in Hkm'. rewrite (Hkm' e He).
      apply negb_true_iff, String.eqb_neq. intros E. apply Hnotin.
      rewrite <- E. now apply in_map. }
    clear -Hall. induction m as [|e m IH]; simpl; [reflexivity|].
    rewrite (Hall e) by now left. simpl. f_equal. apply IH.
    intros e' He'. apply Hall. now right.
  - f_equal. now apply IH.
Qed.

(** X23. The roster of a connected client stays in step with the host's: if
    the client's list of users equals [getAllUsers()] on the host, then after
    another user joins under an unused id, and after the host removes any
    other client (its socket closed, failed or was swept), the frames the host
    sent on the client's socket bring the client's list to the host's new
    [getAllUsers()]. *)
Theorem roster_stays_in_step (w : World) (p : string) (cp : ClientConnection)
        (st : ClientSession.Session) :
  registry_wf w -> keys_match w -> sockets_distinct w ->
  JsMap.get (userId (hostUser (self w))) (clients (self w)) = None ->
  JsMap.get p (clients (self w)) = Some cp ->
  readyState w (ws cp) = OPEN ->
  ClientSession.users st = getAllUsers w ->
  (forall socket u name,
      socket <> ws cp -> JsMap.get u (clients (self w)) = None ->
      let w' := on_message socket (Join u name) w in
      ClientSession.users (ClientSession.deliver (inbox (ws cp) (added w w')) st) =
      getAllUsers w') /\
  (forall k,
      k <> p ->
      let w' := removeClient k w in
      ClientSession.users (ClientSession.deliver (inbox (ws cp) (added w w')) st) = getAllUsers w').
Proof.
  intros Hwf Hkm Hsd Hhost Hp Hopen Hst.
  assert (Hin : In (p, cp) (clients (self w))) by now apply jsmap_get_Some_In.
  split.
  - intros socket u name Hsock Hfresh w'.
    assert (Hnotin : ~ In u (JsMap.keys (clients (self w)))) by now apply jsmap_get_None.
    set (user' := {| userId := u; username := name;
                     color := nth (colorIndex (self w) mod List.length USER_COLORS)
                                  USER_COLORS ""%string;
                     activeFile := None; cursor := None; selections := [] |}).
    set (entry := {| ws := socket; user := user'; isAlive := true |}).
    assert (Hc' : clients (self w') = clients (self w) ++ [(u, entry)]).
    { subst w'. rewrite (proj1 (on_message_join_clients socket u name w)).
      now apply jsmap_set_fresh. }
    assert (Hh' : hostUser (self w') = hostUser (self w)).
    { subst w'. unfold on_message. cbn [emit self].
      rewrite (proj1 (proj2 (broadcastExcept_spec _ _ _))).
      now rewrite (proj1 (sendTo_frame _ _ _)). }
    assert (Hg' : getAllUsers w' = getAllUsers w ++ [user']).
    { rewrite !getAllUsers_spec, Hh', Hc'. unfold JsMap.values.
      rewrite !map_app. reflexivity. }
    assert (Hbox : inbox (ws cp) (added w w') = [UserJoined user']).
    { subst w'. unfold added, on_message. cbn [emit effects]. unfold push.
      rewrite broadcastExcept_added.
      set (w3 := set_clients _ _).
      assert (Hsend : forall msg, exists ack,
                 effects (sendTo u msg w3) = effects w ++ ack /\ inbox (ws cp) ack = []).
      { intros msg. unfold sendTo. subst w3. cbn [set_clients self clients].
        rewrite jsmap_get_set, String.eqb_refl. cbn [ws].
        destruct (isOpen _).
        - eexists [_]. cbn [emit effects]. unfold push. split; [reflexivity|].
          unfold inbox. cbn. destruct (Nat.eqb_spec socket (ws cp)); [contradiction|].
          reflexivity.
        - exists []. cbn [effects]. now rewrite app_nil_r. }
      fold user'. fold entry.
      match goal with
      | |- context [effects (sendTo u ?m w3)] =>
          destruct (Hsend m) as (ack & Hack & Hnone)
      end.
      rewrite Hack, <- !app_assoc, skipn_effects.
      rewrite !inbox_app, Hnone, inbox_map_Send. cbn [app].
      unfold others.
      rewrite (proj1 (proj2 (sendTo_frame _ _ _))).
      rewrite (proj1 (sendTo_frame _ _ _)).
      subst w3. cbn [set_clients set_clientId set_colorIndex self clients readyState].
      rewrite (filter_other_keys_set
                 (fun e : string * ClientConnection => isOpen (readyState w (ws (snd e))))).
      assert (Hsame :
                List.filter
                  (fun e : string * ClientConnection =>
                     negb (String.eqb (fst e) u) && isOpen (readyState w (ws (snd e))))
                  (clients (self w)) =
                List.filter
                  (fun e : string * ClientConnection => isOpen (readyState w (ws (snd e))))
                  (clients (self w))).
      { apply filter_ext_in. intros [k c] Hk. cbn [fst snd].
        destruct (String.eqb_spec k u) as [->|_]; [|reflexivity].
        exfalso. apply Hnotin. change u with (fst (u, c)). now apply in_map. }
      rewrite Hsame.
      pose proof (filter_unique (fun e : string * ClientConnection => ws (snd e))
                    (fun e => isOpen (readyState w (ws (snd e)))) (clients (self w))
                    (p, cp)) as Hu.
      cbn [snd] in Hu. rewrite Hu.
      - rewrite Hopen. reflexivity.
      - unfold sockets_distinct, JsMap.values in Hsd. now rewrite map_map in Hsd.
      - exact Hin. }
    rewrite Hbox, Hg'. cbn. unfold push. now rewrite Hst.
  - intros k Hk w'.
    destruct (JsMap.get k (clients (self w))) as [ck|] eqn:Hget.
    + assert (Hnh : k <> userId (hostUser (self w))) by congruence.
      destruct (removeClient_present k w ck Hget) as (Hc' & _ & Hh' & _).
      fold w' in Hc', Hh'.
      assert (Hg' : getAllUsers w' =
                    List.filter (fun u => negb (String.eqb (userId u) k)) (getAllUsers w)).
      { rewrite !getAllUsers_spec, Hh', Hc'. simpl.
        destruct (String.eqb_spec (userId (hostUser (self w))) k) as [E|_];
          [now symmetry in E|].
        simpl. f_equal. now apply values_delete_users. }
      assert (Hbox : inbox (ws cp) (added w w') = [UserLeft k]).
      { subst w'. unfold added. rewrite (removeClient_effects k w ck Hget).
        rewrite skipn_effects, inbox_app, inbox_map_Send.
        assert (Hin' : In cp (JsMap.values (JsMap.delete k (clients (self w))))).
        { apply (jsmap_get_In_values p). rewrite jsmap_get_delete_ne; congruence. }
        rewrite (filter_unique ws (fun peer => isOpen (readyState w (ws peer)))
                   (JsMap.values (JsMap.delete k (clients (self w)))) cp).
        - rewrite Hopen. reflexivity.
        - now apply jsmap_values_delete_NoDup.
        - exact Hin'. }
      rewrite Hbox, Hg'. cbn. now rewrite Hst.
    + subst w'. rewrite removeClient_absent by exact Hget.
      unfold added. rewrite <- (app_nil_r (effects w)) at 2.
      rewrite skipn_effects. cbn. exact Hst.
Qed.

End RosterMirror.

(** ** Local changes and remote edits (src/documentSync.ts) *)

Section LocalChanges.
Import Protocol Utils DocumentSyncM DocumentSyncLocal.

Variable Editor : Type.
Variable path_join : string -> string -> string.
Variable openTextDocument : Editor -> string -> option Editor.
Variable applyEdit : Editor -> string -> list (Range * string) -> option Editor.
Variable open_latency : string -> Z.
Variable edit_latency : string -> list (Range * string) -> Z.
Variable toRelativePath : string -> string -> string.

(** What a change event that is passed on looks like. *)
Lemma handleDocumentChange_Some event d d' msg :
  handleDocumentChange toRelativePath event d = (d', Some msg) ->
  let relativePath := toRelativePath (fsPath (document event)) (workspaceRoot d) in
  applyingRemoteEdit d = false /\
  scheme (document event) = "file"%string /\
  contentChanges event <> [] /\
  shouldIgnore relativePath = false /\
  msg = {| DocEditMessage.path := relativePath;
           DocEditMessage.changes := List.map textChange (contentChanges event);
           DocEditMessage.version := JsNumber.add (version_of relativePath d) 1;
           DocEditMessage.userId := userId d |} /\
  d' = set_versions (<[relativePath := JsNumber.add (version_of relativePath d) 1]>
                       (documentVersions d)) d.
Proof.
  unfold handleDocumentChange. cbv zeta.
  destruct (applyingRemoteEdit d); [discriminate|].
  destruct (String.eqb_spec (scheme (document event)) "file") as [Hs|]; [|discriminate].
  cbn [negb].
  destruct (contentChanges event) as [|c cs] eqn:Hc; [discriminate|]. cbn [List.length Nat.eqb].
  destruct (shouldIgnore _) eqn:Hig; [discriminate|].
  intros [= <- <-]. repeat split; try assumption. discriminate.
Qed.

Lemma handleDocumentChange_versions event d d' msg :
  handleDocumentChange toRelativePath event d = (d', Some msg) ->
  DocEditMessage.version msg = JsNumber.add (version_of (DocEditMessage.path msg) d) 1 /\
  version_of (DocEditMessage.path msg) d' = DocEditMessage.version msg /\
  (forall p, p <> DocEditMessage.path msg -> version_of p d' = version_of p d).
Proof.
  intros H. apply handleDocumentChange_Some in H.
  destruct H as (_ & _ & _ & _ & -> & ->). cbn. split; [reflexivity|]. split.
  - unfold version_of at 1. cbn. now rewrite lookup_insert_eq.
  - intros p Hp. unfold version_of at 1. cbn. now rewrite lookup_insert_ne.
Qed.

(** X24. A local change is passed on only if no remote edit is being applied,
    the document is a file, the event carries a change and the path is not
    ignored; the message then carries the local user id, one entry per change
    and the version recorded for the path incremented as a JavaScript number,
    which is recorded in turn.  The increment gives the next integer as long
    as the recorded version lies between [-2^53] and [2^53 - 1]; from a
    recorded [2^53], which one remote edit can set, the same version is sent
    again. *)
Theorem local_change_is_passed_on event d d' msg :
  handleDocumentChange toRelativePath event d = (d', Some msg) ->
  applyingRemoteEdit d = false /\
  scheme (document event) = "file"%string /\
  contentChanges event <> [] /\
  shouldIgnore (DocEditMessage.path msg) = false /\
  DocEditMessage.path msg = toRelativePath (fsPath (document event)) (workspaceRoot d) /\
  DocEditMessage.userId msg = userId d /\
  List.length (DocEditMessage.changes msg) = List.length (contentChanges event) /\
  DocEditMessage.version msg = JsNumber.add (version_of (DocEditMessage.path msg) d) 1 /\
  (- JsNumber.limit <= version_of (DocEditMessage.path msg) d < JsNumber.limit ->
   DocEditMessage.version msg = version_of (DocEditMessage.path msg) d + 1) /\
  (version_of (DocEditMessage.path msg) d = JsNumber.limit ->
   DocEditMessage.version msg = JsNumber.limit) /\
  version_of (DocEditMessage.path msg) d' = DocEditMessage.version msg /\
  (forall p, p <> DocEditMessage.path msg -> version_of p d' = version_of p d).
Proof.
  intros H. apply handleDocumentChange_Some in H.
  destruct H as (Ha & Hs & Hc & Hig & -> & ->). cbn.
  repeat split; try assumption.
  - now rewrite length_map.
  - intros Hsafe. apply add_exact. lia.
  - intros ->. apply add_limit.
  - unfold version_of at 1. cbn. now rewrite lookup_insert_eq.
  - intros p Hp. unfold version_of at 1. cbn. now rewrite lookup_insert_ne.
Qed.

(** X25. An edit made here is not applied here again: a message that
    [handleDocumentChange] emitted is dropped by [applyRemoteEdit] of the same
    synchroniser when the host sends it back. *)
Theorem own_edit_is_not_applied_again (w : World Editor) event d' msg :
  handleDocumentChange toRelativePath event (self w) = (d', Some msg) ->
  applyRemoteEdit Editor path_join openTextDocument applyEdit
                  open_latency edit_latency msg (set_self d' w) =
  set_self d' w.
Proof.
  intros H. apply handleDocumentChange_Some in H.
  destruct H as (_ & _ & _ & _ & -> & ->).
  unfold applyRemoteEdit. cbn. now rewrite String.eqb_refl.
Qed.

Lemma handleDocumentChanges_cons event events d :
  handleDocumentChanges toRelativePath (event :: events) d =
  let (d1, out) := handleDocumentChange toRelativePath event d in
  let (d', outs) := handleDocumentChanges toRelativePath events d1 in
  (d', match out with Some msg => msg :: outs | None => outs end).
Proof.
  unfold handleDocumentChanges. cbn [fold_left fst snd].
  destruct (handleDocumentChange toRelativePath event d) as [d1 out].
  assert (Hacc : forall evs d0 acc,
             fold_left
               (fun (acc : DocumentSync * list DocEditMessage.t) event =>
                  let (d', out) := handleDocumentChange toRelativePath event (fst acc) in
                  (d', match out with
                       | Some msg => push (snd acc) msg
                       | None => snd acc
                       end)) evs (d0, acc) =
             let (d', outs) :=
               fold_left
                 (fun (acc : DocumentSync * list DocEditMessage.t) event =>
                    let (d', out) := handleDocumentChange toRelativePath event (fst acc) in
                    (d', match out with
                         | Some msg => push (snd acc) msg
                         | None => snd acc
                         end)) evs (d0, []) in
             (d', acc ++ outs)).
  { induction evs as [|e evs IH]; intros d0 acc; cbn [fold_left fst snd].
    - now rewrite app_nil_r.
    - destruct (handleDocumentChange toRelativePath e d0) as [d2 o].
      rewrite IH. rewrite (IH d2 (match o with Some msg => push [] msg | None => [] end)).
      destruct (fold_left _ evs (d2, [])) as [d3 outs].
      destruct o; unfold push; now rewrite <- ?app_assoc. }
  rewrite Hacc. destruct (fold_left _ events (d1, [])) as [d' outs].
  destruct out; reflexivity.
Qed.

Lemma seq_shift_versions (v : Z) (n : nat) :
  List.map (fun i => v + 1 + Z.of_nat i) (seq 1 n) =
  List.map (fun i => v + Z.of_nat i) (seq 2 n).
Proof.
  rewrite <- (seq_shift n 1), map_map. apply map_ext. intros i. lia.
Qed.

(** X26. Local edits of a path are numbered without gaps as long as the
    versions do not exceed [2^53]: over any run of change events that starts
    from a recorded version of at least [-2^53] and sends no more messages for
    the path than there are integers left up to [2^53], the messages emitted
    for the path carry the versions that follow the one recorded at the
    start, one after the other, and the last of them is the version recorded
    at the end. *)
Theorem local_versions_count_up (events : list TextDocumentChangeEvent)
        (d : DocumentSync) (p : string) :
  let result := handleDocumentChanges toRelativePath events d in
  let sent := List.filter (fun msg => String.eqb (DocEditMessage.path msg) p)
                          (snd result) in
  - JsNumber.limit <= version_of p d ->
  version_of p d + Z.of_nat (List.length sent) <= JsNumber.limit ->
  List.map DocEditMessage.version sent =
    List.map (fun i => version_of p d + Z.of_nat i) (seq 1 (List.length sent)) /\
  version_of p (fst result) = version_of p d + Z.of_nat (List.length sent).
Proof.
  cbv zeta. revert d. induction events as [|event events IH]; intros d Hlow Hhigh.
  - cbn. split; [reflexivity | lia].
  - rewrite handleDocumentChanges_cons in *.
    destruct (handleDocumentChange toRelativePath event d) as [d1 out] eqn:Hstep.
    specialize (IH d1).
    destruct (handleDocumentChanges toRelativePath events d1) as [d' outs].
    cbn [fst snd] in *.
    destruct out as [msg|].
    + destruct (handleDocumentChange_versions event d d1 msg Hstep)
        as (Hver & Hrec & Hother).
      cbn [List.filter] in *.
      destruct (String.eqb_spec (DocEditMessage.path msg) p) as [Hp|Hp].
      * subst p. cbn [List.map List.length seq] in *.
        rewrite add_exact in Hver by lia.
        destruct IH as [IHv IHd]; [rewrite Hrec, Hver; lia | rewrite Hrec, Hver; lia |].
        rewrite IHv, IHd, Hrec, Hver. split.
        -- cbn [List.map]. change (Z.of_nat 1) with 1. f_equal.
           apply seq_shift_versions.
        -- lia.
      * rewrite (Hother p) in * by congruence. now apply IH.
    + assert (d1 = d) as ->.
      { unfold handleDocumentChange in Hstep. cbv zeta in Hstep.
        destruct (applyingRemoteEdit d); [congruence|].
        destruct (negb _); [congruence|].
        destruct (Nat.eqb _ 0); [congruence|].
        destruct (shouldIgnore _); [congruence | discriminate]. }
      now apply IH.
Qed.

Lemma advance_clock t (w : World Editor) : clock (advance t w) = Z.max (clock w) t.
Proof. unfold advance. now destruct (List.filter _ (timers w)). Qed.

Lemma advance_timers t (w : World Editor) :
  timers (advance t w) = List.filter (fun d => negb (d <=? t)) (timers w).
Proof. unfold advance. now destruct (List.filter (fun d => d <=? t) (timers w)). Qed.

Lemma advance_flag t (w : World Editor) :
  applyingRemoteEdit (self (advance t w)) =
  match List.filter (fun d => d <=? t) (timers w) with
  | [] => applyingRemoteEdit (self w)
  | _ :: _ => false
  end.
Proof. unfold advance. now destruct (List.filter (fun d => d <=? t) (timers w)). Qed.

Lemma advance_versions t (w : World Editor) :
  documentVersions (self (advance t w)) = documentVersions (self w).
Proof. unfold advance. now destruct (List.filter (fun d => d <=? t) (timers w)). Qed.

(** The clock, the timers and the flag after a remote edit of another user on
    a document that opens. *)
Lemma timers_applyRemoteEdit msg (w : World Editor) opened :
  DocEditMessage.userId msg <> userId (self w) ->
  let absolutePath := path_join (workspaceRoot (self w)) (DocEditMessage.path msg) in
  openTextDocument (editor w) absolutePath = Some opened ->
  let w' := applyRemoteEdit Editor path_join openTextDocument applyEdit
              open_latency edit_latency msg w in
  let opened_at := Z.max (clock w) (clock w + open_latency absolutePath) in
  let settles := opened_at + edit_latency absolutePath (replacements msg) in
  let pending := List.filter (fun d => negb (d <=? clock w + open_latency absolutePath))
                             (timers w) in
  clock w' = Z.max opened_at settles /\
  timers w' = List.filter (fun d => negb (d <=? settles)) pending ++ [clock w' + 50] /\
  applyingRemoteEdit (self w') =
    match List.filter (fun d => d <=? settles) pending with
    | [] => true
    | _ :: _ => false
    end.
Proof.
  intros Hne absolutePath Hopen. cbv zeta. unfold applyRemoteEdit.
  apply String.eqb_neq in Hne. rewrite Hne. fold absolutePath. rewrite Hopen.
  fold (replacements msg). unfold await.
  set (w1 := advance (clock w + open_latency absolutePath) w).
  set (w2 := set_applyingRemoteEdit Editor true (set_editor Editor opened w1)).
  assert (Hc2 : clock w2 = Z.max (clock w) (clock w + open_latency absolutePath))
    by (subst w2 w1; cbn; apply advance_clock).
  assert (Ht2 : timers w2 =
                List.filter (fun d => negb (d <=? clock w + open_latency absolutePath))
                            (timers w))
    by (subst w2 w1; cbn; apply advance_timers).
  set (w3 := advance (clock w2 + edit_latency absolutePath (replacements msg)) w2).
  assert (Hc3 : clock w3 = Z.max (clock w2)
                             (clock w2 + edit_latency absolutePath (replacements msg)))
    by apply advance_clock.
  assert (Ht3 : timers w3 =
                List.filter
                  (fun d => negb (d <=? clock w2 + edit_latency absolutePath (replacements msg)))
                  (timers w2)) by apply advance_timers.
  assert (Hf3 : applyingRemoteEdit (self w3) =
                match List.filter
                        (fun d => d <=? clock w2 + edit_latency absolutePath (replacements msg))
                        (timers w2) with
                | [] => true
                | _ :: _ => false
                end) by (subst w3; rewrite advance_flag; reflexivity).
  clearbody w3. rewrite Hc2 in *. rewrite Ht2 in *.
  destruct (applyEdit (editor w2) absolutePath (replacements msg)); cbn;
    unfold push; rewrite ?Hc3, ?Ht3, ?Hf3; repeat split.
Qed.

(** X27. The guard of [applyRemoteEdit] counts its 50 ms from the moment
    [applyEdit] has settled, not from the call.  For another user's edit on a
    document that opens, the function resumes after its two awaits at the
    time the two latencies give; from then until 50 ms later every change
    event is dropped without a trace, provided no timer of another remote
    edit runs between the opening of the document and that moment (during
    the awaits only timers run here, so these are the timers pending at the
    call); and from 50 ms after [applyEdit] has settled the guard is down
    again, whether or not the edit could be applied. *)
Theorem remote_edit_mutes_local_changes msg (w : World Editor) opened :
  DocEditMessage.userId msg <> userId (self w) ->
  let absolutePath := path_join (workspaceRoot (self w)) (DocEditMessage.path msg) in
  openTextDocument (editor w) absolutePath = Some opened ->
  let w' := applyRemoteEdit Editor path_join openTextDocument applyEdit
              open_latency edit_latency msg w in
  let opened_at := Z.max (clock w) (clock w + open_latency absolutePath) in
  clock w' = Z.max opened_at (opened_at + edit_latency absolutePath (replacements msg)) /\
  (forall t event,
      clock w' <= t < clock w' + 50 ->
      Forall (fun due => due <= clock w + open_latency absolutePath \/ t < due) (timers w) ->
      handleDocumentChange toRelativePath event (self (advance t w')) =
      (self (advance t w'), None)) /\
  (forall t, clock w' + 50 <= t -> applyingRemoteEdit (self (advance t w')) = false).
Proof.
  intros Hne absolutePath Hopen w' opened_at.
  destruct (timers_applyRemoteEdit msg w opened Hne Hopen) as (Hclock & Htimers & Hflag).
  fold absolutePath w' opened_at in Hclock, Htimers, Hflag.
  split; [exact Hclock|]. split.
  - intros t event Ht Hearlier.
    set (settles := opened_at + edit_latency absolutePath (replacements msg)) in *.
    assert (Hpending :
              forall d,
                In d (List.filter
                        (fun d => negb (d <=? clock w + open_latency absolutePath))
                        (timers w)) -> t < d).
    { intros d Hd. apply filter_In in Hd as [Hd Hlate].
      rewrite Forall_forall in Hearlier. destruct (Hearlier d Hd) as [Hle|Hlt]; [|exact Hlt].
      apply Z.leb_le in Hle. now rewrite Hle in Hlate. }
    assert (Hnone : List.filter (fun d => d <=? settles)
                      (List.filter
                         (fun d => negb (d <=? clock w + open_latency absolutePath))
                         (timers w)) = []).
    { apply filter_none. intros d Hd. apply Hpending in Hd. apply Z.leb_gt. lia. }
    rewrite Hnone in Hflag.
    assert (Hdue : List.filter (fun d => d <=? t) (timers w') = []).
    { rewrite Htimers. apply filter_none. intros d Hd.
      apply in_app_or in Hd as [Hd|[<-|[]]].
      - apply filter_In in Hd as [Hd _]. apply Hpending in Hd. apply Z.leb_gt. lia.
      - apply Z.leb_gt. lia. }
    assert (Hup : applyingRemoteEdit (self (advance t w')) = true).
    { rewrite advance_flag, Hdue. exact Hflag. }
    unfold handleDocumentChange. now rewrite Hup.
  - intros t Ht. rewrite advance_flag.
    destruct (List.filter (fun d => d <=? t) (timers w')) as [|d ds] eqn:Hdue;
      [|reflexivity].
    exfalso.
    assert (Hin : In (clock w' + 50) (List.filter (fun d => d <=? t) (timers w'))).
    { apply filter_In. split.
      - rewrite Htimers. apply in_or_app. right. now left.
      - now apply Z.leb_le. }
    now rewrite Hdue in Hin.
Qed.

(** X28. The version recorded for a path after a remote edit: the one the
    message carries, higher or lower than before, when the document opened
    and the edit was applied; the one recorded before in every other case and
    for every other path. *)
Theorem applyRemoteEdit_versions msg (w : World Editor) (p : string) :
  DocEditMessage.userId msg <> userId (self w) ->
  let absolutePath := path_join (workspaceRoot (self w)) (DocEditMessage.path msg) in
  getVersion Editor p
             (applyRemoteEdit Editor path_join openTextDocument applyEdit
                              open_latency edit_latency msg w) =
    match openTextDocument (editor w) absolutePath with
    | Some opened =>
        match applyEdit opened absolutePath (replacements msg) with
        | Some _ =>
            if String.eqb p (DocEditMessage.path msg)
            then DocEditMessage.version msg
            else getVersion Editor p w
        | None => getVersion Editor p w
        end
    | None => getVersion Editor p w
    end.
Proof.
  intros Hne. cbv zeta. unfold applyRemoteEdit, await.
  apply String.eqb_neq in Hne. rewrite Hne.
  set (absolutePath := path_join _ _).
  set (w1 := advance (clock w + open_latency absolutePath) w).
  assert (Hv1 : documentVersions (self w1) = documentVersions (self w))
    by apply advance_versions.
  destruct (openTextDocument _ _) as [opened|];
    [|unfold getVersion; now rewrite Hv1].
  fold (replacements msg).
  set (w2 := set_applyingRemoteEdit Editor true (set_editor Editor opened w1)).
  set (w3 := advance (clock w2 + edit_latency absolutePath (replacements msg)) w2).
  assert (Hv3 : documentVersions (self w3) = documentVersions (self w)).
  { subst w3. rewrite advance_versions. exact Hv1. }
  change (editor w2) with opened. clearbody w3.
  destruct (applyEdit opened _ (replacements msg)); unfold getVersion; cbn;
    [|now rewrite Hv3].
  rewrite Hv3.
  destruct (String.eqb_spec p (DocEditMessage.path msg)) as [->|Hp].
  - now rewrite lookup_insert_eq.
  - now rewrite lookup_insert_ne by congruence.
Qed.

End LocalChanges.

(** ** Remote file operations are not echoed (src/fileSync.ts, src/extension.ts) *)

Section NoEcho.
Import Protocol Utils FileSyncM FileWatcherM.

Variable path_join : string -> string -> string.
Variable path_dirname : string -> string.
Variable fs_latency : FsCall -> Z.
Variable readFile : string -> option (list Byte.byte).
Variable toString_base64 : list Byte.byte -> string.
Variable toString_utf8 : list Byte.byte -> string.

#[local] Arguments advance : simpl never.
#[local] Arguments suppressPath : simpl never.

Lemma clock_advance t w : clock (advance t w) = Z.max (clock w) t.
Proof. reflexivity. Qed.

Lemma held_suppressPath p q w :
  (forall timer, In timer (timers w) -> snd timer = p -> clock w + 3000 <= fst timer) ->
  p = q \/ p ∈ suppressedPaths (self w) ->
  held p (clock w + 3000) (suppressPath q w).
Proof.
  intros Hold Hp. unfold held, suppressPath, setTimeout, push. simpl.
  split; [destruct Hp as [->|Hp]; set_solver|]. split; [lia|].
  apply Forall_app. split.
  - apply Forall_forall. exact Hold.
  - constructor; [simpl; lia | constructor].
Qed.

Lemma held_same p deadline (w w' : World) :
  suppressedPaths (self w') = suppressedPaths (self w) ->
  timers w' = timers w -> clock w' = clock w ->
  held p deadline w -> held p deadline w'.
Proof. unfold held. now intros -> -> ->. Qed.

Lemma held_advance p deadline t w :
  Z.max (clock w) t < deadline -> held p deadline w -> held p deadline (advance t w).
Proof.
  intros Ht (Hp & Hc & Hall). unfold held.
  rewrite suppressedPaths_advance, clock_advance. split; [|split; [exact Ht|]].
  - apply elem_of_difference. split; [exact Hp|].
    rewrite elem_of_list_to_set, list_elem_of_In, in_map_iff.
    intros (timer & Hsnd & Hin). apply filter_In in Hin as [Hin Hdue].
    rewrite Forall_forall in Hall. specialize (Hall timer Hin Hsnd).
    apply Z.leb_le in Hdue. lia.
  - unfold advance. simpl. apply Forall_forall. intros timer Hin.
    apply filter_In in Hin as [Hin _]. rewrite Forall_forall in Hall. now apply Hall.
Qed.

Lemma held_await_fs p deadline call w :
  clock (await_fs fs_latency call w) < deadline ->
  held p deadline w -> held p deadline (await_fs fs_latency call w).
Proof.
  unfold await_fs. intros Hc H. apply held_advance.
  - rewrite clock_advance in Hc. exact Hc.
  - now apply (held_same p deadline w).
Qed.

Lemma clock_await_fs call w : clock w <= clock (await_fs fs_latency call w).
Proof. unfold await_fs. rewrite clock_advance. simpl. lia. Qed.

Lemma held_safeWriteFile p deadline filePath data w :
  clock (safeWriteFile path_dirname fs_latency filePath data w) < deadline ->
  held p deadline w ->
  held p deadline (safeWriteFile path_dirname fs_latency filePath data w).
Proof.
  unfold safeWriteFile, ensureDir. intros Hc H.
  apply held_await_fs; [exact Hc|]. apply held_await_fs; [|exact H].
  eapply Z.le_lt_trans; [apply clock_await_fs | exact Hc].
Qed.

(** While [p] is held, the listener passes nothing on for it. *)
Lemma held_silences p deadline t w userId' event :
  held p deadline w -> t < deadline -> relativePath event = p ->
  on_fileChange readFile toString_base64 toString_utf8 userId' event (advance t w) = None.
Proof.
  intros H Ht Hev. unfold on_fileChange.
  assert (Hs : isSuppressed (relativePath event) (advance t w) = true).
  { rewrite Hev. unfold isSuppressed. apply bool_decide_eq_true.
    destruct H as (Hp & Hc & Hall).
    apply (held_advance p deadline t w); [lia | now split]. }
  now rewrite Hs.
Qed.

(** X29. What a remote operation did to a path is not sent back: after
    [createFile], [deleteFile] or [writeReceivedFile] for a path, every
    ['fileChange'] event for that path that arrives after the operation has
    returned and less than 3000 ms after it was called is dropped by the
    listener, provided no timer of an earlier suppression of the same path
    was pending when the operation was called. *)
Theorem remote_change_is_not_echoed (w : World) (p : string) (userId' : string)
        (event : FileChangeEvent) (t : Z) :
  no_timer_for p w ->
  relativePath event = p ->
  t < clock w + 3000 ->
  (forall content encoding,
      let w' := createFile path_join path_dirname fs_latency p content encoding w in
      clock w' <= t ->
      on_fileChange readFile toString_base64 toString_utf8 userId' event (advance t w')
      = None) /\
  (let w' := deleteFile path_join fs_latency p w in
   clock w' <= t ->
   on_fileChange readFile toString_base64 toString_utf8 userId' event (advance t w')
   = None) /\
  (forall msg writeOk,
      FileContentMessage.path msg = p ->
      let w' := writeReceivedFile path_join path_dirname fs_latency msg writeOk w in
      clock w' <= t ->
      on_fileChange readFile toString_base64 toString_utf8 userId' event (advance t w')
      = None).
Proof.
  intros Hno Hev Ht.
  assert (H0 : held p (clock w + 3000) (suppressPath p w)).
  { apply held_suppressPath; [|now left]. intros timer Hin Hsnd. exfalso.
    unfold no_timer_for in Hno. rewrite Forall_forall in Hno. exact (Hno timer Hin Hsnd). }
  split; [|split].
  - intros content encoding w' Hc. subst w'. unfold createFile in *.
    apply (held_silences p (clock w + 3000)); [|exact Ht | exact Hev].
    apply held_safeWriteFile; [lia | exact H0].
  - intros w' Hc. subst w'. unfold deleteFile, safeDeleteFile in *.
    apply (held_silences p (clock w + 3000)); [|exact Ht | exact Hev].
    apply held_await_fs; [lia | exact H0].
  - intros msg writeOk Hpath w' Hc. subst w'. unfold writeReceivedFile in *.
    rewrite Hpath in *.
    set (w1 := safeWriteFile _ _ _ _ _) in *.
    assert (Hclock : clock w1 <= t).
    { destruct writeOk; [|exact Hc]. cbv zeta in Hc.
      destruct (Nat.eqb _ 0); [|exact Hc].
      cbn [self set_pendingFiles syncCompleteCallback] in Hc.
      destruct (syncCompleteCallback (self w1)); exact Hc. }
    assert (H1 : held p (clock w + 3000) w1).
    { apply held_safeWriteFile; [change (clock w1 < clock w + 3000); lia | exact H0]. }
    clearbody w1.
    apply (held_silences p (clock w + 3000)); [|exact Ht | exact Hev].
    destruct writeOk; [|exact H1]. cbv zeta.
    destruct (Nat.eqb _ 0).
    + cbn [self set_pendingFiles syncCompleteCallback].
      destruct (syncCompleteCallback (self w1)); now apply (held_same p _ w1).
    + now apply (held_same p _ w1).
Qed.

End NoEcho.

Section RosterUpdates.
Import Protocol Server ServerView.

#[local] Arguments broadcast : simpl never.
#[local] Arguments broadcastExcept : simpl never.
#[local] Arguments getAllUsers : simpl never.

Lemma update_found_users c f (m : JsMap.t ClientConnection) client :
  NoDup (JsMap.keys m) ->
  Forall (fun entry : string * ClientConnection => userId (user (snd entry)) = fst entry) m ->
  JsMap.get c m = Some client ->
  ClientSession.update_found c f (List.map user (JsMap.values m)) =
  List.map user
    (JsMap.values
       (JsMap.set c {| ws := ws client; user := f (user client); isAlive := isAlive client |}
                  m)).
Proof.
  induction m as [|[k0 c0] m IH]; intros Hnd Hkm Hget; [discriminate|].
  inversion Hnd as [|? ? Hnotin Hnd']; subst.
  inversion Hkm as [|? ? Hk0 Hkm']; subst. cbn [fst snd] in Hk0.
  cbn [JsMap.get] in Hget. cbn [JsMap.values List.map JsMap.set snd ClientSession.update_found].
  rewrite Hk0, (String.eqb_sym k0 c).
  destruct (String.eqb_spec c k0) as [->|Hne].
  - injection Hget as ->. reflexivity.
  - cbn [List.map snd]. f_equal. now apply IH.
Qed.

(** X30. Cursor and active-file updates keep the rosters in step too: when a
    registered client sends one under its own id, the host's [getAllUsers()]
    afterwards is what any client whose list matched the host's gets by
    handling the relayed message. *)
Theorem roster_updates_stay_in_step (w : World) (c : string) (client : ClientConnection)
        (st : ClientSession.Session) :
  registry_wf w -> keys_match w ->
  c <> ""%string -> c <> userId (hostUser (self w)) ->
  JsMap.get c (clients (self w)) = Some client ->
  ClientSession.users st = getAllUsers w ->
  (forall path' cursor' selections',
      let msg := CursorUpdate c path' cursor' selections' in
      ClientSession.users (fst (ClientSession.handleMessage msg st)) =
      getAllUsers (handleClientMessage (Some c) msg w)) /\
  (forall path',
      let msg := ActiveFileChange c path' in
      ClientSession.users (fst (ClientSession.handleMessage msg st)) =
      getAllUsers (handleClientMessage (Some c) msg w)).
Proof.
  intros Hwf Hkm Hc Hhost Hget Hst.
  assert (Hhead : String.eqb (userId (hostUser (self w))) c = false).
  { apply String.eqb_neq. congruence. }
  split.
  - intros path' cursor' selections' msg. subst msg.
    unfold handleClientMessage, truthy.
    destruct (String.eqb_spec c "") as [|_]; [contradiction|].
    rewrite getAllUsers_spec. cbn [emit self].
    rewrite (proj1 (proj2 (broadcastExcept_spec _ _ _))).
    rewrite update_user_clients, Hget.
    unfold update_user. rewrite Hget. cbn [set_clients self hostUser clients].
    cbn [ClientSession.handleMessage fst ClientSession.users].
    rewrite Hst, getAllUsers_spec. cbn [ClientSession.update_found]. rewrite Hhead.
    f_equal. now apply update_found_users.
  - intros path' msg. subst msg.
    unfold handleClientMessage, truthy.
    destruct (String.eqb_spec c "") as [|_]; [contradiction|].
    rewrite getAllUsers_spec. cbn [emit self].
    rewrite (proj1 (proj2 (broadcastExcept_spec _ _ _))).
    rewrite update_user_clients, Hget.
    unfold update_user. rewrite Hget. cbn [set_clients self hostUser clients].
    cbn [ClientSession.handleMessage fst ClientSession.users].
    rewrite Hst, getAllUsers_spec. cbn [ClientSession.update_found]. rewrite Hhead.
    f_equal. now apply update_found_users.
Qed.

End RosterUpdates.

(** ** The properties at work on concrete runs *)

(** Ann joins on socket 1, joins again on socket 2, and socket 1 closes. *)
Lemma stale_close_evicts_rejoined_witness :
  let w := Server.on_connection 2%nat
             (Server.on_connection 1%nat (Server.newCollabServer "host" "Hana")) in
  let w3 := Server.on_close 1%nat
              (Server.on_message 2%nat (Protocol.Join "a" "Ann")
                 (Server.on_message 1%nat (Protocol.Join "a" "Ann") w)) in
  Server.registry_wf w /\ "a"%string <> ""%string /\ 1%nat <> 2%nat /\
  Server.readyState w 2%nat = Server.OPEN /\
  JsMap.get "a" (Server.clients (Server.self w3)) = None /\
  Server.readyState w3 2%nat = Server.OPEN.
Proof.
  intros w w3.
  assert (Hwf : Server.registry_wf w) by constructor.
  assert (Hu : "a"%string <> ""%string) by discriminate.
  assert (Hs : 1%nat <> 2%nat) by discriminate.
  assert (Hopen : Server.readyState w 2%nat = Server.OPEN) by reflexivity.
  destruct (stale_close_evicts_rejoined w 1%nat 2%nat "a" "Ann" "Ann" Hwf Hu Hs Hopen)
    as (_ & Hgone & Hstill & _).
  repeat split; assumption.
Defined.

(** Bob's heartbeat arrives before the sweep. *)
Lemma heartbeat_survives_sweep_witness :
  let bob := Server.mkClientConnection 2%nat
               (Protocol.mkUserInfo "b" "Bob" "#45B7D1" None None []) true in
  Server.registry_wf Server.two_clients /\
  Server.truthy (Server.clientIdOf Server.two_clients 2%nat) = Some "b"%string /\
  JsMap.get "b" (Server.clients (Server.self Server.two_clients)) = Some bob /\
  JsMap.get "b"
    (Server.clients
       (Server.self
          (Server.sweep (Server.on_message 2%nat Protocol.Heartbeat Server.two_clients))))
  = Some (Server.mkClientConnection 2%nat
            (Protocol.mkUserInfo "b" "Bob" "#45B7D1" None None []) false).
Proof.
  intros bob.
  assert (Hwf : Server.registry_wf Server.two_clients).
  { unfold Server.registry_wf. vm_compute.
    repeat constructor; simpl; intuition discriminate. }
  assert (Hid : Server.truthy (Server.clientIdOf Server.two_clients 2%nat)
                = Some "b"%string) by reflexivity.
  assert (Hget : JsMap.get "b" (Server.clients (Server.self Server.two_clients))
                 = Some bob) by reflexivity.
  split; [exact Hwf|]. split; [exact Hid|]. split; [exact Hget|].
  exact (heartbeat_survives_sweep Server.two_clients 2%nat "b" bob Hwf Hid Hget).
Defined.

(** Ann joins on socket 1 and again on socket 2; a cursor update that names
    Bob then arrives on socket 1.  It is stored in Ann's entry, which holds
    socket 2. *)
Lemma cursor_update_goes_to_joined_id_witness :
  let w := Server.run [Server.Connection 1%nat; Server.Message 1%nat (Protocol.Join "a" "Ann");
                       Server.Connection 2%nat; Server.Message 2%nat (Protocol.Join "a" "Ann")]
                      (Server.newCollabServer "host" "Hana") in
  let ann := Server.mkClientConnection 2%nat
               (Protocol.mkUserInfo "a" "Ann" "#45B7D1" None None []) true in
  let w' := Server.on_message 1%nat
              (Protocol.CursorUpdate "b" "x.ts" (Protocol.mkCursorPosition 3 4) []) w in
  Server.truthy (Server.clientIdOf w 1%nat) = Some "a"%string /\
  JsMap.get "a" (Server.clients (Server.self w)) = Some ann /\
  JsMap.get "a" (Server.clients (Server.self w')) =
    Some (Server.mkClientConnection 2%nat
            (Protocol.mkUserInfo "a" "Ann" "#45B7D1" None
                                 (Some (Protocol.mkCursorPosition 3 4)) []) true).
Proof.
  intros w ann w'.
  assert (Hid : Server.truthy (Server.clientIdOf w 1%nat) = Some "a"%string)
    by reflexivity.
  assert (Hget : JsMap.get "a" (Server.clients (Server.self w)) = Some ann)
    by reflexivity.
  destruct (cursor_update_goes_to_joined_id w 1%nat "a" ann "b" "x.ts"
              (Protocol.mkCursorPosition 3 4) [] Hid Hget) as (Hown & _ & _).
  split; [exact Hid|]. split; [exact Hget|]. exact Hown.
Defined.

(** Ann's list follows the host's when Cy joins on socket 3 and when Bob is
    removed. *)
Lemma roster_stays_in_step_witness :
  let w := Server.two_clients in
  let ann := Server.mkClientConnection 1%nat
               (Protocol.mkUserInfo "a" "Ann" "#4ECDC4" None None []) true in
  let st := ClientSession.mkSession "#4ECDC4" (Server.getAllUsers w) in
  let joined := Server.on_message 3%nat (Protocol.Join "c" "Cy") w in
  let left := Server.removeClient "b" w in
  Server.registry_wf w /\ ServerView.keys_match w /\ Server.sockets_distinct w /\
  JsMap.get "a" (Server.clients (Server.self w)) = Some ann /\
  ClientSession.users
    (ClientSession.deliver (ServerView.inbox 1%nat (ServerView.added w joined)) st) =
    Server.getAllUsers joined /\
  ClientSession.users
    (ClientSession.deliver (ServerView.inbox 1%nat (ServerView.added w left)) st) =
    Server.getAllUsers left.
Proof.
  intros w ann st joined left.
  assert (Hwf : Server.registry_wf w).
  { unfold Server.registry_wf. vm_compute.
    repeat constructor; simpl; intuition discriminate. }
  assert (Hkm : ServerView.keys_match w).
  { unfold ServerView.keys_match. vm_compute. repeat constructor. }
  assert (Hsd : Server.sockets_distinct w).
  { unfold Server.sockets_distinct. vm_compute.
    repeat constructor; simpl; intuition discriminate. }
  assert (Hget : JsMap.get "a" (Server.clients (Server.self w)) = Some ann)
    by reflexivity.
  destruct (roster_stays_in_step w "a" ann st Hwf Hkm Hsd eq_refl Hget eq_refl eq_refl)
    as [Hjoin Hleave].
  split; [exact Hwf|]. split; [exact Hkm|]. split; [exact Hsd|]. split; [exact Hget|].
  split.
  - apply (Hjoin 3%nat "c"%string "Cy"%string); [discriminate | reflexivity].
  - apply (Hleave "b"%string). discriminate.
Defined.

(** Ann's list follows the host's when Bob moves his cursor. *)
Lemma roster_updates_stay_in_step_witness :
  let w := Server.two_clients in
  let bob := Server.mkClientConnection 2%nat
               (Protocol.mkUserInfo "b" "Bob" "#45B7D1" None None []) true in
  let st := ClientSession.mkSession "#4ECDC4" (Server.getAllUsers w) in
  let msg := Protocol.CursorUpdate "b" "x.ts" (Protocol.mkCursorPosition 3 4) [] in
  Server.registry_wf w /\ ServerView.keys_match w /\
  "b"%string <> ""%string /\
  "b"%string <> Protocol.userId (Server.hostUser (Server.self w)) /\
  JsMap.get "b" (Server.clients (Server.self w)) = Some bob /\
  ClientSession.users (fst (ClientSession.handleMessage msg st)) =
    Server.getAllUsers (Server.handleClientMessage (Some "b"%string) msg w).
Proof.
  intros w bob st msg.
  assert (Hwf : Server.registry_wf w).
  { unfold Server.registry_wf. vm_compute.
    repeat constructor; simpl; intuition discriminate. }
  assert (Hkm : ServerView.keys_match w).
  { unfold ServerView.keys_match. vm_compute. repeat constructor. }
  assert (Hb : "b"%string <> ""%string) by discriminate.
  assert (Hh : "b"%string <> Protocol.userId (Server.hostUser (Server.self w)))
    by discriminate.
  assert (Hget : JsMap.get "b" (Server.clients (Server.self w)) = Some bob)
    by reflexivity.
  destruct (roster_updates_stay_in_step w "b" bob st Hwf Hkm Hb Hh Hget eq_refl)
    as [Hcursor _].
  repeat (split; [assumption|]).
  apply (Hcursor "x.ts"%string (Protocol.mkCursorPosition 3 4) []).
Defined.

(** A change of [/ws/a.py] by user A, on a synchroniser that has seen one
    edit of it. *)
Lemma local_change_is_passed_on_witness :
  let toRelativePath := fun (absolutePath root : string) => "a.py"%string in
  let d := DocumentSyncM.mkDocumentSync "/ws" {["a.py"%string := 1]} false "A" in
  let event :=
    DocumentSyncLocal.mkTextDocumentChangeEvent
      (DocumentSyncLocal.mkTextDocument "file" "/ws/a.py")
      [DocumentSyncLocal.mkContentChange 0 0 "x" (DocumentSyncM.mkRange 0 0 0 0)] in
  exists d' msg,
    DocumentSyncLocal.handleDocumentChange toRelativePath event d = (d', Some msg) /\
    Protocol.DocEditMessage.version msg = 2 /\
    Protocol.DocEditMessage.userId msg = "A"%string.
Proof.
  intros toRelativePath d event.
  eexists. eexists.
  assert (H : DocumentSyncLocal.handleDocumentChange toRelativePath event d =
              (_, Some _)) by reflexivity.
  split; [exact H|].
  destruct (local_change_is_passed_on toRelativePath event d _ _ H)
    as (_ & _ & _ & _ & _ & Hid & _ & _ & Hver & _).
  split; [|exact Hid].
  apply Hver. vm_compute. split; [discriminate | reflexivity].
Defined.

(** The host sends the edit back to its author. *)
Lemma own_edit_is_not_applied_again_witness :
  let toRelativePath := fun (absolutePath root : string) => "a.py"%string in
  let openTextDocument := fun (e : list (string * nat)) (_ : string) => Some e in
  let applyEdit :=
    fun (e : list (string * nat)) (uri : string)
        (edit : list (DocumentSyncM.Range * string)) =>
      Some (e ++ [(uri, List.length edit)]) in
  let open_latency := fun _ : string => 40 in
  let edit_latency := fun (_ : string) (_ : list (DocumentSyncM.Range * string)) => 100 in
  let w := DocumentSyncM.mkWorld _
             (DocumentSyncM.mkDocumentSync "/ws" ∅ false "A") [] 0 [] in
  let event :=
    DocumentSyncLocal.mkTextDocumentChangeEvent
      (DocumentSyncLocal.mkTextDocument "file" "/ws/a.py")
      [DocumentSyncLocal.mkContentChange 0 0 "x" (DocumentSyncM.mkRange 0 0 0 0)] in
  exists d' msg,
    DocumentSyncLocal.handleDocumentChange toRelativePath event (DocumentSyncM.self w)
      = (d', Some msg) /\
    DocumentSyncM.editor
      (DocumentSyncM.applyRemoteEdit _ String.append openTextDocument applyEdit
                                     open_latency edit_latency msg
                                     (DocumentSyncLocal.set_self d' w)) = [].
Proof.
  intros toRelativePath openTextDocument applyEdit open_latency edit_latency w event.
  eexists. eexists.
  assert (H : DocumentSyncLocal.handleDocumentChange toRelativePath event
                (DocumentSyncM.self w) = (_, Some _)) by reflexivity.
  split; [exact H|].
  now rewrite (own_edit_is_not_applied_again _ String.append openTextDocument applyEdit
                 open_latency edit_latency toRelativePath w event _ _ H).
Defined.

(** Three changes of [a.py] and one of an ignored file, from version 4. *)
Lemma local_versions_count_up_witness :
  let toRelativePath :=
    fun (absolutePath root : string) =>
      if String.eqb absolutePath "/ws/a.py" then "a.py"%string else ".git/x"%string in
  let d := DocumentSyncM.mkDocumentSync "/ws" {["a.py"%string := 4]} false "A" in
  let change := DocumentSyncLocal.mkContentChange 0 0 "x" (DocumentSyncM.mkRange 0 0 0 0) in
  let edit := fun fsPath : string =>
    DocumentSyncLocal.mkTextDocumentChangeEvent
      (DocumentSyncLocal.mkTextDocument "file" fsPath) [change] in
  let events := [edit "/ws/a.py"; edit "/ws/.git/x"; edit "/ws/a.py"; edit "/ws/a.py"] in
  let result := DocumentSyncLocal.handleDocumentChanges toRelativePath events d in
  - JsNumber.limit <= DocumentSyncLocal.version_of "a.py" d /\
  DocumentSyncLocal.version_of "a.py" d + 3 <= JsNumber.limit /\
  List.map Protocol.DocEditMessage.version
           (List.filter (fun msg => String.eqb (Protocol.DocEditMessage.path msg) "a.py")
                        (snd result)) = [5; 6; 7] /\
  DocumentSyncLocal.version_of "a.py" (fst result) = 7.
Proof.
  intros toRelativePath d change edit events result.
  assert (Hlow : - JsNumber.limit <= DocumentSyncLocal.version_of "a.py" d)
    by (vm_compute; discriminate).
  assert (Hhigh : DocumentSyncLocal.version_of "a.py" d + 3 <= JsNumber.limit)
    by (vm_compute; discriminate).
  split; [exact Hlow|]. split; [exact Hhigh|].
  exact (local_versions_count_up toRelativePath events d "a.py" Hlow Hhigh).
Defined.

(** An edit by B arrives at time 0; the document opens after 40 ms and the
    edit is applied 100 ms later.  A types 20 ms and 60 ms after that. *)
Lemma remote_edit_mutes_local_changes_witness :
  let toRelativePath := fun (absolutePath root : string) => "a.py"%string in
  let openTextDocument := fun (e : list (string * nat)) (_ : string) => Some e in
  let applyEdit :=
    fun (e : list (string * nat)) (uri : string)
        (edit : list (DocumentSyncM.Range * string)) =>
      Some (e ++ [(uri, List.length edit)]) in
  let open_latency := fun _ : string => 40 in
  let edit_latency := fun (_ : string) (_ : list (DocumentSyncM.Range * string)) => 100 in
  let w := DocumentSyncM.mkWorld _
             (DocumentSyncM.mkDocumentSync "/ws" ∅ false "A") [] 0 [] in
  let msg := Protocol.DocEditMessage.mk "a.py"
               [Protocol.TextChange.mk 0 0 "hi" 0 0 0 0] 7 "B" in
  let event :=
    DocumentSyncLocal.mkTextDocumentChangeEvent
      (DocumentSyncLocal.mkTextDocument "file" "/ws/a.py")
      [DocumentSyncLocal.mkContentChange 0 0 "x" (DocumentSyncM.mkRange 0 0 0 0)] in
  let w' := DocumentSyncM.applyRemoteEdit _ String.append openTextDocument applyEdit
              open_latency edit_latency msg w in
  Protocol.DocEditMessage.userId msg <> DocumentSyncM.userId (DocumentSyncM.self w) /\
  DocumentSyncM.clock w' = 140 /\
  snd (DocumentSyncLocal.handleDocumentChange toRelativePath event
         (DocumentSyncM.self (DocumentSyncM.advance 160 w'))) = None /\
  DocumentSyncM.applyingRemoteEdit
    (DocumentSyncM.self (DocumentSyncM.advance 200 w')) = false.
Proof.
  intros toRelativePath openTextDocument applyEdit open_latency edit_latency w msg event w'.
  assert (Hne : Protocol.DocEditMessage.userId msg <>
                DocumentSyncM.userId (DocumentSyncM.self w)) by discriminate.
  destruct (remote_edit_mutes_local_changes _ String.append openTextDocument applyEdit
              open_latency edit_latency toRelativePath msg w [] Hne eq_refl)
    as (Hclock & Hmute & Hdown).
  split; [exact Hne|]. split; [exact Hclock|]. split.
  - refine (f_equal snd (Hmute 160 event _ (Forall_nil _))).
    vm_compute. split; [discriminate | reflexivity].
  - apply Hdown. vm_compute. discriminate.
Defined.

(** The same edit sets the version of [a.py] to 7 and leaves [b.py] at 0. *)
Lemma applyRemoteEdit_versions_witness :
  let openTextDocument := fun (e : list (string * nat)) (_ : string) => Some e in
  let applyEdit :=
    fun (e : list (string * nat)) (uri : string)
        (edit : list (DocumentSyncM.Range * string)) =>
      Some (e ++ [(uri, List.length edit)]) in
  let open_latency := fun _ : string => 40 in
  let edit_latency := fun (_ : string) (_ : list (DocumentSyncM.Range * string)) => 100 in
  let w := DocumentSyncM.mkWorld _
             (DocumentSyncM.mkDocumentSync "/ws" {["a.py"%string := 9]} false "A")
             [] 0 [] in
  let msg := Protocol.DocEditMessage.mk "a.py"
               [Protocol.TextChange.mk 0 0 "hi" 0 0 0 0] 7 "B" in
  let w' := DocumentSyncM.applyRemoteEdit _ String.append openTextDocument applyEdit
              open_latency edit_latency msg w in
  Protocol.DocEditMessage.userId msg <> DocumentSyncM.userId (DocumentSyncM.self w) /\
  DocumentSyncM.getVersion _ "a.py" w' = 7 /\
  DocumentSyncM.getVersion _ "b.py" w' = 0.
Proof.
  intros openTextDocument applyEdit open_latency edit_latency w msg w'.
  assert (Hne : Protocol.DocEditMessage.userId msg <>
                DocumentSyncM.userId (DocumentSyncM.self w)) by discriminate.
  split; [exact Hne|]. split.
  - exact (applyRemoteEdit_versions _ String.append openTextDocument applyEdit
             open_latency edit_latency msg w "a.py" Hne).
  - exact (applyRemoteEdit_versions _ String.append openTextDocument applyEdit
             open_latency edit_latency msg w "b.py" Hne).
Defined.

(** The host created [a.txt] here at time 0; the watcher reports it 20 ms
    later. *)
Lemma remote_change_is_not_echoed_witness :
  let path_join := fun a b : string => (a +:+ "/" +:+ b)%string in
  let readFile := fun _ : string => Some [Byte.x61] in
  let encode := fun _ : list Byte.byte => "a"%string in
  let w := FileSyncM.newFileSync "/ws" 0 in
  let w' := FileSyncM.createFile path_join (fun p => p) (fun _ => 5)
              "a.txt" "a" Protocol.utf8 w in
  let event := FileWatcherM.mkFileChangeEvent FileWatcherM.Created "a.txt" "/ws/a.txt" in
  FileSyncM.no_timer_for "a.txt" w /\
  FileSyncM.clock w' <= 20 /\
  FileWatcherM.on_fileChange readFile encode encode "me" event (FileSyncM.advance 20 w')
  = None.
Proof.
  intros path_join readFile encode w w' event.
  assert (Hno : FileSyncM.no_timer_for "a.txt" w) by constructor.
  assert (Hclock : FileSyncM.clock w' <= 20) by (vm_compute; discriminate).
  destruct (remote_change_is_not_echoed path_join (fun p => p) (fun _ => 5)
              readFile encode encode w "a.txt" "me" event 20 Hno eq_refl
              ltac:(vm_compute; reflexivity)) as (Hcreate & _ & _).
  split; [exact Hno|]. split; [exact Hclock|].
  exact (Hcreate "a"%string Protocol.utf8 Hclock).
Defined.
